(** * Host environment of the vert VM ([src/proton/vm.ts])

    A shallow embedding of the contract intrinsics implemented by the class
    [VM] and of the data they act on, followed by the properties of the
    host ABI that are checked against it. *)

From Stdlib Require Import ZArith Lia String.
From Stdlib Require Import Init.Byte.
From stdpp Require Import base option list gmap.

Local Open Scope Z_scope.
Local Open Scope byte_scope.

(** ** Bytes and typed arrays *)

Abbreviation bytes := (list byte).

(** [Uint8Array.prototype.slice(start, end)] for [0 <= start <= end]: a
    fresh copy of the bytes at positions [start .. min end length). *)
Definition slice (b : bytes) (start stop : nat) : bytes :=
  take (stop - start) (drop start b).

(** [target.set(source)]: overwrites the first [length source] bytes of
    [target]; a source longer than the target raises a [RangeError]. *)
Definition typed_set (target source : bytes) : option bytes :=
  if decide (length source <= length target)%nat
  then Some (source ++ drop (length source) target)
  else None.

(** ** Secondary key converters (vm.ts, lines 35-84) *)

Module SecondaryKeyConverter.
Module checksum256.
Definition from (buffer : bytes) : bytes :=
  let low := slice buffer 0 16 in
  let high := slice buffer 16 32 in
  reverse low ++ reverse high.

Definition to (buffer value : bytes) : option bytes :=
  let low := slice value 0 16 in
  let high := slice value 16 32 in
  typed_set buffer (reverse low ++ reverse high).
End checksum256.
End SecondaryKeyConverter.

(** ** Integers at the WASM boundary *)

(** [BigInt.asUintN(w, v)]. *)
Definition asUintN (w v : Z) : Z := v mod 2 ^ w.

(** [convertToUnsigned(...values)] maps [BigInt.asUintN(64, _)] over its
    arguments; it is applied here to one argument at a time. *)
Definition convertToUnsigned (v : Z) : Z := asUintN 64 v.

(** ** Names

    A [Name] is carried by its unsigned 64-bit value, which is what
    [nameToBigInt], [nameTypeToBigInt] and [bigIntToName] convert to and
    from. *)

(** Modelled from the spec: the codec of [@greymass/eosio] is outside
    [src/]; "Name: 64-bit base-32 encoded identifier".  The symbols are
    [.], [1]..[5] and [a]..[z], five bits each from the most significant
    end, the thirteenth symbol on four bits. *)
Definition charToSymbol (c : Ascii.ascii) : Z :=
  let n := Z.of_nat (Ascii.nat_of_ascii c) in
  if (97 <=? n) && (n <=? 122) then n - 97 + 6
  else if (49 <=? n) && (n <=? 53) then n - 49 + 1
  else 0.

Fixpoint Name_from_aux (s : string) (i : Z) : Z :=
  match s with
  | EmptyString => 0
  | String c rest =>
      (if i <? 12 then Z.shiftl (Z.land (charToSymbol c) 31) (64 - 5 * (i + 1))
       else if i =? 12 then Z.land (charToSymbol c) 15
       else 0)
      + Name_from_aux rest (i + 1)
  end.

Definition Name_from (s : string) : Z := Name_from_aux s 0.

(** vm.ts, lines 28-29. *)
Definition owner : Z := Name_from "owner".
Definition active : Z := Name_from "active".

(** ** Exceptions *)

(** What a host function can throw.  [Error] carries the fixed part of the
    message (interpolated names are rendered by code outside [src/]). *)
Inductive Exception : Type :=
| Error (message : string)
| RangeError
| TypeError
| EosioExitResult (value : Z).

Inductive Outcome (A : Type) : Type :=
| Return (a : A)
| Throw (e : Exception).
Arguments Return {A} a.
Arguments Throw {A} e.

(** ** Data model *)

Module PermissionLevel.
Record t : Type := mk { actor : Z; permission : Z }.
End PermissionLevel.

Module Authority.
(** Modelled from the spec: the class [Account] is outside [src/]; "an
    authority (threshold of weighted keys and accounts)". *)
Record t : Type := mk {
  threshold : Z;
  keys : list (bytes * Z);
  accounts : list (PermissionLevel.t * Z)
}.
End Authority.

Module Permission.
(** Modelled from the spec: the class [Account] is outside [src/]; "a list
    of named permissions, each permission holding an authority". *)
Record t : Type := mk { perm_name : Z; required_auth : Authority.t }.
End Permission.

Module Account.
(** Modelled from the spec: the class [Account] is outside [src/]; an
    account is "identified by Name; carries WASM bytes (may be absent), ABI,
    code sequence [...] and a list of named permissions".  The fields are
    those vm.ts reads.  An account object is referred to by its name (the
    key of [Blockchain.accounts]), so [account.name] and
    [account.toBigInt()] are that key and [===] on accounts compares
    names.  [actions] holds the names of the actions the ABI declares. *)
Record t : Type := mk {
  isContract : bool;
  wasm : option bytes;
  codeSequence : Z;
  actions : gset Z;
  abi : string;
  permissions : list Permission.t
}.
End Account.

(** The decoded [Action] of [@greymass/eosio]. *)
Module Action.
Record t : Type := mk {
  account : Z;
  name : Z;
  authorization : list PermissionLevel.t;
  data : bytes
}.
End Action.

(** The payload decoded against an ABI is opaque to the host. *)
Definition DecodedData : Type := string.

(** [VM.Context] (vm.ts, lines 1690-1720).  [receiver] and [firstReceiver]
    are account references; fields the constructor leaves undefined are
    options. *)
Module Context.
#[warnings="-register-all"]
Inductive t : Type := mk {
  sender : Z;
  actionOrdinal : option Z;
  executionOrder : option Z;
  firstReceiver : Z;
  receiver : Z;
  action : Z;
  data : bytes;
  returnValue : option bytes;
  authorization : list PermissionLevel.t;
  actionsQueue : list t;
  notificationsQueue : list t;
  decodedData : option DecodedData
}.

Definition isInline (c : t) : bool := negb (sender c =? 0).

Definition isNotification (c : t) : bool :=
  negb (receiver c =? firstReceiver c).

(** [this.actionsQueue.push(child)] *)
Definition push_action (child : t) (c : t) : t :=
  mk (sender c) (actionOrdinal c) (executionOrder c) (firstReceiver c)
     (receiver c) (action c) (data c) (returnValue c) (authorization c)
     (actionsQueue c ++ [child]) (notificationsQueue c) (decodedData c).

(** [this.notificationsQueue.push(child)] *)
Definition push_notification (child : t) (c : t) : t :=
  mk (sender c) (actionOrdinal c) (executionOrder c) (firstReceiver c)
     (receiver c) (action c) (data c) (returnValue c) (authorization c)
     (actionsQueue c) (notificationsQueue c ++ [child]) (decodedData c).
End Context.

Module KeyValueObject.
Record t : Type := mk {
  tableId : Z;
  primaryKey : Z;
  payer : Z;
  value : bytes
}.
End KeyValueObject.

Module IndexObject.
Record t (K : Type) : Type := mk {
  tableId : Z;
  primaryKey : Z;
  secondaryKey : K;
  payer : Z
}.
Arguments mk {K}.
Arguments tableId {K}.
Arguments primaryKey {K}.
Arguments secondaryKey {K}.
Arguments payer {K}.
End IndexObject.

Module Table.
(** Modelled from the spec: the class [Table] is outside [src/]; section
    3, a table is "identified by the triple (code, scope, table)" and "owns
    a numeric table-id" and the primary index, "a single sorted map per
    table keyed by u64 primary_key" (section 4.3).  The rows are kept as a
    list and the ordered queries select by key. *)
Record t : Type := mk {
  id : Z;
  code : Z;
  scope : Z;
  table : Z;
  payer : Z;
  rows : list KeyValueObject.t
}.

(** Modelled from the spec: the row with the least primary key of a list,
    for the ordered queries of section 4.3. *)
Fixpoint least (l : list KeyValueObject.t) : option KeyValueObject.t :=
  match l with
  | [] => None
  | r :: rest =>
      match least rest with
      | None => Some r
      | Some m =>
          if KeyValueObject.primaryKey r <? KeyValueObject.primaryKey m
          then Some r else Some m
      end
  end.

(** Modelled from the spec: the row with the greatest primary key of a
    list, for the ordered queries of section 4.3. *)
Fixpoint greatest (l : list KeyValueObject.t) : option KeyValueObject.t :=
  match l with
  | [] => None
  | r :: rest =>
      match greatest rest with
      | None => Some r
      | Some m =>
          if KeyValueObject.primaryKey m <? KeyValueObject.primaryKey r
          then Some r else Some m
      end
  end.

(** Modelled from the spec: the rows of the table whose primary key
    satisfies [p]. *)
Definition select (p : Z -> bool) (tab : t) : list KeyValueObject.t :=
  List.filter (fun r => p (KeyValueObject.primaryKey r)) (rows tab).

(** Modelled from the spec: [get] of section 4.3, the row under the key
    ("primary keys are unique within a table"). *)
Definition get (tab : t) (key : Z) : option KeyValueObject.t :=
  List.find (fun r => KeyValueObject.primaryKey r =? key) (rows tab).

(** Modelled from the spec: [tab.has(key)], whether the key "is already
    present". *)
Definition has (tab : t) (key : Z) : bool :=
  match get tab key with Some _ => true | None => false end.

(** Modelled from the spec: [lower_bound], the first row whose key is at
    least the argument. *)
Definition lowerbound (tab : t) (key : Z) : option KeyValueObject.t :=
  least (select (fun k => key <=? k) tab).

(** Modelled from the spec: [upper_bound], the first row whose key is
    above the argument. *)
Definition upperbound (tab : t) (key : Z) : option KeyValueObject.t :=
  least (select (fun k => key <? k) tab).

(** Modelled from the spec: "[next(key)] (strict successor)". *)
Definition next (tab : t) (key : Z) : option KeyValueObject.t :=
  least (select (fun k => key <? k) tab).

(** Modelled from the spec: "[prev(key)] (strict predecessor)". *)
Definition prev (tab : t) (key : Z) : option KeyValueObject.t :=
  greatest (select (fun k => k <? key) tab).

(** Modelled from the spec: "[penultimate()] (last element; name is
    historical -- it is the maximum element)". *)
Definition penultimate (tab : t) : option KeyValueObject.t :=
  greatest (rows tab).

(** Modelled from the spec: [tab.set(key, kv)], the [insert] of section
    4.3; it is also what [db_update_i64] replaces a row with. *)
Definition set (key : Z) (kv : KeyValueObject.t) (tab : t) : t :=
  mk (id tab) (code tab) (scope tab) (table tab) (payer tab)
     (kv :: select (fun k => negb (k =? key)) tab).

(** Modelled from the spec: [tab.delete(key)], the [erase] of section
    4.3. *)
Definition delete (key : Z) (tab : t) : t :=
  mk (id tab) (code tab) (scope tab) (table tab) (payer tab)
     (select (fun k => negb (k =? key)) tab).
End Table.

(** A double is carried by its IEEE-754 bit pattern. *)
Definition f64 : Type := Z.

Module SecondaryKeyStore.
(** Modelled from the spec: the class [SecondaryKeyStore] is outside
    [src/]; section 4.4, "each secondary index is an ordered set of
    IndexEntry".  The entries are kept as a list; the queries by secondary
    key are left out. *)
Definition t (K : Type) : Type := list (IndexObject.t K).

(** Modelled from the spec: "uniqueness is on the full (table,
    primary)". *)
Definition samePrimary {K} (tableId primaryKey : Z) (o : IndexObject.t K) : bool :=
  (IndexObject.tableId o =? tableId) && (IndexObject.primaryKey o =? primaryKey).

(** Modelled from the spec: [index.get({tableId, primaryKey})], the entry
    of a row of a table. *)
Definition get {K} (index : t K) (tableId primaryKey : Z)
    : option (IndexObject.t K) :=
  List.find (samePrimary tableId primaryKey) index.

(** Modelled from the spec: [delete] of section 4.4. *)
Definition delete {K} (obj : IndexObject.t K) (index : t K) : t K :=
  List.filter
    (fun o => negb (samePrimary (IndexObject.tableId obj)
                                (IndexObject.primaryKey obj) o))
    index.

(** Modelled from the spec: "[set(old?, new)] (insert or replace)". *)
Definition set {K} (old : option (IndexObject.t K)) (new : IndexObject.t K)
    (index : t K) : t K :=
  new :: delete new (match old with
                     | Some o => delete o index
                     | None => index
                     end).
End SecondaryKeyStore.

Module Store.
(** Modelled from the spec: the class [Store] is outside [src/]; "tables
    keyed by (code, scope, table); each holds a primary index and four
    secondary indices", each table "owns a numeric table-id unique
    process-wide".  A [Table] object is shared between the store and the
    iterator caches: it is referred to by its id and every access goes
    through the store. *)
Record t : Type := mk {
  tables : list Table.t;
  nextTableId : Z;
  idx64 : SecondaryKeyStore.t Z;
  idx128 : SecondaryKeyStore.t Z;
  idx256 : SecondaryKeyStore.t bytes;
  idxDouble : SecondaryKeyStore.t f64
}.

(** Modelled from the spec: the store after a reset, without tables. *)
Definition empty : t := mk [] 0 [] [] [] [].

(** Modelled from the spec: the table "identified by the triple (code,
    scope, table)", if it was created. *)
Definition findTable (st : t) (code scope table : Z) : option Table.t :=
  List.find (fun tab => (Table.code tab =? code)
                        && (Table.scope tab =? scope)
                        && (Table.table tab =? table)) (tables st).

(** Modelled from the spec: the table that owns the table-id. *)
Definition getTableById (st : t) (id : Z) : option Table.t :=
  List.find (fun tab => Table.id tab =? id) (tables st).

(** Modelled from the spec: "tables are created lazily on first write and
    persist until reset"; the new table is empty and takes the next
    table-id. *)
Definition createTable (st : t) (code scope table payer : Z) : Table.t * t :=
  let tab := Table.mk (nextTableId st) code scope table payer [] in
  (tab, mk (tables st ++ [tab]) (nextTableId st + 1)
           (idx64 st) (idx128 st) (idx256 st) (idxDouble st)).

(** Modelled from the spec: a mutation of the table object with the given
    id, seen by every holder of the table. *)
Definition modifyTable (id : Z) (f : Table.t -> Table.t) (st : t) : t :=
  mk (List.map (fun tab => if Table.id tab =? id then f tab else tab)
               (tables st))
     (nextTableId st) (idx64 st) (idx128 st) (idx256 st) (idxDouble st).

(** Modelled from the spec: a mutation of the idx256 index. *)
Definition with_idx256 (index : SecondaryKeyStore.t bytes) (st : t) : t :=
  mk (tables st) (nextTableId st) (idx64 st) (idx128 st) index (idxDouble st).
End Store.

Module IteratorCache.
(** Modelled from the spec: the class [IteratorCache] is outside [src/];
    section 4.2.  Handles are indices into [iteratorToObject] ("append row
    reference, return its non-negative index"); a tombstone is [None].  The
    table at position [i] of [endIteratorToTable] has the end iterator
    [-(i + 2)] ("allocate the next end sentinel (-2, -3, ...)"). *)
Record t (T : Type) : Type := mk {
  endIteratorToTable : list Z;
  iteratorToObject : list (option T)
}.
Arguments mk {T}.
Arguments endIteratorToTable {T}.
Arguments iteratorToObject {T}.

(** Modelled from the spec: [new IteratorCache()], no handle and no end
    iterator issued. *)
Definition empty {T} : t T := mk [] [].

(** Modelled from the spec: the end sentinels are -2, -3, ... in the order
    of allocation. *)
Definition indexToEndIterator (i : nat) : Z := - (Z.of_nat i + 2).

(** Modelled from the spec: the inverse of [indexToEndIterator]. *)
Definition endIteratorToIndex (ei : Z) : nat := Z.to_nat (- ei - 2).

(** Modelled from the spec: the position at which a table was recorded. *)
Fixpoint indexOf (tableId : Z) (l : list Z) : option nat :=
  match l with
  | [] => None
  | x :: rest =>
      if x =? tableId then Some O else S <$> indexOf tableId rest
  end.

(** Modelled from the spec: "[end_iterator_of_table(id)]", an inverse
    lookup. *)
Definition getEndIteratorByTableId {T} (c : t T) (tableId : Z) : option Z :=
  indexToEndIterator <$> indexOf tableId (endIteratorToTable c).

(** Modelled from the spec: [cache_table(t)], "idempotent; if t already
    has an end iterator assigned in this cache, return it; otherwise
    allocate the next end sentinel". *)
Definition cacheTable {T} (c : t T) (tableId : Z) : Z * t T :=
  match getEndIteratorByTableId c tableId with
  | Some ei => (ei, c)
  | None =>
      (indexToEndIterator (length (endIteratorToTable c)),
       mk (endIteratorToTable c ++ [tableId]) (iteratorToObject c))
  end.

(** Modelled from the spec: "[table_from_end_iterator(e)]", an inverse
    lookup: the id of the table, if any. *)
Definition findTableByEndIterator {T} (c : t T) (ei : Z) : option Z :=
  if ei <? -1 then endIteratorToTable c !! endIteratorToIndex ei else None.

(** Modelled from the spec: [add(row)], "append row reference, return its
    non-negative index". *)
Definition add {T} (c : t T) (obj : T) : Z * t T :=
  (Z.of_nat (length (iteratorToObject c)),
   mk (endIteratorToTable c) (iteratorToObject c ++ [Some obj])).

(** Modelled from the spec: [get(handle)], "fails if handle is negative
    or tombstoned"; a handle that was never issued has no entry either. *)
Definition get {T} (c : t T) (iterator : Z) : option T :=
  if iterator <? 0 then None
  else mjoin (iteratorToObject c !! Z.to_nat iterator).

(** Modelled from the spec: [set(handle, row)], "replaces the
    reference". *)
Definition set {T} (c : t T) (iterator : Z) (obj : T) : t T :=
  mk (endIteratorToTable c)
     (<[Z.to_nat iterator := Some obj]> (iteratorToObject c)).

(** Modelled from the spec: [remove(handle)], "tombstones the entry;
    subsequent get fails". *)
Definition remove {T} (c : t T) (iterator : Z) : t T :=
  mk (endIteratorToTable c)
     (<[Z.to_nat iterator := None]> (iteratorToObject c)).
End IteratorCache.

Module Blockchain.
(** Modelled from the spec: the class [Blockchain] is outside [src/]; "the
    Blockchain (accounts, Store, clock, console, feature set, action
    traces) is a single owned object".  The fields are those the modelled
    intrinsics use. *)
Record t : Type := mk {
  accounts : gmap Z Account.t;
  actionTraces : list Context.t;
  store : Store.t
}.

(** Modelled from the spec: [bc.getAccount(name)], the account of that
    name, if there is one. *)
Definition getAccount (bc : t) (name : Z) : option Account.t :=
  accounts bc !! name.

(** Modelled from the spec: a mutation of the store of the chain. *)
Definition with_store (st : Store.t) (bc : t) : t :=
  mk (accounts bc) (actionTraces bc) st.
End Blockchain.

Module Memory.
(** Modelled from the spec: the linear memory of the class [Vert] is
    outside [src/]; section 4.1, "the guest linear memory buffer". *)
Definition t : Type := bytes.

(** Modelled from the spec: "all accesses must bounds-check against
    current memory size; out-of-bounds is fatal to the action". *)
Definition inBounds (m : t) (ptr len : Z) : bool :=
  (0 <=? ptr) && (0 <=? len) && (ptr + len <=? Z.of_nat (length m)).

(** Modelled from the spec: "bounded byte slice aliasing ([slice(ptr,
    len)])", the bytes under the view [Buffer.from_(memory.buffer, ptr,
    len)] or [new Uint8Array(memory.buffer, ptr, len)]. *)
Definition view (m : t) (ptr len : Z) : option bytes :=
  if inBounds m ptr len
  then Some (take (Z.to_nat len) (drop (Z.to_nat ptr) m))
  else None.

(** Modelled from the spec: a bounds-checked write of [source] at
    [ptr]. *)
Definition store (m : t) (ptr : Z) (source : bytes) : option t :=
  if inBounds m ptr (Z.of_nat (length source))
  then Some (take (Z.to_nat ptr) m ++ source
             ++ drop (Z.to_nat ptr + length source) m)
  else None.

(** Modelled from the spec: the low eight bits of an integer as a byte. *)
Definition byteOfZ (z : Z) : byte :=
  match Byte.of_N (Z.to_N (z mod 256)) with
  | Some b => b
  | None => x00
  end.

(** Modelled from the spec: "little-endian read/write of u32/u64", the
    eight bytes of an unsigned 64-bit integer. *)
Definition uint64LE (v : Z) : bytes :=
  List.map (fun i => byteOfZ (Z.shiftr v (8 * i))) [0; 1; 2; 3; 4; 5; 6; 7].

(** Modelled from the spec: [memory.writeUInt64(ptr, v)]. *)
Definition writeUInt64 (m : t) (ptr v : Z) : option t :=
  store m ptr (uint64LE v).
End Memory.

(** ** The machine state (vm.ts, lines 93-104) *)

Record VM : Type := mkVM {
  context : Context.t;
  kvCache : IteratorCache.t KeyValueObject.t;
  idx64 : IteratorCache.t (IndexObject.t Z);
  idx128 : IteratorCache.t (IndexObject.t Z);
  idx256 : IteratorCache.t (IndexObject.t bytes);
  idxDouble : IteratorCache.t (IndexObject.t f64);
  bc : Blockchain.t;
  memory : Memory.t
}.

(** ** Host functions as state transformers

    A host function runs on the machine state and either returns a value
    or throws; the state it reached is kept in both cases, since a JavaScript
    exception undoes nothing. *)
Definition M (A : Type) : Type := VM -> Outcome A * VM.

Definition ret {A} (a : A) : M A := fun vm => (Return a, vm).

Definition throw {A} (e : Exception) : M A := fun vm => (Throw e, vm).

Definition bind {A B} (m : M A) (k : A -> M B) : M B :=
  fun vm =>
    match m vm with
    | (Return a, vm') => k a vm'
    | (Throw e, vm') => (Throw e, vm')
    end.

Notation "x <- m ;; k" := (bind m (fun x => k))
  (at level 100, m at next level, right associativity).
Notation "m ;;; k" := (bind m (fun _ => k))
  (at level 100, right associativity).

Definition gets {A} (f : VM -> A) : M A := fun vm => (Return (f vm), vm).

Definition modify (f : VM -> VM) : M unit := fun vm => (Return tt, f vm).

(** [assert(test, message)] of [../assert]. *)
Definition assert (test : bool) (message : string) : M unit :=
  if test then ret tt else throw (Error message).

(** A value that must be defined; [e] is thrown when it is not. *)
Definition orThrow {A} (o : option A) (e : Exception) : M A :=
  match o with
  | Some a => ret a
  | None => throw e
  end.

(** [try { body } finally { cleanup }] with a cleanup that cannot throw. *)
Definition tryFinally {A} (body : M A) (cleanup : VM -> VM) : M A :=
  fun vm => let '(r, vm') := body vm in (r, cleanup vm').

Definition set_context (c : Context.t) (vm : VM) : VM :=
  mkVM c (kvCache vm) (idx64 vm) (idx128 vm) (idx256 vm) (idxDouble vm)
       (bc vm) (memory vm).

Definition set_kvCache (c : IteratorCache.t KeyValueObject.t) (vm : VM) : VM :=
  mkVM (context vm) c (idx64 vm) (idx128 vm) (idx256 vm) (idxDouble vm)
       (bc vm) (memory vm).

Definition set_store (st : Store.t) (vm : VM) : VM :=
  mkVM (context vm) (kvCache vm) (idx64 vm) (idx128 vm) (idx256 vm)
       (idxDouble vm) (Blockchain.with_store st (bc vm)) (memory vm).

Definition set_memory (m : Memory.t) (vm : VM) : VM :=
  mkVM (context vm) (kvCache vm) (idx64 vm) (idx128 vm) (idx256 vm)
       (idxDouble vm) (bc vm) m.

Definition liftOutcome {A} (o : Outcome A) : M A := fun vm => (o, vm).

Definition getAccount (name : Z) : M (option Account.t) :=
  gets (fun vm => Blockchain.getAccount (bc vm) name).

Definition memoryView (ptr len : Z) : M bytes :=
  mem <- gets memory ;;
  orThrow (Memory.view mem ptr len) RangeError.

Definition memoryStore (ptr : Z) (source : bytes) : M unit :=
  mem <- gets memory ;;
  mem' <- orThrow (Memory.store mem ptr source) RangeError ;;
  modify (set_memory mem').

Definition memoryWriteUInt64 (ptr v : Z) : M unit :=
  mem <- gets memory ;;
  mem' <- orThrow (Memory.writeUInt64 mem ptr v) RangeError ;;
  modify (set_memory mem').

(** ** Authorization (vm.ts, lines 130-163) *)

(** The loop shared by [require_auth] and [has_auth]: the value of
    [hasAuth] when the loop ends. *)
Fixpoint hasAuthLoop (authorization : list PermissionLevel.t) (name : Z) : bool :=
  match authorization with
  | [] => false
  | auth :: rest =>
      if PermissionLevel.actor auth =? name then
        let permission := PermissionLevel.permission auth in
        if (permission =? active) || (permission =? owner) then true
        else hasAuthLoop rest name
      else hasAuthLoop rest name
  end.

Definition require_auth (_name : Z) : M unit :=
  let name := convertToUnsigned _name in
  authorization <- gets (fun vm => Context.authorization (context vm)) ;;
  assert (hasAuthLoop authorization name) "missing required authority".

Definition has_auth (_name : Z) : M bool :=
  let name := convertToUnsigned _name in
  authorization <- gets (fun vm => Context.authorization (context vm)) ;;
  ret (hasAuthLoop authorization name).

(** ** get_code_hash (vm.ts, lines 189-211) *)

Module CodeHashResult.
Record t : Type := mk {
  struct_version : Z;
  code_sequence : Z;
  code_hash : bytes;
  vm_type : Z;
  vm_version : Z
}.
End CodeHashResult.

(** [new Uint8Array(new Array(32).fill(0))] *)
Definition zeroChecksum256 : bytes := replicate 32 x00.

(** The object handed to [Serializer.encode]; [hash] is
    [Checksum256.hash].  [Serializer.encode] belongs to [@greymass/eosio]
    and throws on a field value outside the range of its type. *)
Definition codeHashObject (hash : bytes -> bytes) (account : option Account.t)
    (_structVersion : Z) : CodeHashResult.t :=
  CodeHashResult.mk
    (Z.min 0 _structVersion)
    (match account with
     | Some a => Account.codeSequence a
     | None => 0
     end)
    (match account with
     | Some a =>
         match Account.wasm a with
         | Some w => hash w
         | None => zeroChecksum256
         end
     | None => zeroChecksum256
     end)
    0
    0.

Definition get_code_hash (encode : CodeHashResult.t -> Outcome bytes)
    (hash : bytes -> bytes)
    (_accountName _structVersion _packedResult : Z) : M Z :=
  let accountName := convertToUnsigned _accountName in
  account <- getAccount accountName ;;
  codeHashResult <- liftOutcome
                      (encode (codeHashObject hash account _structVersion)) ;;
  memoryStore _packedResult codeHashResult ;;;
  ret (Z.of_nat (length codeHashResult)).

(** ** require_recipient (vm.ts, lines 213-257) *)

Definition sameNotification (accountName : Z) (ctx n : Context.t) : bool :=
  Context.isNotification n
  && (Context.receiver n =? accountName)
  && bool_decide (Context.actionOrdinal n = Context.actionOrdinal ctx).

Definition notificationContext (accountName : Z) (ctx : Context.t) : Context.t :=
  Context.mk
    0
    (Context.actionOrdinal ctx)
    None
    (if Context.isNotification ctx
     then Context.firstReceiver ctx else Context.receiver ctx)
    accountName
    (Context.action ctx)
    (Context.data ctx)
    None
    []
    []
    []
    (Context.decodedData ctx).

Definition require_recipient (name : Z) : M unit :=
  let accountName := convertToUnsigned name in
  account <- getAccount accountName ;;
  match account with
  | None => throw (Error "Account missing for require_recipient")
  | Some account =>
      ctx <- gets context ;;
      actionTraces <- gets (fun vm => Blockchain.actionTraces (bc vm)) ;;
      match List.find (sameNotification accountName ctx) actionTraces with
      | Some _ => ret tt
      | None =>
          if negb (Account.isContract account) then ret tt
          else if accountName =? Context.receiver ctx then ret tt
          else
            modify (fun vm =>
              set_context
                (Context.push_notification
                   (notificationContext accountName ctx) (context vm)) vm)
      end
  end.

(** ** send_inline (vm.ts, lines 259-291)

    [decode] is [Serializer.decode] at type [Action] and [decodeData] is
    [Action.decodeData]; both belong to [@greymass/eosio] and may throw. *)

Definition inlineContext (ctx : Context.t) (decodedAction : Action.t)
    (decodedData : DecodedData) : Context.t :=
  Context.mk
    (Context.receiver ctx)
    None
    None
    (Action.account decodedAction)
    (Action.account decodedAction)
    (Action.name decodedAction)
    (Action.data decodedAction)
    None
    (Action.authorization decodedAction)
    []
    []
    (Some decodedData).

Definition send_inline (decode : bytes -> Outcome Action.t)
    (decodeData : Action.t -> string -> Outcome DecodedData)
    (action size : Z) : M unit :=
  inlineBuffer <- memoryView action size ;;
  decodedAction <- liftOutcome (decode inlineBuffer) ;;
  contract <- getAccount (Action.account decodedAction) ;;
  match contract with
  | None => throw (Error "Contract is missing for inline action")
  | Some contract =>
      if negb (Account.isContract contract)
      then throw (Error "Contract is missing for inline action")
      else if bool_decide (Action.name decodedAction ∈ Account.actions contract)
      then
        ctx <- gets context ;;
        decodedData <- liftOutcome
                         (decodeData decodedAction (Account.abi contract)) ;;
        modify (fun vm =>
          set_context
            (Context.push_action
               (inlineContext ctx decodedAction decodedData) (context vm)) vm)
      else ret tt
  end.

(** ** alt_bn128_pair (vm.ts, lines 478-492)

    [pairing] is [bn128.pairing] of [rustbn.js]. *)
Definition alt_bn128_pair (pairing : bytes -> Outcome bytes)
    (_pairs _pairslen : Z) : M Z :=
  pairsRaw <- memoryView _pairs _pairslen ;;
  match pairing pairsRaw with
  | Return result =>
      if negb (Nat.eqb (length result) 32) then ret (-1)
      else ret (match result !! 31%nat with Some x00 => 1 | _ => 0 end)
  | Throw _ => ret (-1)
  end.

(** ** Primary index (vm.ts, lines 582-713 and 1441-1451) *)

Definition findTable (code scope table : Z) : M (option Table.t) :=
  gets (fun vm => Store.findTable (Blockchain.store (bc vm)) code scope table).

Definition findOrCreateTable (code scope table payer : Z) : M Table.t :=
  tab <- findTable code scope table ;;
  match tab with
  | Some tab => ret tab
  | None =>
      fun vm =>
        let '(tab, st) :=
          Store.createTable (Blockchain.store (bc vm)) code scope table payer in
        (Return tab, set_store st vm)
  end.

(** [this.bc.store.getTableById(id)], dereferenced at once by the caller:
    a method call on [undefined] is a [TypeError]. *)
Definition getTableById (id : Z) : M Table.t :=
  tab <- gets (fun vm => Store.getTableById (Blockchain.store (bc vm)) id) ;;
  orThrow tab TypeError.

Definition kvCache_cacheTable (tab : Table.t) : M Z :=
  fun vm =>
    let '(ei, c) := IteratorCache.cacheTable (kvCache vm) (Table.id tab) in
    (Return ei, set_kvCache c vm).

Definition kvCache_add (kv : KeyValueObject.t) : M Z :=
  fun vm =>
    let '(itr, c) := IteratorCache.add (kvCache vm) kv in
    (Return itr, set_kvCache c vm).

Definition kvCache_get (iterator : Z) : M KeyValueObject.t :=
  kv <- gets (fun vm => IteratorCache.get (kvCache vm) iterator) ;;
  orThrow kv (Error "invalid iterator").

Definition kvCache_getEndIteratorByTableId (tableId : Z) : M Z :=
  ei <- gets (fun vm => IteratorCache.getEndIteratorByTableId (kvCache vm) tableId) ;;
  orThrow ei (Error "table not found").

Definition db_store_i64 (_scope _table _payer _id data len : Z) : M Z :=
  let scope := convertToUnsigned _scope in
  let table := convertToUnsigned _table in
  let payer := convertToUnsigned _payer in
  let id := convertToUnsigned _id in
  receiver <- gets (fun vm => Context.receiver (context vm)) ;;
  tab <- findOrCreateTable receiver scope table payer ;;
  assert (negb (payer =? 0))
         "must specify a valid account to pay for new record" ;;;
  assert (negb (Table.has tab id)) "key uniqueness violation" ;;;
  value <- memoryView data len ;;
  let kv := KeyValueObject.mk (Table.id tab) id payer value in
  modify (fun vm =>
    set_store (Store.modifyTable (Table.id tab) (Table.set id kv)
                 (Blockchain.store (bc vm))) vm) ;;;
  kvCache_cacheTable tab ;;;
  kvCache_add kv.

Definition db_next_i64 (iterator primary : Z) : M Z :=
  if iterator <? -1 then ret (-1)
  else
    kv <- kvCache_get iterator ;;
    tab <- getTableById (KeyValueObject.tableId kv) ;;
    match Table.next tab (KeyValueObject.primaryKey kv) with
    | None => kvCache_getEndIteratorByTableId (KeyValueObject.tableId kv)
    | Some kvNext =>
        memoryWriteUInt64 primary (KeyValueObject.primaryKey kvNext) ;;;
        kvCache_add kvNext
    end.

Definition db_previous_i64 (iterator primary : Z) : M Z :=
  if iterator <? -1 then
    tabId <- gets (fun vm =>
               IteratorCache.findTableByEndIterator (kvCache vm) iterator) ;;
    match tabId with
    | None => throw (Error "not a valid end iterator")
    | Some tabId =>
        tab <- getTableById tabId ;;
        match Table.penultimate tab with
        | None => ret (-1)
        | Some kv =>
            memoryWriteUInt64 primary (KeyValueObject.primaryKey kv) ;;;
            kvCache_add kv
        end
    end
  else
    kv <- kvCache_get iterator ;;
    tab <- getTableById (KeyValueObject.tableId kv) ;;
    match Table.prev tab (KeyValueObject.primaryKey kv) with
    | None => ret (-1)
    | Some kvPrev =>
        memoryWriteUInt64 primary (KeyValueObject.primaryKey kvPrev) ;;;
        kvCache_add kvPrev
    end.

Definition db_find_i64 (_code _scope _table _id : Z) : M Z :=
  let code := convertToUnsigned _code in
  let scope := convertToUnsigned _scope in
  let table := convertToUnsigned _table in
  let id := convertToUnsigned _id in
  tab <- findTable code scope table ;;
  match tab with
  | None => ret (-1)
  | Some tab =>
      ei <- kvCache_cacheTable tab ;;
      match Table.get tab id with
      | None => ret ei
      | Some kv => kvCache_add kv
      end
  end.

Definition db_lowerbound_i64 (_code _scope _table _id : Z) : M Z :=
  let code := convertToUnsigned _code in
  let scope := convertToUnsigned _scope in
  let table := convertToUnsigned _table in
  let id := convertToUnsigned _id in
  tab <- findTable code scope table ;;
  match tab with
  | None => ret (-1)
  | Some tab =>
      ei <- kvCache_cacheTable tab ;;
      match Table.lowerbound tab id with
      | None => ret ei
      | Some kv => kvCache_add kv
      end
  end.

Definition db_upperbound_i64 (_code _scope _table _id : Z) : M Z :=
  let code := convertToUnsigned _code in
  let scope := convertToUnsigned _scope in
  let table := convertToUnsigned _table in
  let id := convertToUnsigned _id in
  tab <- findTable code scope table ;;
  match tab with
  | None => ret (-1)
  | Some tab =>
      ei <- kvCache_cacheTable tab ;;
      match Table.upperbound tab id with
      | None => ret ei
      | Some kv => kvCache_add kv
      end
  end.

Definition db_end_i64 (_code _scope _table : Z) : M Z :=
  let code := convertToUnsigned _code in
  let scope := convertToUnsigned _scope in
  let table := convertToUnsigned _table in
  tab <- findTable code scope table ;;
  match tab with
  | None => ret (-1)
  | Some tab => kvCache_cacheTable tab
  end.

(** ** Control (vm.ts, lines 1125-1129 and 1638-1687) *)

Definition eosio_exit (code : Z) : M unit := throw (EosioExitResult code).

Definition finalize (vm : VM) : VM :=
  mkVM (context vm)
       IteratorCache.empty IteratorCache.empty IteratorCache.empty
       IteratorCache.empty IteratorCache.empty
       (bc vm) (memory vm).

(** The authorization loop of [apply]; [isAuthoritySatisfied] comes from
    [./utils]. *)
Fixpoint checkAuthorization
    (isAuthoritySatisfied : Authority.t -> PermissionLevel.t -> bool)
    (authorization : list PermissionLevel.t) : M unit :=
  match authorization with
  | [] => ret tt
  | auth :: rest =>
      account <- getAccount (PermissionLevel.actor auth) ;;
      match account with
      | None => throw (Error "Account is missing for inline action")
      | Some account =>
          match List.find
                  (fun p => Permission.perm_name p
                            =? PermissionLevel.permission auth)
                  (Account.permissions account) with
          | None => throw (Error "Account has no permission")
          | Some accountPermission =>
              ctx <- gets context ;;
              (if Context.isInline ctx then
                 if isAuthoritySatisfied
                      (Permission.required_auth accountPermission)
                      (PermissionLevel.mk (Context.sender ctx)
                                          (Name_from "eosio.code"))
                 then ret tt
                 else throw (Error "Permission is not satisfied")
               else ret tt) ;;;
              checkAuthorization isAuthoritySatisfied rest
          end
      end
  end.

(** [exports_apply] is the guest's [apply] export: any computation on the
    machine state that returns or throws. *)
Definition apply
    (isAuthoritySatisfied : Authority.t -> PermissionLevel.t -> bool)
    (exports_apply : Z -> Z -> Z -> M unit)
    (ctx : Context.t) : M unit :=
  modify (set_context ctx) ;;;
  checkAuthorization isAuthoritySatisfied (Context.authorization ctx) ;;;
  tryFinally
    (exports_apply (Context.receiver ctx) (Context.firstReceiver ctx)
                   (Context.action ctx))
    finalize.

(** ** Secondary indices (vm.ts, lines 847-881 and 1453-1636) *)

(** The two functions of an entry of [SecondaryKeyConverter]; [to] answers
    with the new content of the buffer it writes, or fails with a
    [RangeError]. *)
Record Converter (K : Type) : Type := mkConverter {
  conv_from : bytes -> K;
  conv_to : bytes -> K -> option bytes
}.
Arguments mkConverter {K}.
Arguments conv_from {K}.
Arguments conv_to {K}.

Definition checksum256 : Converter bytes :=
  mkConverter SecondaryKeyConverter.checksum256.from
              SecondaryKeyConverter.checksum256.to.

(** The [index] and [cache] arguments of the generic functions: references
    to a secondary index of the store and to an iterator cache of the
    machine. *)
Record IndexRef (K : Type) : Type := mkIndexRef {
  getIndex : VM -> SecondaryKeyStore.t K;
  setIndex : SecondaryKeyStore.t K -> VM -> VM;
  getCache : VM -> IteratorCache.t (IndexObject.t K);
  setCache : IteratorCache.t (IndexObject.t K) -> VM -> VM
}.
Arguments mkIndexRef {K}.
Arguments getIndex {K}.
Arguments setIndex {K}.
Arguments getCache {K}.
Arguments setCache {K}.

Definition set_idx256 (c : IteratorCache.t (IndexObject.t bytes)) (vm : VM) : VM :=
  mkVM (context vm) (kvCache vm) (idx64 vm) (idx128 vm) c (idxDouble vm)
       (bc vm) (memory vm).

(** [this.bc.store.idx256] and [this.idx256]. *)
Definition idx256Ref : IndexRef bytes :=
  mkIndexRef
    (fun vm => Store.idx256 (Blockchain.store (bc vm)))
    (fun index vm =>
       set_store (Store.with_idx256 index (Blockchain.store (bc vm))) vm)
    idx256
    set_idx256.

(** [Buffer.from_(this.memory.buffer, ptr, len)]: a view of guest memory,
    read and written in place. *)
Record BufferView : Type := mkView { viewPtr : Z; viewLen : Z }.

Definition Buffer_from_ (ptr len : Z) : M BufferView :=
  memoryView ptr len ;;; ret (mkView ptr len).

Definition viewBytes (v : BufferView) : M bytes :=
  memoryView (viewPtr v) (viewLen v).

(** [conv.to(secondary, key)] *)
Definition convTo {K} (conv : Converter K) (secondary : BufferView) (key : K)
    : M unit :=
  buffer <- viewBytes secondary ;;
  buffer' <- orThrow (conv_to conv buffer key) RangeError ;;
  memoryStore (viewPtr secondary) buffer'.

Definition cache_cacheTable {K} (ref : IndexRef K) (tab : Table.t) : M Z :=
  fun vm =>
    let '(ei, c) := IteratorCache.cacheTable (getCache ref vm) (Table.id tab) in
    (Return ei, setCache ref c vm).

Definition cache_add {K} (ref : IndexRef K) (obj : IndexObject.t K) : M Z :=
  fun vm =>
    let '(itr, c) := IteratorCache.add (getCache ref vm) obj in
    (Return itr, setCache ref c vm).

Definition cache_get {K} (ref : IndexRef K) (iterator : Z)
    : M (IndexObject.t K) :=
  obj <- gets (fun vm => IteratorCache.get (getCache ref vm) iterator) ;;
  orThrow obj (Error "invalid iterator").

(** Modelled from the spec: [cache.getTable(tableId)], the "table_of"
    inverse lookup of section 4.2: the table object recorded in the cache
    under that id; a table the cache has not recorded is an error. *)
Definition cache_getTable {K} (ref : IndexRef K) (tableId : Z) : M Table.t :=
  ei <- gets (fun vm =>
          IteratorCache.getEndIteratorByTableId (getCache ref vm) tableId) ;;
  match ei with
  | None => throw (Error "table not in cache")
  | Some _ => getTableById tableId
  end.

Module genericIndex.
Definition store {K} (ref : IndexRef K) (scope table payer id : Z)
    (secondary : BufferView) (conv : Converter K) : M Z :=
  assert (negb (payer =? 0))
         "must specify a valid account to pay for new record" ;;;
  receiver <- gets (fun vm => Context.receiver (context vm)) ;;
  tab <- findOrCreateTable receiver scope table payer ;;
  raw <- viewBytes secondary ;;
  let obj := IndexObject.mk (Table.id tab) id (conv_from conv raw) payer in
  modify (fun vm =>
    setIndex ref (SecondaryKeyStore.set None obj (getIndex ref vm)) vm) ;;;
  cache_cacheTable ref tab ;;;
  cache_add ref obj.

Definition update {K} (ref : IndexRef K) (iterator payer : Z)
    (secondary : BufferView) (conv : Converter K) : M unit :=
  obj <- cache_get ref iterator ;;
  tab <- cache_getTable ref (IndexObject.tableId obj) ;;
  receiver <- gets (fun vm => Context.receiver (context vm)) ;;
  assert (Table.code tab =? receiver) "db access violation" ;;;
  let payer := if payer =? 0 then IndexObject.payer obj else payer in
  raw <- viewBytes secondary ;;
  let newObj := IndexObject.mk (IndexObject.tableId obj)
                  (IndexObject.primaryKey obj) (conv_from conv raw) payer in
  modify (fun vm =>
    setIndex ref (SecondaryKeyStore.set (Some obj) newObj (getIndex ref vm))
             vm) ;;;
  modify (fun vm =>
    setCache ref (IteratorCache.set (getCache ref vm) iterator newObj) vm).

Definition remove {K} (ref : IndexRef K) (iterator : Z) : M unit :=
  obj <- cache_get ref iterator ;;
  tab <- cache_getTable ref (IndexObject.tableId obj) ;;
  receiver <- gets (fun vm => Context.receiver (context vm)) ;;
  assert (Table.code tab =? receiver) "db access violation" ;;;
  modify (fun vm =>
    setIndex ref (SecondaryKeyStore.delete obj (getIndex ref vm)) vm) ;;;
  modify (fun vm =>
    setCache ref (IteratorCache.remove (getCache ref vm) iterator) vm).

Definition find_primary {K} (ref : IndexRef K) (code scope table : Z)
    (secondary : BufferView) (primary : Z) (conv : Converter K) : M Z :=
  tab <- findTable code scope table ;;
  match tab with
  | None => ret (-1)
  | Some tab =>
      ei <- cache_cacheTable ref tab ;;
      index <- gets (getIndex ref) ;;
      match SecondaryKeyStore.get index (Table.id tab) primary with
      | None => ret ei
      | Some obj =>
          convTo conv secondary (IndexObject.secondaryKey obj) ;;;
          cache_add ref obj
      end
  end.
End genericIndex.

Definition db_idx256_store (_scope _table _payer _id data data_len : Z) : M Z :=
  let scope := convertToUnsigned _scope in
  let table := convertToUnsigned _table in
  let payer := convertToUnsigned _payer in
  let id := convertToUnsigned _id in
  secondary <- Buffer_from_ data 32 ;;
  genericIndex.store idx256Ref scope table payer id secondary checksum256.

Definition db_idx256_find_primary
    (_code _scope _table data data_len _primary : Z) : M Z :=
  let code := convertToUnsigned _code in
  let scope := convertToUnsigned _scope in
  let table := convertToUnsigned _table in
  let primaryKey := convertToUnsigned _primary in
  secondary <- Buffer_from_ data 32 ;;
  genericIndex.find_primary idx256Ref code scope table secondary primaryKey
                            checksum256.

Definition db_idx256_update (iterator _payer data data_len : Z) : M unit :=
  let payer := asUintN 64 _payer in
  secondary <- Buffer_from_ data 32 ;;
  genericIndex.update idx256Ref iterator payer secondary checksum256.

Definition db_idx256_remove (iterator : Z) : M unit :=
  genericIndex.remove idx256Ref iterator.

(** ** More of the primary index (vm.ts, lines 603-635) *)

(** Modelled from the spec: [kvCache.getTable(tableId)], the "table_of"
    inverse lookup of section 4.2: the table object recorded in the cache
    under that id; a table the cache has not recorded is an error. *)
Definition kvCache_getTable (tableId : Z) : M Table.t :=
  ei <- gets (fun vm =>
          IteratorCache.getEndIteratorByTableId (kvCache vm) tableId) ;;
  match ei with
  | None => throw (Error "table not in cache")
  | Some _ => getTableById tableId
  end.

Definition db_update_i64 (iterator _payer data len : Z) : M unit :=
  let payer := asUintN 64 _payer in
  kvPrev <- kvCache_get iterator ;;
  tab <- kvCache_getTable (KeyValueObject.tableId kvPrev) ;;
  receiver <- gets (fun vm => Context.receiver (context vm)) ;;
  assert (Table.code tab =? receiver) "db access violation" ;;;
  value <- memoryView data len ;;
  let kv := KeyValueObject.mk
              (KeyValueObject.tableId kvPrev)
              (KeyValueObject.primaryKey kvPrev)
              (if payer =? 0 then KeyValueObject.payer kvPrev else payer)
              value in
  modify (fun vm =>
    set_store (Store.modifyTable (Table.id tab)
                 (Table.set (KeyValueObject.primaryKey kv) kv)
                 (Blockchain.store (bc vm))) vm) ;;;
  modify (fun vm => set_kvCache (IteratorCache.set (kvCache vm) iterator kv) vm).

Definition db_remove_i64 (iterator : Z) : M unit :=
  kv <- kvCache_get iterator ;;
  tab <- kvCache_getTable (KeyValueObject.tableId kv) ;;
  receiver <- gets (fun vm => Context.receiver (context vm)) ;;
  assert (Table.code tab =? receiver) "db access violation" ;;;
  modify (fun vm =>
    set_store (Store.modifyTable (Table.id tab)
                 (Table.delete (KeyValueObject.primaryKey kv))
                 (Blockchain.store (bc vm))) vm) ;;;
  modify (fun vm => set_kvCache (IteratorCache.remove (kvCache vm) iterator) vm).

(** The idiom of [db_get_i64] and [read_action_data]: with [len] zero the
    length of [source] is returned; otherwise the first [min(len, length)]
    bytes of [source] are written under the view of [len] bytes at [ptr]
    and their number is returned. *)
Definition copyOut (source : bytes) (ptr len : Z) : M Z :=
  if len =? 0 then ret (Z.of_nat (length source))
  else
    let size := Z.min len (Z.of_nat (length source)) in
    memoryView ptr len ;;;
    memoryStore ptr (take (Z.to_nat size) source) ;;;
    ret size.

Definition db_get_i64 (iterator data len : Z) : M Z :=
  kv <- kvCache_get iterator ;;
  copyOut (KeyValueObject.value kv) data len.

(** ** Action introspection (vm.ts, lines 117-129, 180-187, 303-306 and
    1147-1150) *)

Definition read_action_data (msg len : Z) : M Z :=
  data <- gets (fun vm => Context.data (context vm)) ;;
  copyOut data msg len.

Definition action_data_size : M Z :=
  gets (fun vm => Z.of_nat (length (Context.data (context vm)))).

(** [BigInt.asIntN(w, v)]. *)
Definition asIntN (w v : Z) : Z :=
  let u := v mod 2 ^ w in
  if u <? 2 ^ (w - 1) then u else u - 2 ^ w.

Definition current_receiver : M Z :=
  gets (fun vm => asIntN 64 (Context.receiver (context vm))).

Definition get_sender : M Z :=
  gets (fun vm => asIntN 64 (Context.sender (context vm))).

Definition is_account (name : Z) : M bool :=
  let accountName := convertToUnsigned name in
  account <- getAccount accountName ;;
  ret (match account with Some _ => true | None => false end).

(** The loop of [require_auth2] (vm.ts, lines 164-179). *)
Fixpoint hasAuth2Loop (authorization : list PermissionLevel.t)
    (name permission : Z) : bool :=
  match authorization with
  | [] => false
  | auth :: rest =>
      if PermissionLevel.actor auth =? name then
        if PermissionLevel.permission auth =? permission then true
        else hasAuth2Loop rest name permission
      else hasAuth2Loop rest name permission
  end.

Definition require_auth2 (_name _permission : Z) : M unit :=
  let name := convertToUnsigned _name in
  let permission := convertToUnsigned _permission in
  authorization <- gets (fun vm => Context.authorization (context vm)) ;;
  assert (hasAuth2Loop authorization name permission)
         "missing required authority".
(** ** Writing through a view *)

(** [destination.set(source)] on a view of guest memory.  The bytes of
    [source] are in hand before the write: a typed array that shares the
    buffer of its target is copied before it is written, so a source that
    is itself a view of guest memory is written as it was read. *)
Definition view_set (destination : BufferView) (source : bytes) : M unit :=
  target <- viewBytes destination ;;
  target' <- orThrow (typed_set target source) RangeError ;;
  memoryStore (viewPtr destination) target'.

(** ** Builtins (vm.ts, lines 1232-1272) *)

Definition abort : M unit := throw (Error "abort").

Definition memmove (dest src count : Z) : M Z :=
  destination <- Buffer_from_ dest count ;;
  source <- Buffer_from_ src count ;;
  sourceBytes <- viewBytes source ;;
  view_set destination sourceBytes ;;;
  ret dest.

(** [Buffer.alloc(size, fill)] with a number as [fill]: [size] bytes, each
    the low eight bits of [fill]. *)
Definition Buffer_alloc (size fill : Z) : bytes :=
  replicate (Z.to_nat size) (Memory.byteOfZ fill).

Definition memset (dest ch count : Z) : M Z :=
  destination <- Buffer_from_ dest count ;;
  let source := Buffer_alloc count ch in
  view_set destination source ;;;
  ret dest.

(** The local function [cpy] of [memcpy], which calls itself once per
    chunk; [fuel] bounds the depth of the recursion, and [None] is the
    answer when the bound is reached. *)
Fixpoint cpy (fuel : nat) (d s c : Z) : M (option unit) :=
  match fuel with
  | O => ret None
  | S fuel' =>
      if c <=? 0 then ret (Some tt)
      else
        let size := Z.min (d - s) c in
        destination <- Buffer_from_ d size ;;
        source <- Buffer_from_ s size ;;
        sourceBytes <- viewBytes source ;;
        view_set destination sourceBytes ;;;
        cpy fuel' (d + size) (s + size) (c - size)
  end.

Definition memcpy (fuel : nat) (dest src count : Z) : M (option Z) :=
  if (dest - src <? count) && (0 <=? dest - src) then
    done <- cpy fuel dest src count ;;
    ret (match done with Some _ => Some dest | None => None end)
  else
    destination <- Buffer_from_ dest count ;;
    source <- Buffer_from_ src count ;;
    sourceBytes <- viewBytes source ;;
    view_set destination sourceBytes ;;;
    ret (Some dest).

(** ** Hashes (vm.ts, lines 320-371)

    The digests of hash.js and js-sha3 are functions of the bytes hashed,
    given as arguments. *)

(** [Buffer.compare(a, b)]: -1, 0 or 1 as [a] comes before, is equal to or
    comes after [b], byte by byte and then by length. *)
Fixpoint Buffer_compare (a b : bytes) : Z :=
  match a, b with
  | [], [] => 0
  | [], _ :: _ => -1
  | _ :: _, [] => 1
  | x :: a', y :: b' =>
      match N.compare (Byte.to_N x) (Byte.to_N y) with
      | Lt => -1
      | Gt => 1
      | Eq => Buffer_compare a' b'
      end
  end.

(** The shape shared by [assert_sha256], [assert_sha1], [assert_sha512] and
    [assert_ripemd160], which differ in the digest and in its size. *)
Definition assert_digest (digest : bytes -> bytes) (size : Z)
    (data len hash : Z) : M unit :=
  input <- Buffer_from_ data len ;;
  inputBytes <- viewBytes input ;;
  let result := digest inputBytes in
  expected <- Buffer_from_ hash size ;;
  expectedBytes <- viewBytes expected ;;
  if Buffer_compare result expectedBytes =? 0 then ret tt
  else throw (Error "hash mismatch").

(** The shape shared by [sha256], [sha1], [sha512] and [ripemd160]; the
    view of the result is taken before the view of the data. *)
Definition write_digest (digest : bytes -> bytes) (size : Z)
    (data len hash : Z) : M unit :=
  target <- Buffer_from_ hash size ;;
  input <- Buffer_from_ data len ;;
  inputBytes <- viewBytes input ;;
  view_set target (digest inputBytes).

Section Hashes.
Variables sha256_digest sha1_digest sha512_digest ripemd160_digest
  sha3_256_digest keccak256_digest : bytes -> bytes.

Definition assert_sha256 := assert_digest sha256_digest 32.
Definition assert_sha1 := assert_digest sha1_digest 20.
Definition assert_sha512 := assert_digest sha512_digest 64.
Definition assert_ripemd160 := assert_digest ripemd160_digest 20.
Definition sha256 := write_digest sha256_digest 32.
Definition sha1 := write_digest sha1_digest 20.
Definition sha512 := write_digest sha512_digest 64.
Definition ripemd160 := write_digest ripemd160_digest 20.

Definition sha3 (data datalen hash hashlen keccak : Z) : M unit :=
  let digestFunc := if keccak =? 0 then sha3_256_digest else keccak256_digest in
  inputBuffer <- Buffer_from_ data datalen ;;
  target <- Buffer_from_ hash hashlen ;;
  inputBytes <- viewBytes inputBuffer ;;
  view_set target (digestFunc inputBytes).
End Hashes.

(** ** 128-bit unsigned arithmetic (vm.ts, lines 39-49, 1308-1324 and
    1359-1375) *)

(** The unsigned integer that a sequence of bytes is in little-endian
    order. *)
Fixpoint littleEndian (b : bytes) : Z :=
  match b with
  | [] => 0
  | x :: rest => Z.of_N (Byte.to_N x) + 256 * littleEndian rest
  end.

(** [buffer.readBigUInt64LE(offset)]; a range outside the buffer is a
    [RangeError]. *)
Definition readBigUInt64LE (buffer : bytes) (offset : nat) : option Z :=
  if decide (offset + 8 <= length buffer)%nat
  then Some (littleEndian (take 8 (drop offset buffer)))
  else None.

(** [buffer.writeBigUInt64LE(value, offset)]; a value outside
    [0 .. 2^64 - 1] or a range outside the buffer is a [RangeError]. *)
Definition writeBigUInt64LE (buffer : bytes) (value : Z) (offset : nat)
    : option bytes :=
  if (0 <=? value) && (value <? 2 ^ 64) then
    if decide (offset + 8 <= length buffer)%nat
    then Some (take offset buffer ++ Memory.uint64LE value
               ++ drop (offset + 8) buffer)
    else None
  else None.

(** [buffer.writeBigUInt64LE(value, offset)] on a view of guest memory,
    which is written in place. *)
Definition view_writeBigUInt64LE (buffer : BufferView) (value : Z)
    (offset : nat) : M unit :=
  content <- viewBytes buffer ;;
  content' <- orThrow (writeBigUInt64LE content value offset) RangeError ;;
  memoryStore (viewPtr buffer) content'.

Module uint128.
(** [SecondaryKeyConverter.uint128] *)
Definition from (buffer : bytes) : option Z :=
  low ← readBigUInt64LE buffer 0;
  high ← readBigUInt64LE buffer 8;
  Some (Z.lor (Z.shiftl high 64) low).

Definition to (buffer : BufferView) (value : Z) : M unit :=
  view_writeBigUInt64LE buffer (Z.land value (asUintN 64 (-1))) 0 ;;;
  view_writeBigUInt64LE buffer (Z.shiftr value 64) 8.
End uint128.

(** The two 128-bit operands made of their 64-bit halves, as the helpers
    of compiler-rt build them. *)
Definition operand128 (low high : Z) : Z :=
  let v := asUintN 128 (Z.shiftl high 64) in
  asUintN 128 (Z.lor v low).

(** [a / b] and [a % b] on BigInt: the quotient rounded towards zero and
    the remainder with the sign of [a]; a zero divisor is a [RangeError]. *)
Definition bigint_div (a b : Z) : M Z :=
  if b =? 0 then throw RangeError else ret (Z.quot a b).

Definition bigint_rem (a b : Z) : M Z :=
  if b =? 0 then throw RangeError else ret (Z.rem a b).

Definition __udivti3 (ret_ _la _ha _lb _hb : Z) : M unit :=
  let la := convertToUnsigned _la in
  let ha := convertToUnsigned _ha in
  let lb := convertToUnsigned _lb in
  let hb := convertToUnsigned _hb in
  let lhs := operand128 la ha in
  let rhs := operand128 lb hb in
  q <- bigint_div lhs rhs ;;
  let lhs := asUintN 128 q in
  retBuffer <- Buffer_from_ ret_ 16 ;;
  uint128.to retBuffer lhs.

Definition __umodti3 (ret_ _la _ha _lb _hb : Z) : M unit :=
  let la := convertToUnsigned _la in
  let ha := convertToUnsigned _ha in
  let lb := convertToUnsigned _lb in
  let hb := convertToUnsigned _hb in
  let lhs := operand128 la ha in
  let rhs := operand128 lb hb in
  r <- bigint_rem lhs rhs ;;
  let lhs := asUintN 128 r in
  retBuffer <- Buffer_from_ ret_ 16 ;;
  uint128.to retBuffer lhs.
(** ** Key recovery (vm.ts, lines 521-534 and 552-579)

    The signature and key classes of [@greymass/eosio] and the curve
    helper of [../utils/curve] are functions given as arguments; each may
    throw. *)


(** The number a byte of a typed array reads as. *)
Definition byteToZ (b : byte) : Z := Z.of_N (Byte.to_N b).

(** [array.slice(0, stop)]: a negative [stop] counts from the end. *)
Definition slice_to (b : bytes) (stop : Z) : bytes :=
  let len := Z.of_nat (length b) in
  let final := if stop <? 0 then Z.max (len + stop) 0 else Z.min stop len in
  take (Z.to_nat final) b.

(** [target.set(source, offset)]: overwrites [length source] bytes of
    [target] from [offset] on; a source that does not fit raises a
    [RangeError]. *)
Definition typed_set_at (target source : bytes) (offset : nat) : option bytes :=
  if decide (offset + length source <= length target)%nat
  then Some (take offset target ++ source
             ++ drop (offset + length source) target)
  else None.

Definition view_set_at (destination : BufferView) (source : bytes)
    (offset : nat) : M unit :=
  target <- viewBytes destination ;;
  target' <- orThrow (typed_set_at target source offset) RangeError ;;
  memoryStore (viewPtr destination) target'.

(** [(x - 27) & 0x3] on a byte that may be missing: [undefined - 27] is
    [NaN], which [&] reads as 0. *)
Definition recidOf (x : option byte) : Z :=
  match x with
  | Some b => Z.land (byteToZ b - 27) 3
  | None => 0
  end.

Section KeyRecovery.
Variable Signature : Type.
Variable Signature_from : Z -> bytes -> bytes -> Outcome Signature.
Variable recoverDigest : Signature -> bytes -> Outcome bytes.
Variable recoverUncompressedDigest : Signature -> bytes -> Outcome bytes.

Definition recover_key (digest sig siglen pub publen : Z) : M Z :=
  signature <- Buffer_from_ sig siglen ;;
  signatureBytes <- viewBytes signature ;;
  assert (match signatureBytes !! 0%nat with
          | Some b => byteToZ b =? 0
          | None => false
          end) "unsupported signature type" ;;;
  parsed <- liftOutcome
              (Signature_from (recidOf (signatureBytes !! 1%nat))
                              (slice signatureBytes 2 34)
                              (slice signatureBytes 34 66)) ;;
  digestBuffer <- Buffer_from_ digest 32 ;;
  digestBytes <- viewBytes digestBuffer ;;
  publicKey <- liftOutcome (recoverDigest parsed digestBytes) ;;
  let size := Z.min (Z.of_nat (length publicKey) + 1) publen in
  target <- Buffer_from_ pub publen ;;
  view_set_at target (slice_to publicKey (size - 1)) 1 ;;;
  ret size.

End KeyRecovery.
(** ** The idx64 index (vm.ts, lines 35-38 and 715-747) *)

Module uint64.
(** [SecondaryKeyConverter.uint64] *)
Definition from (buffer : bytes) : option Z := readBigUInt64LE buffer 0.

Definition to (buffer : bytes) (value : Z) : option bytes :=
  writeBigUInt64LE buffer value 0.
End uint64.

(** The converter as the generic functions use it: on the views of eight
    bytes that the idx64 intrinsics pass, on which the read cannot fail. *)
Definition uint64 : Converter Z :=
  mkConverter (fun buffer => default 0 (uint64.from buffer)) uint64.to.

(** Modelled from the spec: a mutation of the idx64 index. *)
Definition with_idx64 (index : SecondaryKeyStore.t Z) (st : Store.t)
    : Store.t :=
  Store.mk (Store.tables st) (Store.nextTableId st) index (Store.idx128 st)
           (Store.idx256 st) (Store.idxDouble st).

Definition set_idx64 (c : IteratorCache.t (IndexObject.t Z)) (vm : VM) : VM :=
  mkVM (context vm) (kvCache vm) c (idx128 vm) (idx256 vm) (idxDouble vm)
       (bc vm) (memory vm).

(** [this.bc.store.idx64] and [this.idx64]. *)
Definition idx64Ref : IndexRef Z :=
  mkIndexRef
    (fun vm => Store.idx64 (Blockchain.store (bc vm)))
    (fun index vm =>
       set_store (with_idx64 index (Blockchain.store (bc vm))) vm)
    idx64
    set_idx64.

Definition db_idx64_store (_scope _table _payer _id secondary : Z) : M Z :=
  let scope := convertToUnsigned _scope in
  let table := convertToUnsigned _table in
  let payer := convertToUnsigned _payer in
  let id := convertToUnsigned _id in
  buffer <- Buffer_from_ secondary 8 ;;
  genericIndex.store idx64Ref scope table payer id buffer uint64.

Definition db_idx64_update (iterator _payer secondary : Z) : M unit :=
  let payer := asUintN 64 _payer in
  buffer <- Buffer_from_ secondary 8 ;;
  genericIndex.update idx64Ref iterator payer buffer uint64.

Definition db_idx64_remove (iterator : Z) : M unit :=
  genericIndex.remove idx64Ref iterator.

Definition db_idx64_find_primary
    (_code _scope _table secondary _primary : Z) : M Z :=
  let code := convertToUnsigned _code in
  let scope := convertToUnsigned _scope in
  let table := convertToUnsigned _table in
  let primaryKey := convertToUnsigned _primary in
  buffer <- Buffer_from_ secondary 8 ;;
  genericIndex.find_primary idx64Ref code scope table buffer primaryKey uint64.

(** ** Notions used to state the properties *)

(** The conversion in the words of the design text: the two 16-byte halves
    change places and each of them is reversed. *)
Definition swap_halves_reversing_each (raw : bytes) : bytes :=
  reverse (slice raw 16 32) ++ reverse (slice raw 0 16).

Definition raw_0_to_31 : bytes :=
  [x00; x01; x02; x03; x04; x05; x06; x07; x08; x09; x0a; x0b; x0c; x0d; x0e; x0f;
   x10; x11; x12; x13; x14; x15; x16; x17; x18; x19; x1a; x1b; x1c; x1d; x1e; x1f].

(** The condition of [require_auth] and [has_auth]: some entry of the
    authorization list names the actor with permission active or owner. *)
Definition authorized (authorization : list PermissionLevel.t) (name : Z) : Prop :=
  exists auth,
    auth ∈ authorization
    /\ PermissionLevel.actor auth = name
    /\ (PermissionLevel.permission auth = active
        \/ PermissionLevel.permission auth = owner).

(** The verdict of the pairing check on an input. *)
Inductive PairingCheck : Type :=
| Malformed
| ProductIsIdentity
| ProductIsNotIdentity.

(** Modelled from the spec: [rustbn.js] is outside [src/]; "EIP-196/197
    semantics".  The pairing precompile answers with 32 bytes, the last one
    being 1 when the product of the pairings is the identity and all of
    them zero when it is not; an input it cannot parse yields an empty
    buffer. *)
Definition eip197_pairing (check : bytes -> PairingCheck) (input : bytes)
    : Outcome bytes :=
  match check input with
  | Malformed => Return []
  | ProductIsIdentity => Return (replicate 31 x00 ++ [x01])
  | ProductIsNotIdentity => Return (replicate 32 x00)
  end.

(** The return value the design text gives for each verdict. *)
Definition pair_result_as_documented (c : PairingCheck) : Z :=
  match c with
  | Malformed => -1
  | ProductIsIdentity => 1
  | ProductIsNotIdentity => 0
  end.

(** The return value by the result byte: the zero last byte that the
    EIP-197 encoding gives a product different from the identity yields 1. *)
Definition pair_result_by_last_byte (c : PairingCheck) : Z :=
  match c with
  | Malformed => -1
  | ProductIsIdentity => 0
  | ProductIsNotIdentity => 1
  end.

(** A pairing check on the empty list of pairs: the empty product is the
    identity. *)
Definition check_empty_product (input : bytes) : PairingCheck :=
  match input with
  | [] => ProductIsIdentity
  | _ => Malformed
  end.

(** The context of a top-level action of [receiver], first in its
    transaction, with an empty payload and no authorization. *)
Definition blankContext (receiver : Z) : Context.t :=
  Context.mk 0 (Some 0) (Some 0) receiver receiver (Name_from "act")
             [] None [] [] [] None.

(** A machine with no accounts, no tables and [size] bytes of zeroed
    memory, running the context [ctx]. *)
Definition blankVM (ctx : Context.t) (size : nat) : VM :=
  mkVM ctx IteratorCache.empty IteratorCache.empty IteratorCache.empty
       IteratorCache.empty IteratorCache.empty
       (Blockchain.mk ∅ [] Store.empty)
       (replicate size x00).

(** The range check that the serializer of [@greymass/eosio] makes on a
    [varuint32] field, the type of [struct_version] in the [CodeHashResult]
    of [../utils/codeHash]: a number below 0 underflows, a number above
    [2^32 - 1] overflows, and the serializer throws. *)
Definition varuint32 (v : Z) : Outcome Z :=
  if v <? 0 then Throw (Error "Number underflows varuint32")
  else if 2 ^ 32 <=? v then Throw (Error "Number overflows varuint32")
  else Return v.

(** An encoder rejects what a [varuint32] cannot hold when it throws on
    every object whose [struct_version] is negative. *)
Definition rejectsNegativeVersion
    (encode : CodeHashResult.t -> Outcome bytes) : Prop :=
  forall r, CodeHashResult.struct_version r < 0 -> exists e, encode r = Throw e.

(** A serializer and a digest standing in for the external ones when a
    host function is run on an example: the version, checked as a
    [varuint32] and written as one byte, followed by the hash; and a
    constant 32-byte digest. *)
Definition sampleEncode (r : CodeHashResult.t) : Outcome bytes :=
  match varuint32 (CodeHashResult.struct_version r) with
  | Return v => Return (Memory.byteOfZ v :: CodeHashResult.code_hash r)
  | Throw e => Throw e
  end.

Definition sampleHash (_ : bytes) : bytes := replicate 32 xff.

(** A chain for the examples: [alice] and [bob] carry contracts ([bob]
    declares the action [foo]), [carol] is an account without code; the
    action traces hold the action of [alice] that is running. *)
Definition alice : Z := Name_from "alice".
Definition bob : Z := Name_from "bob".
Definition carol : Z := Name_from "carol".
Definition foo : Z := Name_from "foo".

Definition contractAccount (actions : gset Z) : Account.t :=
  Account.mk true (Some [x00; x61; x73; x6d]) 1 actions "" [].

Definition plainAccount : Account.t := Account.mk false None 0 ∅ "" [].

Definition sampleChain : Blockchain.t :=
  Blockchain.mk
    (<[alice := contractAccount ∅]>
       (<[bob := contractAccount {[foo]}]> (<[carol := plainAccount]> ∅)))
    [blankContext alice]
    Store.empty.

(** [alice] runs an action; 64 bytes of zeroed guest memory. *)
Definition sampleVM : VM :=
  mkVM (blankContext alice)
       IteratorCache.empty IteratorCache.empty IteratorCache.empty
       IteratorCache.empty IteratorCache.empty
       sampleChain (replicate 64 x00).

(** Stand-ins for the action codec on the examples: every buffer decodes
    to the inline action [bob::foo] with an empty payload. *)
Definition sampleAction : Action.t := Action.mk bob foo [] [].

Definition sampleDecode (_ : bytes) : Outcome Action.t := Return sampleAction.

Definition sampleDecodeData (_ : Action.t) (_ : string) : Outcome DecodedData :=
  Return EmptyString.

(** A scope and a table name (both below 2^63, so that they are their
    own signed 64-bit reading). *)
Definition scopeName : Z := Name_from "global".
Definition tableName : Z := Name_from "accounts".

(** [key] is the greatest (respectively least) primary key of the table. *)
Definition lastKey (tab : Table.t) (key : Z) : Prop :=
  (exists r, r ∈ Table.rows tab /\ KeyValueObject.primaryKey r = key)
  /\ forall r, r ∈ Table.rows tab -> KeyValueObject.primaryKey r <= key.

Definition firstKey (tab : Table.t) (key : Z) : Prop :=
  (exists r, r ∈ Table.rows tab /\ KeyValueObject.primaryKey r = key)
  /\ forall r, r ∈ Table.rows tab -> key <= KeyValueObject.primaryKey r.

(** [sampleVM] after its action stored the primary keys 1, 3 and 5 in the
    table (alice, global, accounts). *)
Definition storedVM : VM :=
  snd ((db_store_i64 scopeName tableName alice 1 0 4 ;;;
        db_store_i64 scopeName tableName alice 3 0 4 ;;;
        db_store_i64 scopeName tableName alice 5 0 4) sampleVM).

(** The rows and the table of [storedVM]. *)
Definition storedRow (key : Z) : KeyValueObject.t :=
  KeyValueObject.mk 0 key alice [x00; x00; x00; x00].

Definition storedTable : Table.t :=
  Table.mk 0 alice scopeName tableName alice
           [storedRow 5; storedRow 3; storedRow 1].

(** All five per-action iterator caches are fresh: no handle and no end
    iterator issued earlier is known any more. *)
Definition cachesDestroyed (vm : VM) : Prop :=
  kvCache vm = IteratorCache.empty
  /\ idx64 vm = IteratorCache.empty
  /\ idx128 vm = IteratorCache.empty
  /\ idx256 vm = IteratorCache.empty
  /\ idxDouble vm = IteratorCache.empty.

Definition noIteratorValid {T} (c : IteratorCache.t T) : Prop :=
  (forall h, IteratorCache.get c h = None)
  /\ (forall e, IteratorCache.findTableByEndIterator c e = None)
  /\ (forall tableId, IteratorCache.getEndIteratorByTableId c tableId = None).

(** A guest that stores a row and then leaves through [eosio_exit]. *)
Definition guestStoreThenExit (_ _ _ : Z) : M unit :=
  db_store_i64 scopeName tableName alice 7 0 4 ;;; eosio_exit 0.

Definition allowAll (_ : Authority.t) (_ : PermissionLevel.t) : bool := true.

(** ** Well-formed stores *)

(** The triple that identifies a table. *)
Definition tableTriple (tab : Table.t) : Z * Z * Z :=
  (Table.code tab, Table.scope tab, Table.table tab).

(** The rows of a table have pairwise different primary keys and carry the
    id of the table. *)
Definition tableWellFormed (tab : Table.t) : Prop :=
  NoDup (List.map KeyValueObject.primaryKey (Table.rows tab))
  /\ forall r, r ∈ Table.rows tab -> KeyValueObject.tableId r = Table.id tab.

(** Table ids are unique and below the next id to give out, there is one
    table per (code, scope, table), and every table is well formed. *)
Definition storeWellFormed (st : Store.t) : Prop :=
  NoDup (List.map Table.id (Store.tables st))
  /\ (forall tab, tab ∈ Store.tables st -> Table.id tab < Store.nextTableId st)
  /\ NoDup (List.map tableTriple (Store.tables st))
  /\ forall tab, tab ∈ Store.tables st -> tableWellFormed tab.

(** [alice] runs an action with a five-byte payload, authorized by
    [alice@active] and [bob@owner]; 64 bytes of zeroed guest memory. *)
Definition payloadContext : Context.t :=
  Context.mk 0 (Some 0) (Some 0) alice alice (Name_from "act")
             [x01; x02; x03; x04; x05] None
             [PermissionLevel.mk alice active; PermissionLevel.mk bob owner]
             [] [] None.

Definition payloadVM : VM := set_context payloadContext sampleVM.

(** [sampleVM] with the bytes 00..1f at the start of its 64 bytes of guest
    memory. *)
Definition filledVM : VM :=
  set_memory (raw_0_to_31 ++ replicate 32 x00) sampleVM.

(** What the lookups of the primary index may change: the chain and the
    context stay as they are, every handle that resolves keeps resolving to
    the same row, and every table keeps its end iterator. *)
Definition onlyExtendsCache (vm vm' : VM) : Prop :=
  bc vm' = bc vm
  /\ context vm' = context vm
  /\ (forall h o, IteratorCache.get (kvCache vm) h = Some o ->
                  IteratorCache.get (kvCache vm') h = Some o)
  /\ (forall tableId e,
        IteratorCache.getEndIteratorByTableId (kvCache vm) tableId = Some e ->
        IteratorCache.getEndIteratorByTableId (kvCache vm') tableId = Some e).

(** The row that the lookups of the primary index see under a key of the
    table (code, scope, table). *)
Definition rowAt (vm : VM) (code scope table key : Z)
    : option KeyValueObject.t :=
  match Store.findTable (Blockchain.store (bc vm)) code scope table with
  | Some tab => Table.get tab key
  | None => None
  end.

(** The condition of [require_auth2]: some entry of the authorization list
    names the actor with that permission. *)
Definition authorizedAs (authorization : list PermissionLevel.t)
    (name permission : Z) : Prop :=
  exists auth,
    auth ∈ authorization
    /\ PermissionLevel.actor auth = name
    /\ PermissionLevel.permission auth = permission.

(** A name is an unsigned 64-bit integer. *)
Definition isName (v : Z) : Prop := 0 <= v < 2 ^ 64.

(** What the authorization loop of [apply] asks of one entry: the actor has
    an account, the account has a permission of that name, and, for an
    inline action, the authority of the first such permission is satisfied
    by the sender's [eosio.code] permission. *)
Definition entryPasses
    (isAuthoritySatisfied : Authority.t -> PermissionLevel.t -> bool)
    (vm : VM) (auth : PermissionLevel.t) : Prop :=
  exists account accountPermission,
    Blockchain.getAccount (bc vm) (PermissionLevel.actor auth) = Some account
    /\ List.find (fun p => Permission.perm_name p
                           =? PermissionLevel.permission auth)
                 (Account.permissions account) = Some accountPermission
    /\ (Context.isInline (context vm) = true ->
        isAuthoritySatisfied
          (Permission.required_auth accountPermission)
          (PermissionLevel.mk (Context.sender (context vm))
                              (Name_from "eosio.code")) = true).

(** * Properties *)

(** ** Running host functions *)

Ltac run :=
  unfold bind, gets, modify, ret, throw, assert, orThrow, liftOutcome,
    tryFinally; simpl.

Lemma bind_Return {A B} (m : M A) (k : A -> M B) vm a vm' :
  m vm = (Return a, vm') -> bind m k vm = k a vm'.
Proof. intros H. unfold bind. rewrite H. reflexivity. Qed.

Lemma bind_Throw {A B} (m : M A) (k : A -> M B) vm e vm' :
  m vm = (Throw e, vm') -> bind m k vm = (Throw e, vm').
Proof. intros H. unfold bind. rewrite H. reflexivity. Qed.

Lemma bind_ret {A B} (a : A) (k : A -> M B) : bind (ret a) k = k a.
Proof. reflexivity. Qed.

Lemma bind_assoc {A B C} (m : M A) (f : A -> M B) (g : B -> M C) (vm : VM) :
  bind (bind m f) g vm = bind m (fun x => bind (f x) g) vm.
Proof. unfold bind. destruct (m vm) as [[a|e] vm']; reflexivity. Qed.

(** A thrown exception keeps the state reached so far. *)
Lemma throw_keeps_state {A B} (m : M A) (k : A -> M B) (e : Exception) (vm : VM) :
  fst (m vm) = Throw e -> bind m k vm = (Throw e, snd (m vm)).
Proof.
  unfold bind. destruct (m vm) as [[a|e'] vm']; simpl; [discriminate|].
  intros [= ->]. reflexivity.
Qed.

(** ** Linear memory *)

Lemma inBounds_spec (m : Memory.t) (ptr len : Z) :
  Memory.inBounds m ptr len = true
  <-> 0 <= ptr /\ 0 <= len /\ ptr + len <= Z.of_nat (length m).
Proof.
  unfold Memory.inBounds. rewrite !andb_true_iff, !Z.leb_le. tauto.
Qed.

Lemma store_length (m m' : Memory.t) ptr source :
  Memory.store m ptr source = Some m' -> length m' = length m.
Proof.
  unfold Memory.store. destruct (Memory.inBounds m ptr _) eqn:Hb; [|discriminate].
  intros [= <-]. apply inBounds_spec in Hb.
  rewrite !length_app, length_take, length_drop. lia.
Qed.

Lemma view_store (m m' : Memory.t) ptr source :
  Memory.store m ptr source = Some m' ->
  Memory.view m' ptr (Z.of_nat (length source)) = Some source.
Proof.
  intros Hst. pose proof (store_length _ _ _ _ Hst) as Hlen.
  unfold Memory.store in Hst. unfold Memory.view.
  destruct (Memory.inBounds m ptr _) eqn:Hb; [|discriminate].
  injection Hst as <-.
  assert (Hb' : Memory.inBounds
                  (take (Z.to_nat ptr) m ++ source
                   ++ drop (Z.to_nat ptr + length source) m)
                  ptr (Z.of_nat (length source)) = true).
  { apply inBounds_spec. apply inBounds_spec in Hb. rewrite Hlen. exact Hb. }
  rewrite Hb'. f_equal. apply inBounds_spec in Hb.
  rewrite Nat2Z.id.
  assert (Ht : length (take (Z.to_nat ptr) m) = Z.to_nat ptr).
  { rewrite length_take. lia. }
  rewrite drop_app_length' by (symmetry; exact Ht).
  rewrite take_app_length. reflexivity.
Qed.

Lemma store_in_bounds (m : Memory.t) ptr source :
  Memory.inBounds m ptr (Z.of_nat (length source)) = true ->
  exists m', Memory.store m ptr source = Some m'.
Proof. intros Hb. unfold Memory.store. rewrite Hb. eauto. Qed.

Lemma view_length (m : Memory.t) (ptr len : Z) (b : bytes) :
  Memory.view m ptr len = Some b -> length b = Z.to_nat len.
Proof.
  unfold Memory.view. destruct (Memory.inBounds m ptr len) eqn:Hb; [|discriminate].
  intros [= <-]. apply inBounds_spec in Hb.
  rewrite length_take, length_drop. lia.
Qed.

Lemma view_in_bounds (m : Memory.t) (ptr len : Z) (b : bytes) :
  Memory.view m ptr len = Some b -> Memory.inBounds m ptr len = true.
Proof.
  unfold Memory.view. destruct (Memory.inBounds m ptr len); [reflexivity|discriminate].
Qed.

Lemma in_bounds_view (m : Memory.t) (ptr len : Z) :
  Memory.inBounds m ptr len = true -> exists b, Memory.view m ptr len = Some b.
Proof. intros Hb. unfold Memory.view. rewrite Hb. eauto. Qed.

(** ** Authorization *)

Lemma hasAuthLoop_authorized (authorization : list PermissionLevel.t) (name : Z) :
  hasAuthLoop authorization name = true <-> authorized authorization name.
Proof.
  unfold authorized. induction authorization as [|auth rest IH]; simpl.
  - split; [discriminate|]. intros (a & Hin & _). inversion Hin.
  - destruct (PermissionLevel.actor auth =? name) eqn:Hactor.
    + destruct ((PermissionLevel.permission auth =? active)
                || (PermissionLevel.permission auth =? owner)) eqn:Hperm.
      * split; [intros _|reflexivity].
        exists auth. split; [left|]. split; [lia|].
        apply orb_true_iff in Hperm. lia.
      * rewrite IH. apply orb_false_iff in Hperm.
        split; intros (a & Hin & Ha & Hp).
        -- exists a. split; [right; assumption|]. tauto.
        -- apply elem_of_cons in Hin as [->|Hin]; [lia|]. eauto.
    + rewrite IH. split; intros (a & Hin & Ha & Hp).
      * exists a. split; [right; assumption|]. tauto.
      * apply elem_of_cons in Hin as [->|Hin]; [lia|]. eauto.
Qed.

(** C7: [require_auth] returns exactly when some entry of the current
    context's authorization list has the actor (the argument read as an
    unsigned 64-bit name) with permission active or owner, and throws
    otherwise; [has_auth] always returns, leaves the machine as it is, and
    its boolean is true exactly under that condition. *)
Theorem require_auth_and_has_auth (vm : VM) (_name : Z) :
  let name := convertToUnsigned _name in
  let authorization := Context.authorization (context vm) in
  (require_auth _name vm = (Return tt, vm) <-> authorized authorization name)
  /\ (~ authorized authorization name ->
      require_auth _name vm = (Throw (Error "missing required authority"), vm))
  /\ (exists b, has_auth _name vm = (Return b, vm)
                /\ (b = true <-> authorized authorization name)).
Proof.
  intros name authorization.
  pose proof (hasAuthLoop_authorized authorization name) as Hspec.
  unfold require_auth, has_auth. run. fold name authorization.
  destruct (hasAuthLoop authorization name) eqn:Hloop; simpl.
  - split; [tauto|]. split; [tauto|]. exists true. tauto.
  - split.
    + split; [discriminate|]. intros Ha. apply Hspec in Ha. discriminate.
    + split; [reflexivity|]. exists false. tauto.
Qed.

(** The authorization list [{acct, active}] satisfies [require_auth acct];
    the list [{acct, custom}] does not. *)
Example require_auth_active :
  let acct := Name_from "acct" in
  let ctx := Context.mk 0 (Some 0) (Some 0) acct acct (Name_from "act") [] None
               [PermissionLevel.mk acct (Name_from "active")] [] [] None in
  fst (require_auth acct (blankVM ctx 0)) = Return tt.
Proof. vm_compute. reflexivity. Qed.

Example require_auth_custom :
  let acct := Name_from "acct" in
  let ctx := Context.mk 0 (Some 0) (Some 0) acct acct (Name_from "act") [] None
               [PermissionLevel.mk acct (Name_from "custom")] [] [] None in
  fst (require_auth acct (blankVM ctx 0))
  = Throw (Error "missing required authority").
Proof. vm_compute. reflexivity. Qed.

Lemma require_auth_and_has_auth_witness :
  let acct := Name_from "acct" in
  let ctx := Context.mk 0 (Some 0) (Some 0) acct acct (Name_from "act") [] None
               [PermissionLevel.mk acct (Name_from "custom")] [] [] None in
  require_auth acct (blankVM ctx 0)
  = (Throw (Error "missing required authority"), blankVM ctx 0).
Proof.
  intros acct ctx.
  apply (proj1 (proj2 (require_auth_and_has_auth (blankVM ctx 0) acct))).
  intros (auth & Hin & Hactor & Hperm).
  apply list_elem_of_In in Hin. simpl in Hin. destruct Hin as [<-|[]].
  vm_compute in Hperm. destruct Hperm; discriminate.
Defined.

(** ** alt_bn128_pair *)

Section Pairing.
Variable pairing : bytes -> Outcome bytes.

(** What the host function returns for each answer of the primitive. *)
Lemma alt_bn128_pair_by_result (vm : VM) (_pairs _pairslen : Z) (pairsRaw : bytes) :
  Memory.view (memory vm) _pairs _pairslen = Some pairsRaw ->
  exists r,
    alt_bn128_pair pairing _pairs _pairslen vm = (Return r, vm)
    /\ (r = 1 \/ r = 0 \/ r = -1)
    /\ (r = 1 <-> exists result, pairing pairsRaw = Return result
                                /\ length result = 32%nat
                                /\ result !! 31%nat = Some x00)
    /\ (r = -1 <-> forall result, pairing pairsRaw = Return result ->
                                 length result <> 32%nat).
Proof.
  intros Hview. unfold alt_bn128_pair, memoryView. run. rewrite Hview. simpl.
  destruct (pairing pairsRaw) as [result|e] eqn:Hp.
  - destruct (Nat.eqb (length result) 32) eqn:Hlen; simpl.
    + apply Nat.eqb_eq in Hlen.
      destruct (result !! 31%nat) as [b|] eqn:H31.
      * destruct b; (eexists; split; [reflexivity|]);
          (split; [tauto|]);
          (split; [split; [first [discriminate | intros _; exists result; tauto]
                          | first [reflexivity
                                  | intros (r' & [= <-] & _ & Hb); congruence]]
                  | split; [discriminate | intros H; exfalso; eapply H; eauto]]).
      * apply lookup_ge_None in H31. lia.
    + apply Nat.eqb_neq in Hlen. eexists. split; [reflexivity|].
      split; [tauto|]. split.
      * split; [discriminate|]. intros (r' & [= <-] & Hl & _). contradiction.
      * split; [|reflexivity]. intros _ r' [= <-]. assumption.
  - eexists. split; [reflexivity|]. split; [tauto|]. split.
    + split; [discriminate|]. intros (r' & Hr & _). discriminate.
    + split; [|reflexivity]. intros _ r' Hr. discriminate.
Qed.
End Pairing.

(** C1 (as written) fails: on the empty list of pairs, whose pairing
    product is the identity, the EIP-197 primitive answers 00..01 and the host
    function returns 0, not the documented 1. *)
Lemma alt_bn128_pair_identity_gives_0 :
  check_empty_product [] = ProductIsIdentity
  /\ Memory.view (memory (blankVM (blankContext 0) 0)) 0 0 = Some []
  /\ fst (alt_bn128_pair (eip197_pairing check_empty_product) 0 0
            (blankVM (blankContext 0) 0))
     <> Return (pair_result_as_documented (check_empty_product [])).
Proof. vm_compute. repeat split; discriminate. Qed.

(** C1 (amended): [alt_bn128_pair] returns -1 when the primitive throws
    or answers with other than 32 bytes, 1 when the last of the 32 bytes
    is zero and 0 when it is not; with the EIP-197 primitive that is -1 on
    malformed input, 0 when the pairing product is the identity and 1 when
    it is not.  The machine state is left as it is. *)
Theorem alt_bn128_pair_by_last_byte
    (pairing : bytes -> Outcome bytes) (check : bytes -> PairingCheck)
    (vm : VM) (_pairs _pairslen : Z) (pairsRaw : bytes) :
  Memory.view (memory vm) _pairs _pairslen = Some pairsRaw ->
  (exists r,
      alt_bn128_pair pairing _pairs _pairslen vm = (Return r, vm)
      /\ (r = 1 <-> exists result, pairing pairsRaw = Return result
                                  /\ length result = 32%nat
                                  /\ result !! 31%nat = Some x00)
      /\ (r = -1 <-> forall result, pairing pairsRaw = Return result ->
                                   length result <> 32%nat)
      /\ (r = 1 \/ r = 0 \/ r = -1))
  /\ alt_bn128_pair (eip197_pairing check) _pairs _pairslen vm
     = (Return (pair_result_by_last_byte (check pairsRaw)), vm).
Proof.
  intros Hview. split.
  - destruct (alt_bn128_pair_by_result pairing vm _ _ _ Hview)
      as (r & Hrun & Hcases & H1 & Hm1).
    exists r. tauto.
  - unfold alt_bn128_pair, memoryView. run. rewrite Hview. simpl.
    unfold eip197_pairing. destruct (check pairsRaw); reflexivity.
Qed.

Lemma alt_bn128_pair_by_last_byte_witness :
  alt_bn128_pair (eip197_pairing check_empty_product) 0 0
    (blankVM (blankContext 0) 0)
  = (Return (pair_result_by_last_byte (check_empty_product [])),
     blankVM (blankContext 0) 0).
Proof.
  apply (alt_bn128_pair_by_last_byte
           (eip197_pairing check_empty_product) check_empty_product
           (blankVM (blankContext 0) 0) 0 0 []).
  reflexivity.
Defined.

(** ** get_code_hash *)

Section CodeHash.
Variable hash : bytes -> bytes.

Lemma codeHashObject_struct_version (account : option Account.t) (v : Z) :
  CodeHashResult.struct_version (codeHashObject hash account v) = Z.min 0 v.
Proof. reflexivity. Qed.

Lemma codeHashObject_code_hash (account : option Account.t) (v : Z) :
  (forall a w, account = Some a -> Account.wasm a = Some w ->
     CodeHashResult.code_hash (codeHashObject hash account v) = hash w)
  /\ ((account = None \/ exists a, account = Some a /\ Account.wasm a = None) ->
      CodeHashResult.code_hash (codeHashObject hash account v)
      = replicate 32 x00).
Proof.
  split.
  - intros a w -> Hw. simpl. rewrite Hw. reflexivity.
  - intros [->|(a & -> & Hw)]; simpl; [|rewrite Hw]; reflexivity.
Qed.
End CodeHash.

(** What [get_code_hash] does with the answer of the serializer: the bytes
    are written at the result pointer and their number is returned; what
    the serializer throws is thrown on, with the machine as it was. *)
Lemma get_code_hash_run
    (encode : CodeHashResult.t -> Outcome bytes) (hash : bytes -> bytes)
    (vm : VM) (_accountName v _packedResult : Z) :
  let account := Blockchain.getAccount (bc vm) (convertToUnsigned _accountName) in
  get_code_hash encode hash _accountName v _packedResult vm
  = match encode (codeHashObject hash account v) with
    | Return packed =>
        match Memory.store (memory vm) _packedResult packed with
        | Some mem' => (Return (Z.of_nat (length packed)), set_memory mem' vm)
        | None => (Throw RangeError, vm)
        end
    | Throw e => (Throw e, vm)
    end.
Proof.
  intros account. unfold get_code_hash, getAccount, memoryStore. run.
  fold account. destruct (encode (codeHashObject hash account v)) as [packed|e];
    [|reflexivity].
  destruct (Memory.store (memory vm) _packedResult packed); reflexivity.
Qed.

(** C8 (as written) fails: the version [-3] is handed to the serializer as
    it is, the [varuint32] field cannot hold it, and the call throws without
    writing or returning anything. *)
Lemma get_code_hash_negative_version_throws :
  let vm := blankVM (blankContext 0) 64 in
  CodeHashResult.struct_version (codeHashObject sampleHash None (-3)) = -3
  /\ get_code_hash sampleEncode sampleHash 5 (-3) 8 vm
     = (Throw (Error "Number underflows varuint32"), vm)
  /\ ~ exists n vm',
         get_code_hash sampleEncode sampleHash 5 (-3) 8 vm = (Return n, vm').
Proof.
  intros vm.
  assert (Hrun : get_code_hash sampleEncode sampleHash 5 (-3) 8 vm
                 = (Throw (Error "Number underflows varuint32"), vm))
    by (vm_compute; reflexivity).
  split; [reflexivity|]. split; [exact Hrun|].
  intros (n & vm' & Hret). rewrite Hrun in Hret. discriminate.
Qed.

(** C8 (amended): for every requested version [v] the object handed to
    the serializer has [struct_version] [min(0, v)], which is zero for
    [v >= 0] and [v] itself for [v < 0], and has as [code_hash] the SHA-256
    of the account's WASM bytes, or 32 zero bytes when the account is
    unknown or has no code.  The bytes the serializer answers with are
    written at the result pointer and their number is returned; when the
    serializer throws, the call throws the same and writes nothing, which
    is what happens for every negative [v] with a serializer that rejects a
    negative [struct_version], as the [varuint32] field does. *)
Theorem get_code_hash_struct_version_and_hash
    (encode : CodeHashResult.t -> Outcome bytes) (hash : bytes -> bytes)
    (vm : VM) (_accountName v _packedResult : Z) :
  let account := Blockchain.getAccount (bc vm) (convertToUnsigned _accountName) in
  let object := codeHashObject hash account v in
  let run := get_code_hash encode hash _accountName v _packedResult vm in
  CodeHashResult.struct_version object = Z.min 0 v
  /\ (0 <= v -> CodeHashResult.struct_version object = 0)
  /\ (v < 0 -> CodeHashResult.struct_version object = v)
  /\ (forall a w, account = Some a -> Account.wasm a = Some w ->
        CodeHashResult.code_hash object = hash w)
  /\ ((account = None \/ exists a, account = Some a /\ Account.wasm a = None) ->
      CodeHashResult.code_hash object = replicate 32 x00)
  /\ (forall packed,
        encode object = Return packed ->
        Memory.inBounds (memory vm) _packedResult
          (Z.of_nat (length packed)) = true ->
        exists mem',
          run = (Return (Z.of_nat (length packed)), set_memory mem' vm)
          /\ Memory.view mem' _packedResult (Z.of_nat (length packed))
             = Some packed)
  /\ (forall e, encode object = Throw e -> run = (Throw e, vm))
  /\ (rejectsNegativeVersion encode -> v < 0 ->
      exists e, run = (Throw e, vm)).
Proof.
  intros account object run0. subst run0.
  rewrite get_code_hash_run. fold account. fold object.
  split; [reflexivity|].
  split; [intros Hv; unfold object; rewrite codeHashObject_struct_version; lia|].
  split; [intros Hv; unfold object; rewrite codeHashObject_struct_version; lia|].
  split; [apply codeHashObject_code_hash|].
  split; [apply codeHashObject_code_hash|].
  split; [|split].
  - intros packed Henc Hb. rewrite Henc.
    destruct (store_in_bounds _ _ _ Hb) as [mem' Hst]. rewrite Hst.
    exists mem'. split; [reflexivity|]. eapply view_store. exact Hst.
  - intros e Henc. rewrite Henc. reflexivity.
  - intros Hrej Hv.
    destruct (Hrej object) as [e Henc].
    { unfold object. rewrite codeHashObject_struct_version. lia. }
    exists e. rewrite Henc. reflexivity.
Qed.

Lemma sampleEncode_rejectsNegativeVersion : rejectsNegativeVersion sampleEncode.
Proof.
  intros r Hr. unfold sampleEncode, varuint32.
  rewrite (proj2 (Z.ltb_lt _ _) Hr). eauto.
Qed.

Lemma get_code_hash_struct_version_and_hash_witness :
  let vm := blankVM (blankContext 0) 64 in
  let object := codeHashObject sampleHash None 3 in
  (CodeHashResult.struct_version object = 0
   /\ exists mem',
        get_code_hash sampleEncode sampleHash 5 3 8 vm
        = (Return 33, set_memory mem' vm)
        /\ Memory.view mem' 8 33 = Some (x00 :: replicate 32 x00))
  /\ exists e,
       get_code_hash sampleEncode sampleHash 5 (-3) 8 vm = (Throw e, vm).
Proof.
  intros vm object.
  pose proof (get_code_hash_struct_version_and_hash
                sampleEncode sampleHash vm 5 3 8) as H.
  pose proof (get_code_hash_struct_version_and_hash
                sampleEncode sampleHash vm 5 (-3) 8) as Hneg.
  cbv zeta in H, Hneg.
  destruct H as (_ & Hzero & _ & _ & _ & Hwrite & _).
  destruct Hneg as (_ & _ & _ & _ & _ & _ & _ & Hthrow).
  split; [split|].
  - apply Hzero. lia.
  - exact (Hwrite (x00 :: replicate 32 x00) eq_refl eq_refl).
  - apply Hthrow; [exact sampleEncode_rejectsNegativeVersion|lia].
Defined.

(** ** send_inline *)

(** C4: once the action is decoded from guest memory, [send_inline]
    throws when the target account is unknown or carries no contract; when
    the target declares the action in its ABI (and the payload decodes
    against it) exactly one child context is appended to the actions queue,
    with sender the current receiver and with receiver and first receiver
    the target; when the target does not declare the action nothing is
    enqueued. *)
Theorem send_inline_enqueues_child
    (decode : bytes -> Outcome Action.t)
    (decodeData : Action.t -> string -> Outcome DecodedData)
    (vm : VM) (action size : Z) (inlineBuffer : bytes) (decodedAction : Action.t) :
  Memory.view (memory vm) action size = Some inlineBuffer ->
  decode inlineBuffer = Return decodedAction ->
  let target := Action.account decodedAction in
  let run := send_inline decode decodeData action size vm in
  ((Blockchain.getAccount (bc vm) target = None
    \/ (exists a, Blockchain.getAccount (bc vm) target = Some a
                  /\ Account.isContract a = false)) ->
   run = (Throw (Error "Contract is missing for inline action"), vm))
  /\ (forall contract,
        Blockchain.getAccount (bc vm) target = Some contract ->
        Account.isContract contract = true ->
        (Action.name decodedAction ∉ Account.actions contract ->
         run = (Return tt, vm))
        /\ (Action.name decodedAction ∈ Account.actions contract ->
            forall decodedData,
              decodeData decodedAction (Account.abi contract) = Return decodedData ->
              exists child vm',
                run = (Return tt, vm')
                /\ vm' = set_context (Context.push_action child (context vm)) vm
                /\ Context.actionsQueue (context vm')
                   = Context.actionsQueue (context vm) ++ [child]
                /\ Context.notificationsQueue (context vm')
                   = Context.notificationsQueue (context vm)
                /\ Context.sender child = Context.receiver (context vm)
                /\ Context.receiver child = target
                /\ Context.firstReceiver child = target
                /\ Context.action child = Action.name decodedAction
                /\ Context.data child = Action.data decodedAction
                /\ Context.authorization child
                   = Action.authorization decodedAction)).
Proof.
  intros Hview Hdec target run0. subst run0.
  unfold send_inline, memoryView, getAccount. run.
  rewrite Hview. simpl. rewrite Hdec. fold target. split.
  - intros [Hnone|(a & Ha & Hc)].
    + rewrite Hnone. reflexivity.
    + rewrite Ha. rewrite Hc. reflexivity.
  - intros contract Hacc Hc. rewrite Hacc, Hc. simpl. split.
    + intros Hnot. rewrite bool_decide_eq_false_2 by assumption. reflexivity.
    + intros Hin decodedData Hdd. rewrite bool_decide_eq_true_2 by assumption.
      rewrite Hdd.
      exists (inlineContext (context vm) decodedAction decodedData).
      eexists. split; [reflexivity|]. repeat split; reflexivity.
Qed.

Lemma send_inline_enqueues_child_witness :
  exists child vm',
    send_inline sampleDecode sampleDecodeData 0 8 sampleVM = (Return tt, vm')
    /\ vm' = set_context (Context.push_action child (context sampleVM)) sampleVM
    /\ Context.actionsQueue (context vm') = [child]
    /\ Context.notificationsQueue (context vm') = []
    /\ Context.sender child = alice
    /\ Context.receiver child = bob
    /\ Context.firstReceiver child = bob
    /\ Context.action child = foo
    /\ Context.data child = []
    /\ Context.authorization child = [].
Proof.
  assert (Hacc : Blockchain.getAccount (bc sampleVM) bob
                 = Some (contractAccount {[foo]})).
  { vm_compute. reflexivity. }
  assert (Hin : foo ∈ Account.actions (contractAccount {[foo]})).
  { unfold contractAccount. simpl. apply elem_of_singleton. reflexivity. }
  exact (proj2 (proj2 (send_inline_enqueues_child
                  sampleDecode sampleDecodeData sampleVM 0 8
                  (replicate 8 x00) sampleAction eq_refl eq_refl)
                  (contractAccount {[foo]}) Hacc eq_refl)
               Hin EmptyString eq_refl).
Defined.

(** ** require_recipient *)

(** The exits of [require_recipient]: an unknown account throws; a
    recipient already notified in the action traces under the current
    action ordinal, a recipient without a contract and the current receiver
    itself are skipped without error; any other recipient gets one
    notification context appended to the queue. *)
Lemma require_recipient_cases (vm : VM) (name : Z) :
  let accountName := convertToUnsigned name in
  let ctx := context vm in
  let run := require_recipient name vm in
  (Blockchain.getAccount (bc vm) accountName = None ->
   run = (Throw (Error "Account missing for require_recipient"), vm))
  /\ (forall account,
        Blockchain.getAccount (bc vm) accountName = Some account ->
        ((List.find (sameNotification accountName ctx)
                    (Blockchain.actionTraces (bc vm)) <> None
          \/ Account.isContract account = false
          \/ accountName = Context.receiver ctx) ->
         run = (Return tt, vm))
        /\ (List.find (sameNotification accountName ctx)
                      (Blockchain.actionTraces (bc vm)) = None ->
            Account.isContract account = true ->
            accountName <> Context.receiver ctx ->
            run = (Return tt,
                   set_context
                     (Context.push_notification
                        (notificationContext accountName ctx) ctx) vm))).
Proof.
  intros accountName ctx run0. subst run0.
  unfold require_recipient, getAccount. run. fold accountName. split.
  - intros ->. reflexivity.
  - intros account ->. fold ctx. split.
    + intros [Hdup|[Hc|Hself]].
      * destruct (List.find _ _); [reflexivity|contradiction].
      * destruct (List.find _ _); [reflexivity|]. rewrite Hc. reflexivity.
      * destruct (List.find _ _); [reflexivity|].
        destruct (Account.isContract account); [|reflexivity]. simpl.
        rewrite (proj2 (Z.eqb_eq _ _) Hself). reflexivity.
    + intros -> -> Hself. simpl.
      rewrite (proj2 (Z.eqb_neq _ _) Hself). reflexivity.
Qed.

(** The first receiver of the notification is the current context's first
    receiver when that context is itself a notification, and the current
    receiver otherwise; the action ordinal is inherited. *)
Lemma notificationContext_fields (accountName : Z) (ctx : Context.t) :
  Context.receiver (notificationContext accountName ctx) = accountName
  /\ Context.actionOrdinal (notificationContext accountName ctx)
     = Context.actionOrdinal ctx
  /\ (Context.isNotification ctx = true ->
      Context.firstReceiver (notificationContext accountName ctx)
      = Context.firstReceiver ctx)
  /\ (Context.isNotification ctx = false ->
      Context.firstReceiver (notificationContext accountName ctx)
      = Context.receiver ctx).
Proof.
  unfold notificationContext. simpl.
  repeat split; intros ->; reflexivity.
Qed.

Lemma notificationContext_push (accountName : Z) (n ctx : Context.t) :
  notificationContext accountName (Context.push_notification n ctx)
  = notificationContext accountName ctx.
Proof. destruct ctx. reflexivity. Qed.

(** A second request for the same recipient within one action finds
    nothing in the action traces, which the first request left as they
    were, and enqueues the notification again. *)
Lemma require_recipient_repeated (vm : VM) (name : Z) (account : Account.t) :
  let accountName := convertToUnsigned name in
  let ctx := context vm in
  let n := notificationContext accountName ctx in
  Blockchain.getAccount (bc vm) accountName = Some account ->
  List.find (sameNotification accountName ctx)
            (Blockchain.actionTraces (bc vm)) = None ->
  Account.isContract account = true ->
  accountName <> Context.receiver ctx ->
  exists vm',
    (require_recipient name ;;; require_recipient name) vm = (Return tt, vm')
    /\ Context.notificationsQueue (context vm')
       = Context.notificationsQueue ctx ++ [n; n].
Proof.
  intros accountName ctx n Hacc Hfind Hc Hself.
  pose proof (proj2 (proj2 (require_recipient_cases vm name) account Hacc)
                Hfind Hc Hself) as H1.
  fold accountName ctx n in H1.
  set (vm1 := set_context (Context.push_notification n ctx) vm) in *.
  assert (Hctx1 : forall x, sameNotification accountName (context vm1) x
                            = sameNotification accountName ctx x).
  { intros x. unfold vm1. simpl. destruct ctx. reflexivity. }
  pose proof (proj2 (proj2 (require_recipient_cases vm1 name) account Hacc)) as H2.
  simpl in H2. fold accountName in H2.
  assert (Hfind1 : List.find (sameNotification accountName (context vm1))
                     (Blockchain.actionTraces (bc vm)) = None).
  { rewrite <- Hfind. generalize (Blockchain.actionTraces (bc vm)).
    intros l. induction l as [|x l IH]; [reflexivity|].
    cbn [List.find]. rewrite Hctx1, IH. reflexivity. }
  specialize (H2 Hfind1 Hc).
  assert (Hself1 : accountName <> Context.receiver (Context.push_notification n ctx)).
  { destruct ctx. exact Hself. }
  specialize (H2 Hself1).
  eexists. split.
  - erewrite bind_Return by exact H1. exact H2.
  - simpl. rewrite notificationContext_push. fold n.
    destruct ctx. simpl. rewrite <- app_assoc. reflexivity.
Qed.

(** C6 (the code departs from it): [alice]'s action asks twice for the
    recipient [bob], a contract not yet in the action traces.  Both
    requests succeed and the notifications queue holds two contexts for the
    same recipient and action ordinal. *)
Theorem require_recipient_twice_enqueues_two :
  let n := notificationContext bob (context sampleVM) in
  exists vm',
    (require_recipient bob ;;; require_recipient bob) sampleVM = (Return tt, vm')
    /\ Context.notificationsQueue (context vm') = [n; n]
    /\ Context.receiver n = bob
    /\ Context.actionOrdinal n = Context.actionOrdinal (context sampleVM).
Proof.
  intros n.
  destruct (require_recipient_repeated sampleVM bob (contractAccount {[foo]}))
    as (vm' & Hrun & Hq); try (vm_compute; congruence).
  exists vm'. split; [exact Hrun|]. split; [exact Hq|]. split; reflexivity.
Qed.

(** ** Tables and the store *)

Lemma find_app_None {A} (p : A -> bool) (l : list A) (x : A) :
  List.find p l = None -> List.find p (l ++ [x]) = if p x then Some x else None.
Proof.
  induction l as [|y l IH]; simpl; [reflexivity|].
  destruct (p y); [discriminate|]. exact IH.
Qed.

Lemma find_map_preserved {A} (p : A -> bool) (g : A -> A) (l : list A) :
  (forall x, p (g x) = p x) ->
  List.find p (List.map g l) = g <$> List.find p l.
Proof.
  intros Hp. induction l as [|y l IH]; simpl; [reflexivity|].
  rewrite Hp. destruct (p y); [reflexivity|]. exact IH.
Qed.

Lemma findTable_createTable (st : Store.t) (code scope table payer : Z) :
  Store.findTable st code scope table = None ->
  Store.findTable (snd (Store.createTable st code scope table payer))
                  code scope table
  = Some (fst (Store.createTable st code scope table payer)).
Proof.
  intros Hnone. unfold Store.findTable in *. simpl.
  rewrite find_app_None by exact Hnone. simpl.
  rewrite !Z.eqb_refl. reflexivity.
Qed.

Lemma findTable_modifyTable (st : Store.t) (id key : Z) (kv : KeyValueObject.t)
    (code scope table : Z) :
  Store.findTable (Store.modifyTable id (Table.set key kv) st) code scope table
  = (fun tab => if Table.id tab =? id then Table.set key kv tab else tab)
      <$> Store.findTable st code scope table.
Proof.
  unfold Store.findTable, Store.modifyTable. simpl.
  apply find_map_preserved. intros x.
  destruct (Table.id x =? id); reflexivity.
Qed.

Lemma get_set (tab : Table.t) (key : Z) (kv : KeyValueObject.t) :
  KeyValueObject.primaryKey kv = key ->
  Table.get (Table.set key kv tab) key = Some kv.
Proof.
  intros Hk. unfold Table.get, Table.set. simpl.
  rewrite Hk, Z.eqb_refl. reflexivity.
Qed.

(** ** The iterator cache *)

Lemma cacheTable_objects {T} (c : IteratorCache.t T) (tableId : Z) :
  IteratorCache.iteratorToObject (snd (IteratorCache.cacheTable c tableId))
  = IteratorCache.iteratorToObject c.
Proof.
  unfold IteratorCache.cacheTable.
  destruct (IteratorCache.getEndIteratorByTableId c tableId); reflexivity.
Qed.

Lemma get_fresh {T} (c : IteratorCache.t T) :
  IteratorCache.get c (Z.of_nat (length (IteratorCache.iteratorToObject c))) = None.
Proof.
  unfold IteratorCache.get.
  destruct (Z.of_nat _ <? 0) eqn:Hneg; [reflexivity|].
  rewrite Nat2Z.id. rewrite (proj2 (lookup_ge_None _ _)) by lia. reflexivity.
Qed.

Lemma add_handle {T} (c : IteratorCache.t T) (obj : T) :
  fst (IteratorCache.add c obj)
  = Z.of_nat (length (IteratorCache.iteratorToObject c)).
Proof. reflexivity. Qed.

Lemma get_add {T} (c : IteratorCache.t T) (obj : T) :
  IteratorCache.get (snd (IteratorCache.add c obj)) (fst (IteratorCache.add c obj))
  = Some obj.
Proof.
  unfold IteratorCache.get, IteratorCache.add. simpl.
  destruct (Z.of_nat _ <? 0) eqn:Hneg; [apply Z.ltb_lt in Hneg; lia|].
  rewrite Nat2Z.id. rewrite lookup_app_r by lia.
  rewrite Nat.sub_diag. reflexivity.
Qed.

Lemma get_add_old {T} (c : IteratorCache.t T) (obj : T) (h : Z) (o : T) :
  IteratorCache.get c h = Some o ->
  IteratorCache.get (snd (IteratorCache.add c obj)) h = Some o.
Proof.
  unfold IteratorCache.get, IteratorCache.add. simpl.
  destruct (h <? 0); [discriminate|].
  destruct (IteratorCache.iteratorToObject c !! Z.to_nat h) as [x|] eqn:Hl;
    [|discriminate].
  intros Hx. rewrite lookup_app_l by (eapply lookup_lt_Some; exact Hl).
  rewrite Hl. exact Hx.
Qed.

(** ** db_store_i64 *)

Lemma findOrCreateTable_run (vm : VM) (code scope table payer : Z) :
  findOrCreateTable code scope table payer vm
  = match Store.findTable (Blockchain.store (bc vm)) code scope table with
    | Some tab => (Return tab, vm)
    | None =>
        (Return (fst (Store.createTable (Blockchain.store (bc vm))
                        code scope table payer)),
         set_store (snd (Store.createTable (Blockchain.store (bc vm))
                           code scope table payer)) vm)
    end.
Proof.
  unfold findOrCreateTable, findTable. run.
  destruct (Store.findTable _ _ _ _); reflexivity.
Qed.

(** The table [db_store_i64] works on and the state once it is found or
    created. *)
Lemma findOrCreateTable_result (vm : VM) (code scope table payer : Z) :
  exists tab vm1,
    findOrCreateTable code scope table payer vm = (Return tab, vm1)
    /\ Store.findTable (Blockchain.store (bc vm1)) code scope table = Some tab
    /\ context vm1 = context vm
    /\ kvCache vm1 = kvCache vm
    /\ memory vm1 = memory vm
    /\ (forall t, Store.findTable (Blockchain.store (bc vm)) code scope table
                  = Some t -> tab = t /\ vm1 = vm)
    /\ (Store.findTable (Blockchain.store (bc vm)) code scope table = None ->
        Table.rows tab = []).
Proof.
  rewrite findOrCreateTable_run.
  destruct (Store.findTable (Blockchain.store (bc vm)) code scope table)
    as [tab|] eqn:Hfind.
  - exists tab, vm. split; [reflexivity|]. split; [exact Hfind|].
    split; [reflexivity|]. split; [reflexivity|]. split; [reflexivity|].
    split; [|discriminate].
    intros t' [= ->]. split; reflexivity.
  - eexists. eexists. split; [reflexivity|].
    split; [apply findTable_createTable; exact Hfind|].
    split; [reflexivity|]. split; [reflexivity|]. split; [reflexivity|].
    split; [discriminate|]. reflexivity.
Qed.

Lemma db_store_i64_run (vm : VM) (_scope _table _payer _id data len : Z)
    (tab : Table.t) (vm1 : VM) :
  let scope := convertToUnsigned _scope in
  let table := convertToUnsigned _table in
  let payer := convertToUnsigned _payer in
  let id := convertToUnsigned _id in
  findOrCreateTable (Context.receiver (context vm)) scope table payer vm
  = (Return tab, vm1) ->
  db_store_i64 _scope _table _payer _id data len vm
  = if payer =? 0
    then (Throw (Error "must specify a valid account to pay for new record"), vm1)
    else if Table.has tab id
    then (Throw (Error "key uniqueness violation"), vm1)
    else match Memory.view (memory vm1) data len with
         | None => (Throw RangeError, vm1)
         | Some value =>
             let kv := KeyValueObject.mk (Table.id tab) id payer value in
             let vm2 := set_store (Store.modifyTable (Table.id tab)
                                     (Table.set id kv)
                                     (Blockchain.store (bc vm1))) vm1 in
             let c := snd (IteratorCache.cacheTable (kvCache vm2) (Table.id tab)) in
             (Return (fst (IteratorCache.add c kv)),
              set_kvCache (snd (IteratorCache.add c kv)) (set_kvCache c vm2))
         end.
Proof.
  intros scope table payer id Hfc.
  unfold db_store_i64. fold scope table payer id.
  unfold bind at 1. unfold gets at 1.
  rewrite (bind_Return _ _ _ _ _ Hfc).
  destruct (payer =? 0) eqn:Hp; [reflexivity|].
  unfold assert at 1. simpl negb. cbv iota.
  unfold bind at 1. unfold ret at 1.
  destruct (Table.has tab id) eqn:Hhas; [reflexivity|].
  unfold memoryView, kvCache_cacheTable, kvCache_add. run.
  destruct (Memory.view (memory vm1) data len) as [value|]; [|reflexivity].
  simpl.
  destruct (IteratorCache.cacheTable (kvCache vm1) (Table.id tab)) as [ei c] eqn:Hc.
  reflexivity.
Qed.

(** C5: [db_store_i64] throws when the payer is zero and throws when the
    table (current receiver, scope, table) already holds a row under the
    primary key; otherwise (the payload lying in guest memory) the table
    exists afterwards, created if it did not, it holds the new row under
    the key, and the handle returned is non-negative, was not valid before
    the call and now yields the row. *)
Theorem db_store_i64_checks_then_inserts
    (vm : VM) (_scope _table _payer _id data len : Z) :
  let scope := convertToUnsigned _scope in
  let table := convertToUnsigned _table in
  let payer := convertToUnsigned _payer in
  let id := convertToUnsigned _id in
  let receiver := Context.receiver (context vm) in
  let existing := Store.findTable (Blockchain.store (bc vm)) receiver scope table in
  let run := db_store_i64 _scope _table _payer _id data len vm in
  (payer = 0 ->
   fst run = Throw (Error "must specify a valid account to pay for new record"))
  /\ (forall tab, existing = Some tab -> Table.has tab id = true ->
        exists message, run = (Throw (Error message), vm))
  /\ (forall tab, existing = Some tab -> Table.has tab id = true -> payer <> 0 ->
        run = (Throw (Error "key uniqueness violation"), vm))
  /\ (payer <> 0 ->
      (forall tab, existing = Some tab -> Table.has tab id = false) ->
      forall value, Memory.view (memory vm) data len = Some value ->
        exists h vm' tab',
          run = (Return h, vm')
          /\ 0 <= h
          /\ IteratorCache.get (kvCache vm) h = None
          /\ Store.findTable (Blockchain.store (bc vm')) receiver scope table
             = Some tab'
          /\ Table.get tab' id
             = Some (KeyValueObject.mk (Table.id tab') id payer value)
          /\ IteratorCache.get (kvCache vm') h
             = Some (KeyValueObject.mk (Table.id tab') id payer value)).
Proof.
  intros scope table payer id receiver existing run0. subst run0.
  destruct (findOrCreateTable_result vm receiver scope table payer)
    as (tab & vm1 & Hfc & Hfound & Hctx & Hcache & Hmem & Hold & Hnew).
  rewrite (db_store_i64_run vm _scope _table _payer _id data len tab vm1 Hfc).
  fold scope table payer id.
  split; [|split; [|split]].
  - intros ->. reflexivity.
  - intros t Ht Hhas. destruct (Hold t Ht) as [-> ->]. rewrite Hhas.
    destruct (payer =? 0); eauto.
  - intros t Ht Hhas Hp. destruct (Hold t Ht) as [-> ->]. rewrite Hhas.
    rewrite (proj2 (Z.eqb_neq _ _) Hp). reflexivity.
  - intros Hp Hfree value Hview.
    rewrite (proj2 (Z.eqb_neq _ _) Hp).
    assert (Hhas : Table.has tab id = false).
    { fold existing in Hold, Hnew. destruct existing as [t|] eqn:Hex.
      - destruct (Hold t eq_refl) as [-> _]. apply (Hfree t). reflexivity.
      - unfold Table.has, Table.get. rewrite (Hnew eq_refl). reflexivity. }
    rewrite Hhas, Hmem, Hview. cbv zeta.
    set (kv := KeyValueObject.mk (Table.id tab) id payer value).
    eexists. eexists. exists (Table.set id kv tab).
    split; [reflexivity|].
    split; [rewrite add_handle; lia|].
    split.
    { rewrite add_handle. simpl. rewrite cacheTable_objects. simpl.
      rewrite Hcache. apply get_fresh. }
    split.
    { simpl. rewrite findTable_modifyTable. fold receiver in Hfound.
      rewrite Hfound. simpl. rewrite Z.eqb_refl. reflexivity. }
    split.
    { apply get_set. reflexivity. }
    simpl. apply get_add.
Qed.

Lemma db_store_i64_checks_then_inserts_witness :
  exists h vm' tab',
    db_store_i64 scopeName tableName alice 7 0 4 sampleVM = (Return h, vm')
    /\ 0 <= h
    /\ IteratorCache.get (kvCache sampleVM) h = None
    /\ Store.findTable (Blockchain.store (bc vm')) alice scopeName tableName
       = Some tab'
    /\ Table.get tab' 7
       = Some (KeyValueObject.mk (Table.id tab') 7 alice [x00; x00; x00; x00])
    /\ IteratorCache.get (kvCache vm') h
       = Some (KeyValueObject.mk (Table.id tab') 7 alice [x00; x00; x00; x00]).
Proof.
  refine (proj2 (proj2 (proj2
            (db_store_i64_checks_then_inserts
               sampleVM scopeName tableName alice 7 0 4)))
            _ _ [x00; x00; x00; x00] eq_refl).
  - vm_compute. discriminate.
  - intros tab Hex. vm_compute in Hex. discriminate.
Defined.

(** C9: when the payer is zero and the table (current receiver, scope,
    table) does not exist, [db_store_i64] throws the payer error, and the
    store it leaves behind holds the table, created empty by the lookup
    that ran before the check: the store is not what it was. *)
Theorem db_store_i64_zero_payer_leaves_table
    (vm : VM) (_scope _table _payer _id data len : Z) :
  let scope := convertToUnsigned _scope in
  let table := convertToUnsigned _table in
  let receiver := Context.receiver (context vm) in
  convertToUnsigned _payer = 0 ->
  Store.findTable (Blockchain.store (bc vm)) receiver scope table = None ->
  exists vm' tab,
    db_store_i64 _scope _table _payer _id data len vm
    = (Throw (Error "must specify a valid account to pay for new record"), vm')
    /\ Store.findTable (Blockchain.store (bc vm')) receiver scope table = Some tab
    /\ Table.rows tab = []
    /\ Store.tables (Blockchain.store (bc vm'))
       = Store.tables (Blockchain.store (bc vm)) ++ [tab]
    /\ Blockchain.store (bc vm') <> Blockchain.store (bc vm).
Proof.
  intros scope table receiver Hpayer Hnone.
  pose proof (findOrCreateTable_run vm receiver scope table
                (convertToUnsigned _payer)) as Hfc.
  rewrite Hnone in Hfc.
  rewrite (db_store_i64_run vm _scope _table _payer _id data len _ _ Hfc).
  rewrite Hpayer. simpl (0 =? 0). cbv iota.
  eexists. eexists. split; [reflexivity|].
  split; [apply findTable_createTable; exact Hnone|].
  split; [reflexivity|]. split; [reflexivity|].
  intros Heq.
  apply (f_equal (fun st => length (Store.tables st))) in Heq.
  simpl in Heq. rewrite length_app in Heq. simpl in Heq. lia.
Qed.

Lemma db_store_i64_zero_payer_leaves_table_witness :
  exists vm' tab,
    db_store_i64 scopeName tableName 0 7 0 4 sampleVM
    = (Throw (Error "must specify a valid account to pay for new record"), vm')
    /\ Store.findTable (Blockchain.store (bc vm')) alice scopeName tableName
       = Some tab
    /\ Table.rows tab = []
    /\ Store.tables (Blockchain.store (bc vm'))
       = Store.tables (Blockchain.store (bc sampleVM)) ++ [tab]
    /\ Blockchain.store (bc vm') <> Blockchain.store (bc sampleVM).
Proof.
  exact (db_store_i64_zero_payer_leaves_table
           sampleVM scopeName tableName 0 7 0 4 eq_refl eq_refl).
Defined.
Lemma slice_low (raw : bytes) : slice raw 0 16 = take 16 raw.
Proof. reflexivity. Qed.

Lemma slice_high (raw : bytes) :
  length raw = 32%nat -> slice raw 16 32 = drop 16 raw.
Proof.
  intros Hlen. unfold slice. apply take_ge. rewrite length_drop. lia.
Qed.

Lemma from_halves (raw : bytes) :
  length raw = 32%nat ->
  SecondaryKeyConverter.checksum256.from raw
  = reverse (take 16 raw) ++ reverse (drop 16 raw).
Proof.
  intros Hlen. unfold SecondaryKeyConverter.checksum256.from.
  cbv zeta. rewrite slice_low, slice_high by assumption. reflexivity.
Qed.

Lemma from_length (raw : bytes) :
  length raw = 32%nat ->
  length (SecondaryKeyConverter.checksum256.from raw) = 32%nat.
Proof.
  intros Hlen. rewrite from_halves by assumption.
  rewrite length_app, !length_reverse, length_take, length_drop. lia.
Qed.

Lemma from_involutive (raw : bytes) :
  length raw = 32%nat ->
  SecondaryKeyConverter.checksum256.from
    (SecondaryKeyConverter.checksum256.from raw) = raw.
Proof.
  intros Hlen.
  rewrite (from_halves (SecondaryKeyConverter.checksum256.from raw))
    by (apply from_length; assumption).
  rewrite from_halves by assumption.
  assert (Hl : length (reverse (take 16 raw)) = 16%nat).
  { rewrite length_reverse, length_take. lia. }
  rewrite take_app_length' by (symmetry; exact Hl).
  rewrite drop_app_length' by (symmetry; exact Hl).
  rewrite !reverse_involutive. apply take_drop.
Qed.

(** C2 (as written) fails: on the bytes 00..1f the converter yields
    0f..00 followed by 1f..10, whereas swapping the halves and reversing
    each gives 1f..10 followed by 0f..00. *)
Lemma checksum256_from_keeps_half_order :
  SecondaryKeyConverter.checksum256.from raw_0_to_31
  <> swap_halves_reversing_each raw_0_to_31.
Proof. vm_compute. discriminate. Qed.

(** The converter on 32-byte values: the first half reversed followed by
    the second half reversed; the write direction applies the same map, and
    writing the sort bytes into a 32-byte buffer restores the raw bytes. *)
Lemma checksum256_converter (raw buffer : bytes) :
  length raw = 32%nat ->
  length buffer = 32%nat ->
  SecondaryKeyConverter.checksum256.from raw
    = reverse (take 16 raw) ++ reverse (drop 16 raw)
  /\ SecondaryKeyConverter.checksum256.to buffer raw
    = Some (SecondaryKeyConverter.checksum256.from raw)
  /\ SecondaryKeyConverter.checksum256.to buffer
       (SecondaryKeyConverter.checksum256.from raw) = Some raw.
Proof.
  intros Hraw Hbuf.
  assert (Hset : forall v : bytes, length v = 32%nat ->
            SecondaryKeyConverter.checksum256.to buffer v
            = Some (SecondaryKeyConverter.checksum256.from v)).
  { intros v Hv. unfold SecondaryKeyConverter.checksum256.to. cbv zeta.
    fold (SecondaryKeyConverter.checksum256.from v).
    unfold typed_set. rewrite from_length by assumption.
    rewrite decide_True by lia.
    rewrite drop_ge by lia. rewrite app_nil_r. reflexivity. }
  split; [apply from_halves; assumption|].
  split; [apply Hset; assumption|].
  rewrite Hset by (apply from_length; assumption).
  rewrite from_involutive by assumption. reflexivity.
Qed.

(** ** The idx256 interface *)

Lemma secondary_get_set {K} (index : SecondaryKeyStore.t K)
    (old : option (IndexObject.t K)) (obj : IndexObject.t K) :
  SecondaryKeyStore.get (SecondaryKeyStore.set old obj index)
    (IndexObject.tableId obj) (IndexObject.primaryKey obj) = Some obj.
Proof.
  unfold SecondaryKeyStore.get, SecondaryKeyStore.set,
    SecondaryKeyStore.samePrimary. simpl.
  rewrite !Z.eqb_refl. reflexivity.
Qed.

Lemma findTable_with_idx256 (index : SecondaryKeyStore.t bytes) (st : Store.t)
    (code scope table : Z) :
  Store.findTable (Store.with_idx256 index st) code scope table
  = Store.findTable st code scope table.
Proof. reflexivity. Qed.

Lemma db_idx256_store_run (vm : VM) (_scope _table _payer _id data data_len : Z)
    (raw : bytes) (tab : Table.t) (vm1 : VM) :
  let scope := convertToUnsigned _scope in
  let table := convertToUnsigned _table in
  let payer := convertToUnsigned _payer in
  let id := convertToUnsigned _id in
  Memory.view (memory vm) data 32 = Some raw ->
  payer <> 0 ->
  findOrCreateTable (Context.receiver (context vm)) scope table payer vm
  = (Return tab, vm1) ->
  memory vm1 = memory vm ->
  let obj := IndexObject.mk (Table.id tab) id
               (SecondaryKeyConverter.checksum256.from raw) payer in
  let vm2 := set_store (Store.with_idx256
                          (SecondaryKeyStore.set None obj
                             (Store.idx256 (Blockchain.store (bc vm1))))
                          (Blockchain.store (bc vm1))) vm1 in
  let c := snd (IteratorCache.cacheTable (idx256 vm2) (Table.id tab)) in
  db_idx256_store _scope _table _payer _id data data_len vm
  = (Return (fst (IteratorCache.add c obj)),
     set_idx256 (snd (IteratorCache.add c obj)) (set_idx256 c vm2)).
Proof.
  intros scope table payer id Hview Hp Hfc Hmem obj vm2 c.
  unfold db_idx256_store, Buffer_from_, genericIndex.store, memoryView.
  fold scope table payer id.
  unfold bind at 1. unfold bind at 1. unfold bind at 1. unfold gets at 1.
  rewrite Hview. unfold orThrow at 1. unfold ret at 1. unfold ret at 1.
  rewrite (proj2 (Z.eqb_neq _ _) Hp). simpl negb. unfold assert.
  unfold bind at 1. unfold ret at 1.
  unfold bind at 1. unfold gets at 1.
  rewrite (bind_Return _ _ _ _ _ Hfc).
  unfold viewBytes, memoryView, cache_cacheTable, cache_add. run.
  rewrite Hmem, Hview. simpl.
  fold obj. fold vm2.
  subst c. change (idx256 vm2) with (idx256 vm1).
  destruct (IteratorCache.cacheTable (idx256 vm1) (Table.id tab)) as [ei c0].
  reflexivity.
Qed.

(** C2 (amended): a 32-byte value stored through [db_idx256_store] is
    kept in the index as its first 16 bytes reversed followed by its last
    16 bytes reversed (the halves keep their places), and
    [db_idx256_find_primary] applies the same map when it writes the key
    back, so that the guest buffer receives the raw 32 bytes again. *)
Theorem checksum256_reverses_halves_in_place
    (vm : VM) (_code _scope _table _payer _id data data_len out out_len : Z)
    (raw : bytes) :
  let id := convertToUnsigned _id in
  let sortBytes := reverse (take 16 raw) ++ reverse (drop 16 raw) in
  Memory.view (memory vm) data 32 = Some raw ->
  convertToUnsigned _payer <> 0 ->
  convertToUnsigned _code = Context.receiver (context vm) ->
  Memory.inBounds (memory vm) out 32 = true ->
  SecondaryKeyConverter.checksum256.from raw = sortBytes
  /\ SecondaryKeyConverter.checksum256.from sortBytes = raw
  /\ exists h vm1 obj,
       db_idx256_store _scope _table _payer _id data data_len vm = (Return h, vm1)
       /\ IteratorCache.get (idx256 vm1) h = Some obj
       /\ SecondaryKeyStore.get (Store.idx256 (Blockchain.store (bc vm1)))
            (IndexObject.tableId obj) id = Some obj
       /\ IndexObject.secondaryKey obj = sortBytes
       /\ memory vm1 = memory vm
       /\ exists h' vm2,
            db_idx256_find_primary _code _scope _table out out_len _id vm1
            = (Return h', vm2)
            /\ Memory.view (memory vm2) out 32 = Some raw.
Proof.
  intros id sortBytes Hview Hp Hcode Hout.
  assert (Hraw : length raw = 32%nat).
  { apply view_length in Hview. exact Hview. }
  assert (Hfrom : SecondaryKeyConverter.checksum256.from raw = sortBytes).
  { apply from_halves. exact Hraw. }
  split; [exact Hfrom|].
  split; [rewrite <- Hfrom; apply from_involutive; exact Hraw|].
  destruct (findOrCreateTable_result vm (Context.receiver (context vm))
              (convertToUnsigned _scope) (convertToUnsigned _table)
              (convertToUnsigned _payer))
    as (tab & vm1 & Hfc & Hfound & Hctx & Hcache & Hmem & _ & _).
  pose proof (db_idx256_store_run vm _scope _table _payer _id data data_len
                raw tab vm1 Hview Hp Hfc Hmem) as Hrun.
  cbv zeta in Hrun. fold id in Hrun. rewrite Hfrom in Hrun.
  set (obj := IndexObject.mk (Table.id tab) id sortBytes
                (convertToUnsigned _payer)) in *.
  set (vm2 := set_store _ vm1) in Hrun.
  set (c := snd (IteratorCache.cacheTable (idx256 vm2) (Table.id tab))) in Hrun.
  eexists. eexists. exists obj.
  split; [exact Hrun|].
  split; [apply (get_add c obj)|].
  split; [apply (secondary_get_set _ None obj)|].
  split; [reflexivity|].
  split; [exact Hmem|].
  (* the key is read back *)
  assert (Hout' : Memory.inBounds (memory vm1) out 32 = true)
    by (rewrite Hmem; exact Hout).
  destruct (in_bounds_view _ _ _ Hout') as [buffer Hbuf].
  assert (Hbuffer : length buffer = 32%nat).
  { apply view_length in Hbuf. exact Hbuf. }
  destruct (checksum256_converter raw buffer Hraw Hbuffer) as (_ & _ & Hto).
  rewrite from_halves in Hto by exact Hraw. fold sortBytes in Hto.
  assert (Hst : exists m', Memory.store (memory vm1) out raw = Some m').
  { apply store_in_bounds. rewrite Hraw. exact Hout'. }
  destruct Hst as [m' Hst].
  pose proof (view_store _ _ _ _ Hst) as Hback. rewrite Hraw in Hback.
  unfold db_idx256_find_primary, Buffer_from_, genericIndex.find_primary,
    findTable, convTo, viewBytes, memoryView, memoryStore,
    cache_cacheTable, cache_add.
  run. rewrite Hbuf. simpl. rewrite Hcode.
  rewrite findTable_with_idx256, Hfound.
  match goal with
  | |- context [IteratorCache.cacheTable ?x ?y] =>
      destruct (IteratorCache.cacheTable x y) as [ei c1]
  end.
  simpl. fold id.
  change (Table.id tab) with (IndexObject.tableId obj).
  change id with (IndexObject.primaryKey obj) at 1.
  unfold SecondaryKeyStore.samePrimary. rewrite !Z.eqb_refl. simpl.
  rewrite Hbuf. simpl. rewrite Hto. simpl. rewrite Hst. simpl.
  eexists. eexists. split; [reflexivity|]. exact Hback.
Qed.

Lemma checksum256_reverses_halves_in_place_witness :
  let vm := set_memory (raw_0_to_31 ++ replicate 32 x00) sampleVM in
  exists h vm1 obj,
    db_idx256_store scopeName tableName alice 7 0 32 vm = (Return h, vm1)
    /\ IteratorCache.get (idx256 vm1) h = Some obj
    /\ SecondaryKeyStore.get (Store.idx256 (Blockchain.store (bc vm1)))
         (IndexObject.tableId obj) 7 = Some obj
    /\ IndexObject.secondaryKey obj
       = reverse (take 16 raw_0_to_31) ++ reverse (drop 16 raw_0_to_31)
    /\ memory vm1 = memory vm
    /\ exists h' vm2,
         db_idx256_find_primary alice scopeName tableName 32 32 7 vm1
         = (Return h', vm2)
         /\ Memory.view (memory vm2) 32 32 = Some raw_0_to_31.
Proof.
  intros vm.
  refine (proj2 (proj2 (checksum256_reverses_halves_in_place
            vm alice scopeName tableName alice 7 0 32 32 32 raw_0_to_31
            eq_refl _ eq_refl eq_refl))).
  vm_compute. discriminate.
Defined.

(** ** Ordered queries on a table *)

Lemma greatest_is_max (l : list KeyValueObject.t) (m : KeyValueObject.t) :
  Table.greatest l = Some m ->
  m ∈ l /\ forall r, r ∈ l ->
             KeyValueObject.primaryKey r <= KeyValueObject.primaryKey m.
Proof.
  revert m. induction l as [|x l IH]; simpl; intros m Hm; [discriminate|].
  destruct (Table.greatest l) as [g|] eqn:Hg.
  - destruct (IH g eq_refl) as [Hin Hmax].
    destruct (KeyValueObject.primaryKey g <? KeyValueObject.primaryKey x) eqn:Hlt;
      injection Hm as <-.
    + apply Z.ltb_lt in Hlt. split; [left|].
      intros r Hr. apply elem_of_cons in Hr as [->|Hr]; [lia|].
      specialize (Hmax r Hr). lia.
    + apply Z.ltb_ge in Hlt. split; [right; exact Hin|].
      intros r Hr. apply elem_of_cons in Hr as [->|Hr]; [lia|].
      apply Hmax. exact Hr.
  - injection Hm as <-. destruct l as [|y l]; [|simpl in Hg;
      destruct (Table.greatest l); [destruct (_ <? _)|]; discriminate].
    split; [left|]. intros r Hr. apply elem_of_cons in Hr as [->|Hr]; [lia|].
    inversion Hr.
Qed.

Lemma least_is_min (l : list KeyValueObject.t) (m : KeyValueObject.t) :
  Table.least l = Some m ->
  m ∈ l /\ forall r, r ∈ l ->
             KeyValueObject.primaryKey m <= KeyValueObject.primaryKey r.
Proof.
  revert m. induction l as [|x l IH]; simpl; intros m Hm; [discriminate|].
  destruct (Table.least l) as [g|] eqn:Hg.
  - destruct (IH g eq_refl) as [Hin Hmin].
    destruct (KeyValueObject.primaryKey x <? KeyValueObject.primaryKey g) eqn:Hlt;
      injection Hm as <-.
    + apply Z.ltb_lt in Hlt. split; [left|].
      intros r Hr. apply elem_of_cons in Hr as [->|Hr]; [lia|].
      specialize (Hmin r Hr). lia.
    + apply Z.ltb_ge in Hlt. split; [right; exact Hin|].
      intros r Hr. apply elem_of_cons in Hr as [->|Hr]; [lia|].
      apply Hmin. exact Hr.
  - injection Hm as <-. destruct l as [|y l]; [|simpl in Hg;
      destruct (Table.least l); [destruct (_ <? _)|]; discriminate].
    split; [left|]. intros r Hr. apply elem_of_cons in Hr as [->|Hr]; [lia|].
    inversion Hr.
Qed.

Lemma greatest_nonempty (l : list KeyValueObject.t) :
  l <> [] -> exists m, Table.greatest l = Some m.
Proof.
  destruct l as [|x l]; [contradiction|]. intros _. simpl.
  destruct (Table.greatest l); [destruct (_ <? _)|]; eauto.
Qed.

Lemma select_none (p : Z -> bool) (tab : Table.t) :
  (forall r, r ∈ Table.rows tab -> p (KeyValueObject.primaryKey r) = false) ->
  Table.select p tab = [].
Proof.
  unfold Table.select. induction (Table.rows tab) as [|x l IH]; intros Hp;
    [reflexivity|]. simpl. rewrite (Hp x) by left.
  apply IH. intros r Hr. apply Hp. right. exact Hr.
Qed.

Lemma next_of_last (tab : Table.t) (key : Z) :
  lastKey tab key -> Table.next tab key = None.
Proof.
  intros [_ Hmax]. unfold Table.next. rewrite select_none; [reflexivity|].
  intros r Hr. apply Z.ltb_ge. apply Hmax. exact Hr.
Qed.

Lemma prev_of_first (tab : Table.t) (key : Z) :
  firstKey tab key -> Table.prev tab key = None.
Proof.
  intros [_ Hmin]. unfold Table.prev. rewrite select_none; [reflexivity|].
  intros r Hr. apply Z.ltb_ge. apply Hmin. exact Hr.
Qed.

Lemma penultimate_is_last (tab : Table.t) (kv : KeyValueObject.t) :
  Table.penultimate tab = Some kv ->
  kv ∈ Table.rows tab /\ lastKey tab (KeyValueObject.primaryKey kv).
Proof.
  intros Hp. destruct (greatest_is_max _ _ Hp) as [Hin Hmax].
  split; [exact Hin|]. split; [eauto|exact Hmax].
Qed.

Lemma get_absent (tab : Table.t) (key : Z) :
  (forall r, r ∈ Table.rows tab -> KeyValueObject.primaryKey r <> key) ->
  Table.get tab key = None.
Proof.
  unfold Table.get. induction (Table.rows tab) as [|x l IH]; intros Hp;
    [reflexivity|]. simpl.
  rewrite (proj2 (Z.eqb_neq _ _) (Hp x ltac:(left))).
  apply IH. intros r Hr. apply Hp. right. exact Hr.
Qed.

Lemma lowerbound_absent (tab : Table.t) (key : Z) :
  (forall r, r ∈ Table.rows tab -> KeyValueObject.primaryKey r < key) ->
  Table.lowerbound tab key = None.
Proof.
  intros Hp. unfold Table.lowerbound. rewrite select_none; [reflexivity|].
  intros r Hr. apply Z.leb_gt. apply Hp. exact Hr.
Qed.

Lemma upperbound_absent (tab : Table.t) (key : Z) :
  (forall r, r ∈ Table.rows tab -> KeyValueObject.primaryKey r <= key) ->
  Table.upperbound tab key = None.
Proof.
  intros Hp. unfold Table.upperbound. rewrite select_none; [reflexivity|].
  intros r Hr. apply Z.ltb_ge. apply Hp. exact Hr.
Qed.

(** ** End iterators *)

Lemma indexOf_lookup (tableId : Z) (l : list Z) (i : nat) :
  IteratorCache.indexOf tableId l = Some i -> l !! i = Some tableId.
Proof.
  revert i. induction l as [|x l IH]; simpl; intros i Hi; [discriminate|].
  destruct (x =? tableId) eqn:Hx.
  - injection Hi as <-. apply Z.eqb_eq in Hx. subst. reflexivity.
  - destruct (IteratorCache.indexOf tableId l) as [j|]; [|discriminate].
    injection Hi as <-. simpl. apply IH. reflexivity.
Qed.

Lemma indexOf_app_new (tableId : Z) (l : list Z) :
  IteratorCache.indexOf tableId l = None ->
  IteratorCache.indexOf tableId (l ++ [tableId]) = Some (length l).
Proof.
  induction l as [|x l IH]; simpl; intros Hn.
  - rewrite Z.eqb_refl. reflexivity.
  - destruct (x =? tableId); [discriminate|].
    destruct (IteratorCache.indexOf tableId l); [discriminate|].
    rewrite IH by reflexivity. reflexivity.
Qed.

Lemma endIterator_below_minus_1 {T} (c : IteratorCache.t T) (tableId e : Z) :
  IteratorCache.getEndIteratorByTableId c tableId = Some e -> e < -1.
Proof.
  unfold IteratorCache.getEndIteratorByTableId, IteratorCache.indexToEndIterator.
  destruct (IteratorCache.indexOf _ _); [|discriminate].
  intros [= <-]. lia.
Qed.

Lemma findTableByEndIterator_of_table {T} (c : IteratorCache.t T) (tableId e : Z) :
  IteratorCache.getEndIteratorByTableId c tableId = Some e ->
  IteratorCache.findTableByEndIterator c e = Some tableId.
Proof.
  intros He. pose proof (endIterator_below_minus_1 _ _ _ He) as Hlt.
  unfold IteratorCache.getEndIteratorByTableId in He.
  destruct (IteratorCache.indexOf _ _) as [i|] eqn:Hi; [|discriminate].
  injection He as <-. unfold IteratorCache.findTableByEndIterator.
  rewrite (proj2 (Z.ltb_lt _ _) Hlt).
  unfold IteratorCache.endIteratorToIndex, IteratorCache.indexToEndIterator.
  replace (Z.to_nat (- - (Z.of_nat i + 2) - 2)) with i by lia.
  apply indexOf_lookup. exact Hi.
Qed.

Lemma findTableByEndIterator_below {T} (c : IteratorCache.t T) (e tableId : Z) :
  IteratorCache.findTableByEndIterator c e = Some tableId -> e < -1.
Proof.
  unfold IteratorCache.findTableByEndIterator.
  destruct (e <? -1) eqn:He; [|discriminate]. intros _.
  apply Z.ltb_lt. exact He.
Qed.

(** [cacheTable] answers with an end iterator below -1 under which the
    table is then found, and with the one already assigned, the cache left
    untouched, when there is one. *)
Lemma cacheTable_result {T} (c : IteratorCache.t T) (tableId : Z) :
  let e := fst (IteratorCache.cacheTable c tableId) in
  let c' := snd (IteratorCache.cacheTable c tableId) in
  e < -1
  /\ IteratorCache.getEndIteratorByTableId c' tableId = Some e
  /\ IteratorCache.findTableByEndIterator c' e = Some tableId
  /\ (forall e0, IteratorCache.getEndIteratorByTableId c tableId = Some e0 ->
                 e = e0 /\ c' = c).
Proof.
  intros e c'.
  assert (Hget : IteratorCache.getEndIteratorByTableId c' tableId = Some e).
  { subst e c'. unfold IteratorCache.cacheTable.
    destruct (IteratorCache.getEndIteratorByTableId c tableId) as [e0|] eqn:He0;
      simpl; [exact He0|].
    unfold IteratorCache.getEndIteratorByTableId in *. simpl.
    destruct (IteratorCache.indexOf tableId (IteratorCache.endIteratorToTable c))
      eqn:Hi; [discriminate|].
    rewrite indexOf_app_new by exact Hi. reflexivity. }
  split; [eapply endIterator_below_minus_1; exact Hget|].
  split; [exact Hget|].
  split; [apply findTableByEndIterator_of_table; exact Hget|].
  intros e0 He0. subst e c'. unfold IteratorCache.cacheTable.
  rewrite He0. split; reflexivity.
Qed.

(** ** Iterator conventions of the primary index *)

Lemma get_handle_nonneg {T} (c : IteratorCache.t T) (h : Z) (o : T) :
  IteratorCache.get c h = Some o -> 0 <= h.
Proof.
  unfold IteratorCache.get. destruct (h <? 0) eqn:Hh; [discriminate|].
  intros _. apply Z.ltb_ge. exact Hh.
Qed.

Lemma writeUInt64_in_bounds (m : Memory.t) (ptr v : Z) :
  Memory.inBounds m ptr 8 = true ->
  exists m', Memory.writeUInt64 m ptr v = Some m'
             /\ Memory.view m' ptr 8 = Some (Memory.uint64LE v).
Proof.
  intros Hb. unfold Memory.writeUInt64.
  destruct (store_in_bounds m ptr (Memory.uint64LE v) Hb) as [m' Hst].
  exists m'. split; [exact Hst|]. exact (view_store _ _ _ _ Hst).
Qed.

Lemma db_next_i64_on_last (vm : VM) (h primary : Z)
    (kv : KeyValueObject.t) (tab : Table.t) (e : Z) :
  IteratorCache.get (kvCache vm) h = Some kv ->
  Store.getTableById (Blockchain.store (bc vm)) (KeyValueObject.tableId kv)
  = Some tab ->
  IteratorCache.getEndIteratorByTableId (kvCache vm) (KeyValueObject.tableId kv)
  = Some e ->
  lastKey tab (KeyValueObject.primaryKey kv) ->
  db_next_i64 h primary vm = (Return e, vm).
Proof.
  intros Hget Htab Hend Hlast. unfold db_next_i64.
  pose proof (get_handle_nonneg _ _ _ Hget) as Hh.
  rewrite (proj2 (Z.ltb_ge _ _)) by lia.
  unfold kvCache_get, getTableById, kvCache_getEndIteratorByTableId. run.
  rewrite Hget. simpl. rewrite Htab. simpl.
  rewrite (next_of_last _ _ Hlast). rewrite Hend. reflexivity.
Qed.

Lemma db_next_i64_on_end (vm : VM) (e primary : Z) :
  e < -1 -> db_next_i64 e primary vm = (Return (-1), vm).
Proof.
  intros He. unfold db_next_i64. rewrite (proj2 (Z.ltb_lt _ _) He). reflexivity.
Qed.

Lemma db_previous_i64_on_end (vm : VM) (e primary tabId : Z) (tab : Table.t) :
  IteratorCache.findTableByEndIterator (kvCache vm) e = Some tabId ->
  Store.getTableById (Blockchain.store (bc vm)) tabId = Some tab ->
  (Table.rows tab = [] -> db_previous_i64 e primary vm = (Return (-1), vm))
  /\ (Table.rows tab <> [] ->
      Memory.inBounds (memory vm) primary 8 = true ->
      exists h kv vm',
        db_previous_i64 e primary vm = (Return h, vm')
        /\ 0 <= h
        /\ IteratorCache.get (kvCache vm') h = Some kv
        /\ kv ∈ Table.rows tab
        /\ lastKey tab (KeyValueObject.primaryKey kv)
        /\ Memory.view (memory vm') primary 8
           = Some (Memory.uint64LE (KeyValueObject.primaryKey kv))
        /\ bc vm' = bc vm).
Proof.
  intros Hfind Htab.
  pose proof (findTableByEndIterator_below _ _ _ Hfind) as He.
  unfold db_previous_i64. rewrite (proj2 (Z.ltb_lt _ _) He).
  unfold getTableById, memoryWriteUInt64, kvCache_add. run.
  rewrite Hfind, Htab. simpl. split.
  - intros Hrows. unfold Table.penultimate. rewrite Hrows. reflexivity.
  - intros Hrows Hb.
    destruct (greatest_nonempty _ Hrows) as [kv Hkv].
    destruct (penultimate_is_last tab kv Hkv) as [Hin Hlast].
    unfold Table.penultimate. rewrite Hkv.
    destruct (writeUInt64_in_bounds (memory vm) primary
                (KeyValueObject.primaryKey kv) Hb) as (m' & Hw & Hv).
    rewrite Hw. simpl.
    eexists. exists kv. eexists. split; [reflexivity|].
    split; [lia|]. split; [apply (get_add (kvCache vm) kv)|].
    split; [exact Hin|]. split; [exact Hlast|]. split; [exact Hv|reflexivity].
Qed.

Lemma db_previous_i64_on_first (vm : VM) (h primary : Z)
    (kv : KeyValueObject.t) (tab : Table.t) :
  IteratorCache.get (kvCache vm) h = Some kv ->
  Store.getTableById (Blockchain.store (bc vm)) (KeyValueObject.tableId kv)
  = Some tab ->
  firstKey tab (KeyValueObject.primaryKey kv) ->
  db_previous_i64 h primary vm = (Return (-1), vm).
Proof.
  intros Hget Htab Hfirst. unfold db_previous_i64.
  pose proof (get_handle_nonneg _ _ _ Hget) as Hh.
  rewrite (proj2 (Z.ltb_ge _ _)) by lia.
  unfold kvCache_get, getTableById. run.
  rewrite Hget. simpl. rewrite Htab. simpl.
  rewrite (prev_of_first _ _ Hfirst). reflexivity.
Qed.

Lemma lookups_without_table (vm : VM) (_code _scope _table _id : Z) :
  Store.findTable (Blockchain.store (bc vm)) (convertToUnsigned _code)
    (convertToUnsigned _scope) (convertToUnsigned _table) = None ->
  db_find_i64 _code _scope _table _id vm = (Return (-1), vm)
  /\ db_lowerbound_i64 _code _scope _table _id vm = (Return (-1), vm)
  /\ db_upperbound_i64 _code _scope _table _id vm = (Return (-1), vm).
Proof.
  intros Hnone.
  unfold db_find_i64, db_lowerbound_i64, db_upperbound_i64, findTable. run.
  rewrite Hnone. repeat split; reflexivity.
Qed.

Lemma lookups_without_row (vm : VM) (_code _scope _table _id : Z) (tab : Table.t) :
  Store.findTable (Blockchain.store (bc vm)) (convertToUnsigned _code)
    (convertToUnsigned _scope) (convertToUnsigned _table) = Some tab ->
  let id := convertToUnsigned _id in
  let e := fst (IteratorCache.cacheTable (kvCache vm) (Table.id tab)) in
  let vm' := set_kvCache
               (snd (IteratorCache.cacheTable (kvCache vm) (Table.id tab))) vm in
  ((forall r, r ∈ Table.rows tab -> KeyValueObject.primaryKey r <> id) ->
   db_find_i64 _code _scope _table _id vm = (Return e, vm'))
  /\ ((forall r, r ∈ Table.rows tab -> KeyValueObject.primaryKey r < id) ->
      db_lowerbound_i64 _code _scope _table _id vm = (Return e, vm'))
  /\ ((forall r, r ∈ Table.rows tab -> KeyValueObject.primaryKey r <= id) ->
      db_upperbound_i64 _code _scope _table _id vm = (Return e, vm')).
Proof.
  intros Hsome id e vm'. subst e vm'.
  unfold db_find_i64, db_lowerbound_i64, db_upperbound_i64, findTable,
    kvCache_cacheTable. run.
  rewrite Hsome. fold id.
  destruct (IteratorCache.cacheTable (kvCache vm) (Table.id tab)) as [e c'].
  simpl. repeat split; intros Hp.
  - rewrite (get_absent _ _ Hp). reflexivity.
  - rewrite (lowerbound_absent _ _ Hp). reflexivity.
  - rewrite (upperbound_absent _ _ Hp). reflexivity.
Qed.

(** C3: on a handle of the last row of a visited table [db_next_i64]
    returns the table's end iterator, and on any value below -1 it returns
    -1; on a table's end iterator [db_previous_i64] returns -1 when the
    table is empty and otherwise a handle of a row with the greatest
    primary key, whose key it writes to guest memory; on a handle of the
    first row it returns -1; [db_find_i64], [db_lowerbound_i64] and
    [db_upperbound_i64] return -1 when the table does not exist and, when
    it exists and no row answers the query, the table's end iterator, which
    is below -1 and is the one the table already had if it was visited. *)
Theorem primary_iterator_conventions :
  (forall vm h primary kv tab e,
      IteratorCache.get (kvCache vm) h = Some kv ->
      Store.getTableById (Blockchain.store (bc vm)) (KeyValueObject.tableId kv)
      = Some tab ->
      IteratorCache.getEndIteratorByTableId (kvCache vm)
        (KeyValueObject.tableId kv) = Some e ->
      lastKey tab (KeyValueObject.primaryKey kv) ->
      db_next_i64 h primary vm = (Return e, vm) /\ e < -1)
  /\ (forall vm e primary,
        e < -1 -> db_next_i64 e primary vm = (Return (-1), vm))
  /\ (forall vm e primary tab,
        IteratorCache.getEndIteratorByTableId (kvCache vm) (Table.id tab) = Some e ->
        Store.getTableById (Blockchain.store (bc vm)) (Table.id tab) = Some tab ->
        (Table.rows tab = [] ->
         db_previous_i64 e primary vm = (Return (-1), vm))
        /\ (Table.rows tab <> [] ->
            Memory.inBounds (memory vm) primary 8 = true ->
            exists h kv vm',
              db_previous_i64 e primary vm = (Return h, vm')
              /\ 0 <= h
              /\ IteratorCache.get (kvCache vm') h = Some kv
              /\ kv ∈ Table.rows tab
              /\ lastKey tab (KeyValueObject.primaryKey kv)
              /\ Memory.view (memory vm') primary 8
                 = Some (Memory.uint64LE (KeyValueObject.primaryKey kv))
              /\ bc vm' = bc vm))
  /\ (forall vm h primary kv tab,
        IteratorCache.get (kvCache vm) h = Some kv ->
        Store.getTableById (Blockchain.store (bc vm)) (KeyValueObject.tableId kv)
        = Some tab ->
        firstKey tab (KeyValueObject.primaryKey kv) ->
        db_previous_i64 h primary vm = (Return (-1), vm))
  /\ (forall vm _code _scope _table _id,
        Store.findTable (Blockchain.store (bc vm)) (convertToUnsigned _code)
          (convertToUnsigned _scope) (convertToUnsigned _table) = None ->
        db_find_i64 _code _scope _table _id vm = (Return (-1), vm)
        /\ db_lowerbound_i64 _code _scope _table _id vm = (Return (-1), vm)
        /\ db_upperbound_i64 _code _scope _table _id vm = (Return (-1), vm))
  /\ (forall vm _code _scope _table _id tab,
        Store.findTable (Blockchain.store (bc vm)) (convertToUnsigned _code)
          (convertToUnsigned _scope) (convertToUnsigned _table) = Some tab ->
        let id := convertToUnsigned _id in
        exists e vm',
          e < -1
          /\ IteratorCache.getEndIteratorByTableId (kvCache vm') (Table.id tab)
             = Some e
          /\ IteratorCache.findTableByEndIterator (kvCache vm') e
             = Some (Table.id tab)
          /\ (forall e0,
                IteratorCache.getEndIteratorByTableId (kvCache vm) (Table.id tab)
                = Some e0 -> e = e0 /\ vm' = vm)
          /\ ((forall r, r ∈ Table.rows tab -> KeyValueObject.primaryKey r <> id) ->
              db_find_i64 _code _scope _table _id vm = (Return e, vm'))
          /\ ((forall r, r ∈ Table.rows tab -> KeyValueObject.primaryKey r < id) ->
              db_lowerbound_i64 _code _scope _table _id vm = (Return e, vm'))
          /\ ((forall r, r ∈ Table.rows tab -> KeyValueObject.primaryKey r <= id) ->
              db_upperbound_i64 _code _scope _table _id vm = (Return e, vm'))).
Proof.
  split; [|split; [|split; [|split; [|split]]]].
  - intros vm h primary kv tab e Hget Htab Hend Hlast.
    split; [apply (db_next_i64_on_last vm h primary kv tab e); assumption|].
    eapply endIterator_below_minus_1. exact Hend.
  - exact db_next_i64_on_end.
  - intros vm e primary tab Hend Htab.
    apply (db_previous_i64_on_end vm e primary (Table.id tab) tab);
      [apply findTableByEndIterator_of_table; exact Hend|exact Htab].
  - exact db_previous_i64_on_first.
  - exact lookups_without_table.
  - intros vm _code _scope _table _id tab Hsome id.
    destruct (cacheTable_result (kvCache vm) (Table.id tab))
      as (Hlt & Hget & Hfind & Hstable).
    destruct (lookups_without_row vm _code _scope _table _id tab Hsome)
      as (Hf & Hl & Hu).
    exists (fst (IteratorCache.cacheTable (kvCache vm) (Table.id tab))).
    exists (set_kvCache
              (snd (IteratorCache.cacheTable (kvCache vm) (Table.id tab))) vm).
    split; [exact Hlt|]. split; [exact Hget|].
    split; [exact Hfind|]. split.
    + intros e0 He0. destruct (Hstable e0 He0) as [H1 H2].
      split; [exact H1|]. rewrite H2. destruct vm. reflexivity.
    + split; [exact Hf|]. split; [exact Hl|exact Hu].
Qed.

Lemma storedTable_keys (r : KeyValueObject.t) :
  r ∈ Table.rows storedTable ->
  1 <= KeyValueObject.primaryKey r <= 5.
Proof.
  intros Hr. apply list_elem_of_In in Hr. simpl in Hr.
  destruct Hr as [<-|[<-|[<-|[]]]]; simpl; lia.
Qed.

Lemma primary_iterator_conventions_witness :
  (db_next_i64 2 0 storedVM = (Return (-2), storedVM) /\ -2 < -1)
  /\ db_next_i64 (-2) 0 storedVM = (Return (-1), storedVM)
  /\ (exists h kv vm',
        db_previous_i64 (-2) 0 storedVM = (Return h, vm')
        /\ 0 <= h
        /\ IteratorCache.get (kvCache vm') h = Some kv
        /\ kv ∈ Table.rows storedTable
        /\ lastKey storedTable (KeyValueObject.primaryKey kv)
        /\ Memory.view (memory vm') 0 8
           = Some (Memory.uint64LE (KeyValueObject.primaryKey kv))
        /\ bc vm' = bc storedVM)
  /\ db_previous_i64 0 0 storedVM = (Return (-1), storedVM)
  /\ db_find_i64 bob scopeName tableName 4 storedVM = (Return (-1), storedVM).
Proof.
  assert (Hlast : lastKey storedTable 5).
  { split; [exists (storedRow 5); split; [left|reflexivity]|].
    intros r Hr. apply storedTable_keys in Hr. lia. }
  assert (Hfirst : firstKey storedTable 1).
  { split; [exists (storedRow 1); split; [do 2 right; left|reflexivity]|].
    intros r Hr. apply storedTable_keys in Hr. lia. }
  destruct primary_iterator_conventions as (Hn & He & Hp & Hf & Hm & _).
  split.
  { apply (Hn storedVM 2 0 (storedRow 5) storedTable (-2));
      [vm_compute; reflexivity ..|exact Hlast]. }
  split.
  { apply (He storedVM (-2) 0). lia. }
  split.
  { apply (proj2 (Hp storedVM (-2) 0 storedTable
                    ltac:(vm_compute; reflexivity)
                    ltac:(vm_compute; reflexivity)));
      [discriminate|vm_compute; reflexivity]. }
  split.
  { apply (Hf storedVM 0 0 (storedRow 1) storedTable);
      [vm_compute; reflexivity ..|exact Hfirst]. }
  apply (Hm storedVM bob scopeName tableName 4). vm_compute. reflexivity.
Defined.

(** With the primary keys 1, 3 and 5 stored: the lower bound of 4 is the
    row 5, its predecessor is the row 3, and the successor of the row 5 is
    the end iterator of the table. *)
Example lowerbound_previous_next_on_1_3_5 :
  let '(h, vm1) := db_lowerbound_i64 alice scopeName tableName 4 storedVM in
  let '(p, vm2) := db_previous_i64 3 0 vm1 in
  let '(n, vm3) := db_next_i64 3 0 vm2 in
  h = Return 3
  /\ IteratorCache.get (kvCache vm1) 3 = Some (storedRow 5)
  /\ p = Return 4
  /\ IteratorCache.get (kvCache vm2) 4 = Some (storedRow 3)
  /\ Memory.view (memory vm2) 0 8 = Some (Memory.uint64LE 3)
  /\ n = Return (-2)
  /\ IteratorCache.findTableByEndIterator (kvCache vm3) (-2) = Some 0.
Proof. vm_compute. repeat split. Qed.

(** ** apply and finalize *)

Lemma checkAuthorization_reads_only
    (isAuthoritySatisfied : Authority.t -> PermissionLevel.t -> bool)
    (authorization : list PermissionLevel.t) (vm : VM) :
  snd (checkAuthorization isAuthoritySatisfied authorization vm) = vm.
Proof.
  induction authorization as [|auth rest IH]; simpl; [reflexivity|].
  unfold getAccount. run.
  destruct (Blockchain.getAccount (bc vm) (PermissionLevel.actor auth));
    [|reflexivity].
  destruct (List.find _ _); [|reflexivity].
  destruct (Context.isInline (context vm)).
  - destruct (isAuthoritySatisfied _ _); simpl; [|reflexivity].
    destruct (checkAuthorization isAuthoritySatisfied rest vm) as [[u|e] vm1] eqn:H;
      simpl in IH; subst vm1; reflexivity.
  - simpl.
    destruct (checkAuthorization isAuthoritySatisfied rest vm) as [[u|e] vm1] eqn:H;
      simpl in IH; subst vm1; reflexivity.
Qed.

Lemma finalize_destroys (vm : VM) : cachesDestroyed (finalize vm).
Proof. repeat split. Qed.

Lemma empty_noIteratorValid {T} : noIteratorValid (@IteratorCache.empty T).
Proof.
  split; [|split].
  - intros h. unfold IteratorCache.get. simpl.
    destruct (h <? 0); [reflexivity|]. destruct (Z.to_nat h); reflexivity.
  - intros e. unfold IteratorCache.findTableByEndIterator. simpl.
    destruct (e <? -1); [|reflexivity].
    destruct (IteratorCache.endIteratorToIndex e); reflexivity.
  - intros tableId. reflexivity.
Qed.

(** C10: once the authorization checks of [apply] have passed, whatever
    the guest's [apply] export does (return, throw an assertion error, throw
    the [eosio_exit] sentinel), [apply] ends with the same outcome in the
    state the guest reached with all five iterator caches replaced by fresh
    ones, so that no handle and no end iterator is valid any more, while the
    chain state is kept; when a check fails the guest is not run and the
    machine, its fresh caches included, is left as it was.  In every case
    a machine whose caches are fresh before [apply] has them fresh after. *)
Theorem apply_finalizes_on_every_exit
    (isAuthoritySatisfied : Authority.t -> PermissionLevel.t -> bool)
    (exports_apply : Z -> Z -> Z -> M unit)
    (vm : VM) (ctx : Context.t) :
  let vm0 := set_context ctx vm in
  let guest := exports_apply (Context.receiver ctx) (Context.firstReceiver ctx)
                 (Context.action ctx) in
  (fst (checkAuthorization isAuthoritySatisfied (Context.authorization ctx) vm0)
   = Return tt ->
   forall outcome vm1,
     guest vm0 = (outcome, vm1) ->
     apply isAuthoritySatisfied exports_apply ctx vm = (outcome, finalize vm1)
     /\ cachesDestroyed (finalize vm1)
     /\ noIteratorValid (kvCache (finalize vm1))
     /\ noIteratorValid (idx64 (finalize vm1))
     /\ noIteratorValid (idx128 (finalize vm1))
     /\ noIteratorValid (idx256 (finalize vm1))
     /\ noIteratorValid (idxDouble (finalize vm1))
     /\ bc (finalize vm1) = bc vm1
     /\ memory (finalize vm1) = memory vm1)
  /\ (forall e,
        fst (checkAuthorization isAuthoritySatisfied (Context.authorization ctx) vm0)
        = Throw e ->
        apply isAuthoritySatisfied exports_apply ctx vm = (Throw e, vm0))
  /\ (cachesDestroyed vm ->
      cachesDestroyed (snd (apply isAuthoritySatisfied exports_apply ctx vm))).
Proof.
  intros vm0 guest.
  pose proof (checkAuthorization_reads_only isAuthoritySatisfied
                (Context.authorization ctx) vm0) as Hro.
  assert (Hrun : apply isAuthoritySatisfied exports_apply ctx vm
                 = match fst (checkAuthorization isAuthoritySatisfied
                                (Context.authorization ctx) vm0) with
                   | Return _ => (fst (guest vm0), finalize (snd (guest vm0)))
                   | Throw e => (Throw e, vm0)
                   end).
  { unfold apply. run. fold vm0.
    destruct (checkAuthorization isAuthoritySatisfied
                (Context.authorization ctx) vm0) as [[u|e] vm1];
      simpl in Hro; subst vm1; simpl; [|reflexivity].
    fold guest. destruct (guest vm0). reflexivity. }
  split; [|split].
  - intros Hok outcome vm1 Hguest. rewrite Hrun, Hok, Hguest. simpl.
    split; [reflexivity|]. split; [apply finalize_destroys|].
    repeat (split; [apply empty_noIteratorValid|]).
    split; reflexivity.
  - intros e He. rewrite Hrun, He. reflexivity.
  - intros Hfresh. rewrite Hrun.
    destruct (fst (checkAuthorization _ _ vm0)); simpl;
      [apply finalize_destroys|exact Hfresh].
Qed.

Lemma apply_finalizes_on_every_exit_witness :
  exists vm1,
    guestStoreThenExit alice alice (Name_from "act") sampleVM
    = (Throw (EosioExitResult 0), vm1)
    /\ apply allowAll guestStoreThenExit (blankContext alice) sampleVM
       = (Throw (EosioExitResult 0), finalize vm1)
    /\ IteratorCache.get (kvCache vm1) 0 <> None
    /\ cachesDestroyed (finalize vm1)
    /\ noIteratorValid (kvCache (finalize vm1))
    /\ bc (finalize vm1) = bc vm1.
Proof.
  eexists. split; [vm_compute; reflexivity|].
  pose proof (proj1 (apply_finalizes_on_every_exit
                       allowAll guestStoreThenExit sampleVM (blankContext alice))
                eq_refl _ _ ltac:(vm_compute; reflexivity)) as H.
  split; [exact (proj1 H)|].
  split; [vm_compute; discriminate|].
  split; [exact (proj1 (proj2 H))|].
  split; [exact (proj1 (proj2 (proj2 H)))|].
  exact (proj1 (proj2 (proj2 (proj2 (proj2 (proj2 (proj2 (proj2 H)))))))).
Defined.

(** A guest that stores a row and calls [eosio_exit(0)]: [apply] ends
    with the exit sentinel, the row is in the store, and nothing was
    queued. *)
Example exit_after_store_keeps_row :
  let '(outcome, vm') :=
    apply allowAll guestStoreThenExit (blankContext alice) sampleVM in
  outcome = Throw (EosioExitResult 0)
  /\ (exists tab,
        Store.findTable (Blockchain.store (bc vm')) alice scopeName tableName
        = Some tab
        /\ Table.has tab 7 = true)
  /\ Context.actionsQueue (context vm') = []
  /\ Context.notificationsQueue (context vm') = []
  /\ kvCache vm' = IteratorCache.empty.
Proof.
  vm_compute. split; [reflexivity|]. split; [|repeat split].
  eexists. split; reflexivity.
Qed.

(** ** The store stays well formed *)

Lemma find_unique {A K} (k : A -> K) (p : A -> bool) (l : list A) (x : A) :
  NoDup (List.map k l) ->
  In x l ->
  (forall y, p y = true <-> k y = k x) ->
  List.find p l = Some x.
Proof.
  intros Hnd Hin Hp. induction l as [|y l IH]; [contradiction|].
  simpl in *. apply NoDup_cons in Hnd as [Hy Hnd].
  destruct (p y) eqn:Hpy.
  - apply Hp in Hpy. destruct Hin as [->|Hin]; [reflexivity|].
    exfalso. apply Hy. rewrite Hpy. apply list_elem_of_In.
    apply in_map. exact Hin.
  - destruct Hin as [->|Hin].
    + assert (p x = true) by (apply Hp; reflexivity). congruence.
    + apply IH; assumption.
Qed.

Lemma triple_eqb (tab : Table.t) (code scope table : Z) :
  (Table.code tab =? code) && (Table.scope tab =? scope)
    && (Table.table tab =? table) = true
  <-> tableTriple tab = (code, scope, table).
Proof.
  unfold tableTriple. rewrite !andb_true_iff, !Z.eqb_eq.
  split; [intros [[-> ->] ->]; reflexivity|intros [= -> -> ->]; auto].
Qed.

Lemma findTable_In (st : Store.t) (code scope table : Z) (tab : Table.t) :
  Store.findTable st code scope table = Some tab ->
  In tab (Store.tables st) /\ tableTriple tab = (code, scope, table).
Proof.
  unfold Store.findTable. intros H. apply find_some in H as [Hin Hp].
  split; [exact Hin|]. apply triple_eqb. exact Hp.
Qed.

Lemma getTableById_In (st : Store.t) (id : Z) (tab : Table.t) :
  Store.getTableById st id = Some tab ->
  In tab (Store.tables st) /\ Table.id tab = id.
Proof.
  unfold Store.getTableById. intros H. apply find_some in H as [Hin Hp].
  split; [exact Hin|]. apply Z.eqb_eq. exact Hp.
Qed.

(** In a well-formed store a table is the one found under its id and the
    one found under its triple. *)
Lemma wellFormed_lookup (st : Store.t) (tab : Table.t) :
  storeWellFormed st ->
  tab ∈ Store.tables st ->
  Store.getTableById st (Table.id tab) = Some tab
  /\ Store.findTable st (Table.code tab) (Table.scope tab) (Table.table tab)
     = Some tab.
Proof.
  intros (Hids & _ & Htriples & _) Hin. apply list_elem_of_In in Hin. split.
  - apply (find_unique Table.id); [exact Hids|exact Hin|].
    intros y. apply Z.eqb_eq.
  - apply (find_unique tableTriple); [exact Htriples|exact Hin|].
    intros y. apply triple_eqb.
Qed.

Lemma wellFormed_empty : storeWellFormed Store.empty.
Proof.
  split; [constructor|]. split; [intros tab Hin; inversion Hin|].
  split; [constructor|]. intros tab Hin. inversion Hin.
Qed.

Lemma wellFormed_createTable (st : Store.t) (code scope table payer : Z) :
  storeWellFormed st ->
  Store.findTable st code scope table = None ->
  storeWellFormed (snd (Store.createTable st code scope table payer)).
Proof.
  intros (Hids & Hbound & Htriples & Htabs) Hnone. simpl.
  split; [|split; [|split]]; simpl.
  - rewrite List.map_app. simpl. apply NoDup_app. split; [exact Hids|].
    split; [|apply NoDup_singleton].
    intros x Hx Hx'. apply list_elem_of_In in Hx.
    apply in_map_iff in Hx as (t & <- & Ht).
    apply list_elem_of_singleton in Hx'.
    apply list_elem_of_In in Ht. specialize (Hbound t Ht). lia.
  - intros tab Hin. apply elem_of_app in Hin as [Hin|Hin].
    + specialize (Hbound tab Hin). lia.
    + apply list_elem_of_singleton in Hin. subst tab. simpl. lia.
  - rewrite List.map_app. simpl. apply NoDup_app. split; [exact Htriples|].
    split; [|apply NoDup_singleton].
    intros x Hx Hx'. apply list_elem_of_In in Hx.
    apply in_map_iff in Hx as (t & <- & Ht).
    apply list_elem_of_singleton in Hx'.
    unfold Store.findTable in Hnone.
    pose proof (find_none _ _ Hnone t Ht) as Hp. simpl in Hp.
    assert (Hq : (Table.code t =? code) && (Table.scope t =? scope)
                 && (Table.table t =? table) = true).
    { apply triple_eqb. exact Hx'. }
    congruence.
  - intros tab Hin. apply elem_of_app in Hin as [Hin|Hin];
      [apply Htabs; exact Hin|].
    apply list_elem_of_singleton in Hin. subst tab.
    split; simpl; [constructor|]. intros r Hr. inversion Hr.
Qed.

(** A mutation of one table that keeps its identity and its well-formedness
    keeps the store well formed. *)
Lemma wellFormed_modifyTable (st : Store.t) (id : Z) (f : Table.t -> Table.t) :
  storeWellFormed st ->
  (forall tab, Table.id (f tab) = Table.id tab
               /\ tableTriple (f tab) = tableTriple tab) ->
  (forall tab, Table.id tab = id -> tableWellFormed tab ->
               tableWellFormed (f tab)) ->
  storeWellFormed (Store.modifyTable id f st).
Proof.
  intros (Hids & Hbound & Htriples & Htabs) Hsame Hwf.
  set (g := fun tab => if Table.id tab =? id then f tab else tab).
  assert (Hg : forall tab, Table.id (g tab) = Table.id tab
                           /\ tableTriple (g tab) = tableTriple tab).
  { intros tab. unfold g. destruct (Table.id tab =? id); [apply Hsame|auto]. }
  unfold Store.modifyTable. fold g. split; [|split; [|split]]; simpl.
  - rewrite List.map_map.
    rewrite (List.map_ext _ Table.id (fun tab => proj1 (Hg tab))). exact Hids.
  - intros tab Hin. apply list_elem_of_In in Hin.
    apply in_map_iff in Hin as (t & <- & Ht).
    rewrite (proj1 (Hg t)). apply Hbound. apply list_elem_of_In. exact Ht.
  - rewrite List.map_map.
    rewrite (List.map_ext _ tableTriple (fun tab => proj2 (Hg tab))).
    exact Htriples.
  - intros tab Hin. apply list_elem_of_In in Hin.
    apply in_map_iff in Hin as (t & <- & Ht).
    apply list_elem_of_In in Ht. specialize (Htabs t Ht).
    unfold g. destruct (Table.id t =? id) eqn:Hid; [|exact Htabs].
    apply Hwf; [apply Z.eqb_eq; exact Hid|exact Htabs].
Qed.

Lemma select_In (p : Z -> bool) (tab : Table.t) (r : KeyValueObject.t) :
  In r (Table.select p tab)
  <-> In r (Table.rows tab) /\ p (KeyValueObject.primaryKey r) = true.
Proof. unfold Table.select. apply filter_In. Qed.

Lemma NoDup_map_filter {A K} (k : A -> K) (p : A -> bool) (l : list A) :
  NoDup (List.map k l) -> NoDup (List.map k (List.filter p l)).
Proof.
  induction l as [|x l IH]; simpl; intros Hnd; [constructor|].
  apply NoDup_cons in Hnd as [Hx Hnd]. destruct (p x); simpl; [|auto].
  apply NoDup_cons. split; [|auto].
  intros Hin. apply Hx. apply list_elem_of_In in Hin.
  apply in_map_iff in Hin as (y & Hy & Hin). apply filter_In in Hin as [Hin _].
  apply list_elem_of_In. rewrite <- Hy. apply in_map. exact Hin.
Qed.

Lemma tableWellFormed_set (tab : Table.t) (key : Z) (kv : KeyValueObject.t) :
  KeyValueObject.primaryKey kv = key ->
  KeyValueObject.tableId kv = Table.id tab ->
  tableWellFormed tab ->
  tableWellFormed (Table.set key kv tab).
Proof.
  intros Hkey Hid [Hnd Hrows]. split; simpl.
  - apply NoDup_cons. split.
    + intros Hin. apply list_elem_of_In in Hin.
      apply in_map_iff in Hin as (y & Hy & Hin).
      apply select_In in Hin as [_ Hp].
      apply negb_true_iff, Z.eqb_neq in Hp. congruence.
    + apply NoDup_map_filter. exact Hnd.
  - intros r Hr. apply elem_of_cons in Hr as [->|Hr]; [exact Hid|].
    apply list_elem_of_In, select_In in Hr as [Hr _].
    apply Hrows. apply list_elem_of_In. exact Hr.
Qed.

Lemma tableWellFormed_delete (tab : Table.t) (key : Z) :
  tableWellFormed tab -> tableWellFormed (Table.delete key tab).
Proof.
  intros [Hnd Hrows]. split; simpl.
  - apply NoDup_map_filter. exact Hnd.
  - intros r Hr. apply list_elem_of_In, select_In in Hr as [Hr _].
    apply Hrows. apply list_elem_of_In. exact Hr.
Qed.

Lemma set_keeps_identity (key : Z) (kv : KeyValueObject.t) (tab : Table.t) :
  Table.id (Table.set key kv tab) = Table.id tab
  /\ tableTriple (Table.set key kv tab) = tableTriple tab.
Proof. split; reflexivity. Qed.

Lemma delete_keeps_identity (key : Z) (tab : Table.t) :
  Table.id (Table.delete key tab) = Table.id tab
  /\ tableTriple (Table.delete key tab) = tableTriple tab.
Proof. split; reflexivity. Qed.

Lemma wellFormed_findOrCreateTable (vm : VM) (code scope table payer : Z)
    (tab : Table.t) (vm1 : VM) :
  storeWellFormed (Blockchain.store (bc vm)) ->
  findOrCreateTable code scope table payer vm = (Return tab, vm1) ->
  storeWellFormed (Blockchain.store (bc vm1)).
Proof.
  intros Hwf. rewrite findOrCreateTable_run.
  destruct (Store.findTable (Blockchain.store (bc vm)) code scope table) eqn:Hf.
  - intros [= _ <-]. exact Hwf.
  - intros [= _ <-]. simpl. apply wellFormed_createTable; assumption.
Qed.

Lemma db_store_i64_keeps_well_formed (vm : VM) (_scope _table _payer _id data len : Z) :
  storeWellFormed (Blockchain.store (bc vm)) ->
  storeWellFormed
    (Blockchain.store (bc (snd (db_store_i64 _scope _table _payer _id data len vm)))).
Proof.
  intros Hwf.
  destruct (findOrCreateTable_result vm (Context.receiver (context vm))
              (convertToUnsigned _scope) (convertToUnsigned _table)
              (convertToUnsigned _payer))
    as (tab & vm1 & Hfc & _).
  pose proof (wellFormed_findOrCreateTable _ _ _ _ _ _ _ Hwf Hfc) as Hwf1.
  rewrite (db_store_i64_run vm _scope _table _payer _id data len tab vm1 Hfc).
  destruct (convertToUnsigned _payer =? 0); [exact Hwf1|].
  destruct (Table.has tab (convertToUnsigned _id)); [exact Hwf1|].
  destruct (Memory.view (memory vm1) data len) as [value|]; [|exact Hwf1].
  simpl. apply wellFormed_modifyTable; [exact Hwf1|apply set_keeps_identity|].
  intros tab' Hid Htab'. apply tableWellFormed_set; [reflexivity| |exact Htab'].
  simpl. symmetry. exact Hid.
Qed.

Lemma db_update_i64_keeps_well_formed (vm : VM) (iterator _payer data len : Z) :
  storeWellFormed (Blockchain.store (bc vm)) ->
  storeWellFormed
    (Blockchain.store (bc (snd (db_update_i64 iterator _payer data len vm)))).
Proof.
  intros Hwf.
  unfold db_update_i64, kvCache_get, kvCache_getTable, getTableById, memoryView.
  run.
  destruct (IteratorCache.get (kvCache vm) iterator) as [kvPrev|]; [|exact Hwf].
  simpl.
  destruct (IteratorCache.getEndIteratorByTableId _ _); [|exact Hwf]. simpl.
  destruct (Store.getTableById _ _) as [tab|] eqn:Htab; [|exact Hwf]. simpl.
  destruct (Table.code tab =? _); [|exact Hwf]. simpl.
  destruct (Memory.view (memory vm) data len) as [value|]; [|exact Hwf]. simpl.
  apply getTableById_In in Htab as [_ Hid].
  apply wellFormed_modifyTable; [exact Hwf|apply set_keeps_identity|].
  intros tab' Hid' Htab'. apply tableWellFormed_set; [reflexivity| |exact Htab'].
  simpl. congruence.
Qed.

Lemma db_remove_i64_keeps_well_formed (vm : VM) (iterator : Z) :
  storeWellFormed (Blockchain.store (bc vm)) ->
  storeWellFormed (Blockchain.store (bc (snd (db_remove_i64 iterator vm)))).
Proof.
  intros Hwf.
  unfold db_remove_i64, kvCache_get, kvCache_getTable, getTableById. run.
  destruct (IteratorCache.get (kvCache vm) iterator) as [kv|]; [|exact Hwf].
  simpl.
  destruct (IteratorCache.getEndIteratorByTableId _ _); [|exact Hwf]. simpl.
  destruct (Store.getTableById _ _) as [tab|]; [|exact Hwf]. simpl.
  destruct (Table.code tab =? _); [|exact Hwf]. simpl.
  apply wellFormed_modifyTable; [exact Hwf|apply delete_keeps_identity|].
  intros tab' _ Htab'. apply tableWellFormed_delete. exact Htab'.
Qed.

(** X1: whatever their arguments and whether they return or throw,
    [db_store_i64], [db_update_i64] and [db_remove_i64] leave a well-formed
    store well formed: table ids stay unique, there is one table per (code,
    scope, table), and within every table the primary keys are pairwise
    different and every row carries the id of its table. *)
Theorem db_writes_keep_store_well_formed (vm : VM) :
  storeWellFormed (Blockchain.store (bc vm)) ->
  (forall _scope _table _payer _id data len,
      storeWellFormed
        (Blockchain.store
           (bc (snd (db_store_i64 _scope _table _payer _id data len vm)))))
  /\ (forall iterator _payer data len,
        storeWellFormed
          (Blockchain.store
             (bc (snd (db_update_i64 iterator _payer data len vm)))))
  /\ (forall iterator,
        storeWellFormed
          (Blockchain.store (bc (snd (db_remove_i64 iterator vm))))).
Proof.
  intros Hwf. split; [|split]; intros.
  - apply db_store_i64_keeps_well_formed. exact Hwf.
  - apply db_update_i64_keeps_well_formed. exact Hwf.
  - apply db_remove_i64_keeps_well_formed. exact Hwf.
Qed.

Lemma db_writes_keep_store_well_formed_witness :
  storeWellFormed
    (Blockchain.store
       (bc (snd (db_store_i64 scopeName tableName alice 7 0 4 sampleVM)))).
Proof.
  apply (proj1 (db_writes_keep_store_well_formed sampleVM wellFormed_empty)).
Defined.

(** ** Copying out of the host *)

Lemma store_other (m m' : bytes) (ptr : Z) (source : bytes) (i : nat) :
  Memory.store m ptr source = Some m' ->
  (i < Z.to_nat ptr \/ Z.to_nat ptr + length source <= i)%nat ->
  m' !! i = m !! i.
Proof.
  unfold Memory.store.
  destruct (Memory.inBounds m ptr _) eqn:Hb; [|discriminate].
  intros [= <-] Hi. apply inBounds_spec in Hb.
  assert (Ht : length (take (Z.to_nat ptr) m) = Z.to_nat ptr).
  { rewrite length_take. lia. }
  destruct Hi as [Hi|Hi].
  - rewrite lookup_app_l by (rewrite Ht; exact Hi).
    apply lookup_take_lt. exact Hi.
  - rewrite lookup_app_r by (rewrite Ht; lia). rewrite Ht.
    rewrite lookup_app_r by lia.
    rewrite lookup_drop. f_equal. lia.
Qed.

Lemma copyOut_query (source : bytes) (ptr : Z) (vm : VM) :
  copyOut source ptr 0 vm = (Return (Z.of_nat (length source)), vm).
Proof. reflexivity. Qed.

Lemma copyOut_copy (source : bytes) (ptr len : Z) (vm : VM) :
  len <> 0 ->
  Memory.inBounds (memory vm) ptr len = true ->
  let size := Z.min len (Z.of_nat (length source)) in
  exists mem',
    copyOut source ptr len vm = (Return size, set_memory mem' vm)
    /\ Memory.store (memory vm) ptr (take (Z.to_nat size) source) = Some mem'
    /\ Memory.view mem' ptr size = Some (take (Z.to_nat size) source).
Proof.
  intros Hlen Hb size.
  pose proof (proj1 (inBounds_spec _ _ _) Hb) as (Hp & Hl & Hend).
  assert (Hsize : length (take (Z.to_nat size) source) = Z.to_nat size).
  { rewrite length_take. lia. }
  assert (Hb' : Memory.inBounds (memory vm) ptr
                  (Z.of_nat (length (take (Z.to_nat size) source))) = true).
  { apply inBounds_spec. rewrite Hsize. lia. }
  destruct (store_in_bounds _ _ _ Hb') as [mem' Hst].
  exists mem'. split; [|split; [exact Hst|]].
  - unfold copyOut. rewrite (proj2 (Z.eqb_neq _ _) Hlen).
    unfold memoryView, memoryStore. run.
    unfold Memory.view. rewrite Hb. simpl. fold size. rewrite Hst. reflexivity.
  - pose proof (view_store _ _ _ _ Hst) as Hv. rewrite Hsize in Hv.
    replace (Z.of_nat (Z.to_nat size)) with size in Hv by lia. exact Hv.
Qed.

Lemma copyOut_out_of_bounds (source : bytes) (ptr len : Z) (vm : VM) :
  len <> 0 ->
  Memory.inBounds (memory vm) ptr len = false ->
  copyOut source ptr len vm = (Throw RangeError, vm).
Proof.
  intros Hlen Hb. unfold copyOut. rewrite (proj2 (Z.eqb_neq _ _) Hlen).
  unfold memoryView. run. unfold Memory.view. rewrite Hb. reflexivity.
Qed.

(** X2: [read_action_data] with [len] zero returns the payload length and
    touches nothing; with a buffer of [len <> 0] bytes inside guest memory
    it returns [min(len, payload length)], writes that many leading bytes
    of the payload at [msg] and changes no other byte of memory; with a
    buffer outside guest memory (or a negative [len]) it throws and leaves
    the machine as it was. *)
Theorem read_action_data_copies_prefix (vm : VM) (msg len : Z) :
  let data := Context.data (context vm) in
  let size := Z.min len (Z.of_nat (length data)) in
  read_action_data msg 0 vm = (Return (Z.of_nat (length data)), vm)
  /\ (len <> 0 -> Memory.inBounds (memory vm) msg len = true ->
      exists mem',
        read_action_data msg len vm = (Return size, set_memory mem' vm)
        /\ Memory.view mem' msg size = Some (take (Z.to_nat size) data)
        /\ length mem' = length (memory vm)
        /\ forall i : nat,
             (i < Z.to_nat msg \/ Z.to_nat msg + Z.to_nat size <= i)%nat ->
             mem' !! i = memory vm !! i)
  /\ (len <> 0 -> Memory.inBounds (memory vm) msg len = false ->
      read_action_data msg len vm = (Throw RangeError, vm)).
Proof.
  intros data size. unfold read_action_data. run. fold data.
  split; [reflexivity|]. split.
  - intros Hlen Hb.
    destruct (copyOut_copy data msg len vm Hlen Hb) as (mem' & Hrun & Hst & Hv).
    exists mem'. split; [exact Hrun|]. split; [exact Hv|].
    split; [eapply store_length; exact Hst|].
    intros i Hi. eapply store_other; [exact Hst|].
    rewrite length_take.
    pose proof (proj1 (inBounds_spec _ _ _) Hb). fold size. lia.
  - intros Hlen Hb. apply copyOut_out_of_bounds; assumption.
Qed.

Lemma read_action_data_copies_prefix_witness :
  exists mem',
    read_action_data 8 3 payloadVM = (Return 3, set_memory mem' payloadVM)
    /\ Memory.view mem' 8 3 = Some [x01; x02; x03]
    /\ length mem' = 64%nat
    /\ forall i : nat, (i < 8 \/ 11 <= i)%nat -> mem' !! i = memory payloadVM !! i.
Proof.
  refine (proj1 (proj2 (read_action_data_copies_prefix payloadVM 8 3)) _ eq_refl).
  discriminate.
Defined.

(** ** Reading rows back *)

Lemma cacheTable_get {T} (c : IteratorCache.t T) (tableId h : Z) :
  IteratorCache.get (snd (IteratorCache.cacheTable c tableId)) h
  = IteratorCache.get c h.
Proof.
  unfold IteratorCache.get. rewrite cacheTable_objects. reflexivity.
Qed.

(** The state [db_store_i64] reaches when it succeeds. *)
Lemma db_store_i64_stored (vm : VM) (_scope _table _payer _id data len : Z)
    (value : bytes) :
  let scope := convertToUnsigned _scope in
  let table := convertToUnsigned _table in
  let payer := convertToUnsigned _payer in
  let id := convertToUnsigned _id in
  let receiver := Context.receiver (context vm) in
  payer <> 0 ->
  (forall tab, Store.findTable (Blockchain.store (bc vm)) receiver scope table
               = Some tab -> Table.has tab id = false) ->
  Memory.view (memory vm) data len = Some value ->
  exists h vm' tab,
    db_store_i64 _scope _table _payer _id data len vm = (Return h, vm')
    /\ let kv := KeyValueObject.mk (Table.id tab) id payer value in
       IteratorCache.get (kvCache vm') h = Some kv
       /\ (forall h' o, IteratorCache.get (kvCache vm) h' = Some o ->
                        IteratorCache.get (kvCache vm') h' = Some o)
       /\ memory vm' = memory vm
       /\ context vm' = context vm
       /\ Store.findTable (Blockchain.store (bc vm')) receiver scope table
          = Some (Table.set id kv tab)
       /\ (exists e, IteratorCache.getEndIteratorByTableId (kvCache vm')
                       (Table.id tab) = Some e).
Proof.
  intros scope table payer id receiver Hp Hfree Hview.
  destruct (findOrCreateTable_result vm receiver scope table payer)
    as (tab & vm1 & Hfc & Hfound & Hctx & Hcache & Hmem & Hold & Hnew).
  exists (fst (IteratorCache.add
                 (snd (IteratorCache.cacheTable (kvCache vm1) (Table.id tab)))
                 (KeyValueObject.mk (Table.id tab) id payer value))).
  eexists. exists tab. split.
  - rewrite (db_store_i64_run vm _scope _table _payer _id data len tab vm1 Hfc).
    fold scope table payer id.
    rewrite (proj2 (Z.eqb_neq _ _) Hp).
    assert (Hhas : Table.has tab id = false).
    { destruct (Store.findTable (Blockchain.store (bc vm)) receiver scope table)
        as [t|] eqn:Hex.
      - destruct (Hold t eq_refl) as [-> _]. apply (Hfree t). reflexivity.
      - unfold Table.has, Table.get. rewrite (Hnew eq_refl). reflexivity. }
    rewrite Hhas, Hmem, Hview. reflexivity.
  - cbv zeta. simpl. split; [apply get_add|]. split.
    { intros h' o Ho. apply get_add_old. rewrite cacheTable_get.
      rewrite Hcache. exact Ho. }
    split; [exact Hmem|]. split; [exact Hctx|]. split.
    { rewrite findTable_modifyTable. fold receiver in Hfound.
      rewrite Hfound. simpl. rewrite Z.eqb_refl. reflexivity. }
    exists (fst (IteratorCache.cacheTable (kvCache vm1) (Table.id tab))).
    unfold IteratorCache.add, IteratorCache.getEndIteratorByTableId. simpl.
    apply (proj1 (proj2 (cacheTable_result (kvCache vm1) (Table.id tab)))).
Qed.

Lemma db_get_i64_run (vm : VM) (h data len : Z) (kv : KeyValueObject.t) :
  IteratorCache.get (kvCache vm) h = Some kv ->
  db_get_i64 h data len vm = copyOut (KeyValueObject.value kv) data len vm.
Proof.
  intros Hget. unfold db_get_i64, kvCache_get. run. rewrite Hget. reflexivity.
Qed.

(** X3: the bytes stored with [db_store_i64] are what [db_get_i64] gives
    for the returned handle: asked with length zero it returns their
    number and touches nothing; asked with a buffer of [n <> 0] bytes it
    writes their first [min(n, length)] bytes there and returns that
    number, so a buffer as long as the value receives the value exactly. *)
Theorem db_store_then_get_round_trip
    (vm : VM) (_scope _table _payer _id data len out n : Z) (value : bytes) :
  let scope := convertToUnsigned _scope in
  let table := convertToUnsigned _table in
  let id := convertToUnsigned _id in
  let receiver := Context.receiver (context vm) in
  convertToUnsigned _payer <> 0 ->
  (forall tab, Store.findTable (Blockchain.store (bc vm)) receiver scope table
               = Some tab -> Table.has tab id = false) ->
  Memory.view (memory vm) data len = Some value ->
  n <> 0 ->
  Memory.inBounds (memory vm) out n = true ->
  exists h vm1,
    db_store_i64 _scope _table _payer _id data len vm = (Return h, vm1)
    /\ db_get_i64 h out 0 vm1 = (Return (Z.of_nat (length value)), vm1)
    /\ exists mem2,
         let size := Z.min n (Z.of_nat (length value)) in
         db_get_i64 h out n vm1 = (Return size, set_memory mem2 vm1)
         /\ Memory.view mem2 out size = Some (take (Z.to_nat size) value)
         /\ (n = Z.of_nat (length value) ->
             Memory.view mem2 out n = Some value).
Proof.
  intros scope table id receiver Hp Hfree Hview Hn Hout.
  destruct (db_store_i64_stored vm _scope _table _payer _id data len value
              Hp Hfree Hview)
    as (h & vm1 & tab & Hrun & Hget & _ & Hmem & _).
  exists h, vm1. split; [exact Hrun|].
  rewrite !(db_get_i64_run vm1 h _ _ _ Hget). simpl KeyValueObject.value.
  split; [apply copyOut_query|].
  assert (Hout1 : Memory.inBounds (memory vm1) out n = true)
    by (rewrite Hmem; exact Hout).
  destruct (copyOut_copy value out n vm1 Hn Hout1) as (mem2 & Hcopy & _ & Hv).
  exists mem2. cbv zeta. split; [exact Hcopy|]. split; [exact Hv|].
  intros ->. rewrite Z.min_id in Hv. rewrite Nat2Z.id in Hv.
  rewrite firstn_all in Hv. exact Hv.
Qed.

Lemma db_store_then_get_round_trip_witness :
  exists h vm1,
    db_store_i64 scopeName tableName alice 7 4 4 filledVM = (Return h, vm1)
    /\ db_get_i64 h 40 0 vm1 = (Return 4, vm1)
    /\ exists mem2,
         db_get_i64 h 40 4 vm1 = (Return 4, set_memory mem2 vm1)
         /\ Memory.view mem2 40 4 = Some [x04; x05; x06; x07]
         /\ (4 = 4 -> Memory.view mem2 40 4 = Some [x04; x05; x06; x07]).
Proof.
  refine (db_store_then_get_round_trip
            filledVM scopeName tableName alice 7 4 4 40 4 [x04; x05; x06; x07]
            _ _ eq_refl _ eq_refl).
  - vm_compute. discriminate.
  - intros tab Hex. vm_compute in Hex. discriminate.
  - discriminate.
Defined.

(** ** Lookups in the primary index *)

Lemma indexOf_app_old (tableId x : Z) (l : list Z) (i : nat) :
  IteratorCache.indexOf tableId l = Some i ->
  IteratorCache.indexOf tableId (l ++ [x]) = Some i.
Proof.
  revert i. induction l as [|y l IH]; simpl; intros i Hi; [discriminate|].
  destruct (y =? tableId); [exact Hi|].
  destruct (IteratorCache.indexOf tableId l) as [j|]; [|discriminate].
  rewrite (IH j eq_refl). exact Hi.
Qed.

Lemma cacheTable_keeps_end {T} (c : IteratorCache.t T) (tab tableId e : Z) :
  IteratorCache.getEndIteratorByTableId c tableId = Some e ->
  IteratorCache.getEndIteratorByTableId
    (snd (IteratorCache.cacheTable c tab)) tableId = Some e.
Proof.
  intros He. unfold IteratorCache.cacheTable.
  destruct (IteratorCache.getEndIteratorByTableId c tab); [exact He|].
  unfold IteratorCache.getEndIteratorByTableId in *. simpl.
  destruct (IteratorCache.indexOf tableId (IteratorCache.endIteratorToTable c))
    as [i|] eqn:Hi; [|discriminate].
  rewrite (indexOf_app_old _ _ _ _ Hi). exact He.
Qed.

Lemma onlyExtendsCache_refl (vm : VM) : onlyExtendsCache vm vm.
Proof. repeat split; auto. Qed.

Lemma onlyExtendsCache_trans (vm1 vm2 vm3 : VM) :
  onlyExtendsCache vm1 vm2 -> onlyExtendsCache vm2 vm3 ->
  onlyExtendsCache vm1 vm3.
Proof.
  intros (Hb & Hc & Hh & He) (Hb' & Hc' & Hh' & He').
  split; [congruence|]. split; [congruence|]. split; auto.
Qed.

Lemma onlyExtendsCache_memory (vm : VM) (m : Memory.t) :
  onlyExtendsCache vm (set_memory m vm).
Proof. repeat split; auto. Qed.

Lemma onlyExtendsCache_add (vm : VM) (kv : KeyValueObject.t) :
  onlyExtendsCache vm (snd (kvCache_add kv vm)).
Proof.
  unfold kvCache_add. simpl. split; [reflexivity|]. split; [reflexivity|].
  split; [intros h o Ho; apply get_add_old; exact Ho|]. auto.
Qed.

Lemma kvCache_cacheTable_run (vm : VM) (tab : Table.t) :
  kvCache_cacheTable tab vm
  = (Return (fst (IteratorCache.cacheTable (kvCache vm) (Table.id tab))),
     set_kvCache (snd (IteratorCache.cacheTable (kvCache vm) (Table.id tab))) vm).
Proof.
  unfold kvCache_cacheTable.
  destruct (IteratorCache.cacheTable (kvCache vm) (Table.id tab)). reflexivity.
Qed.

Lemma onlyExtendsCache_cacheTable (vm : VM) (tab : Table.t) :
  onlyExtendsCache vm (snd (kvCache_cacheTable tab vm)).
Proof.
  rewrite kvCache_cacheTable_run. unfold onlyExtendsCache.
  cbn [snd set_kvCache kvCache bc context].
  split; [reflexivity|]. split; [reflexivity|]. split.
  - intros h o Ho. rewrite cacheTable_get. exact Ho.
  - intros tableId e He. apply cacheTable_keeps_end. exact He.
Qed.

(** Writing a key to guest memory and handing out a handle for the row. *)
Lemma onlyExtendsCache_write_add (vm : VM) (primary : Z) (kv : KeyValueObject.t) :
  onlyExtendsCache vm
    (snd ((memoryWriteUInt64 primary (KeyValueObject.primaryKey kv) ;;;
           kvCache_add kv) vm)).
Proof.
  unfold memoryWriteUInt64. run.
  destruct (Memory.writeUInt64 (memory vm) primary _) as [m|]; simpl;
    [|apply onlyExtendsCache_refl].
  eapply onlyExtendsCache_trans; [apply (onlyExtendsCache_memory vm m)|].
  apply (onlyExtendsCache_add (set_memory m vm) kv).
Qed.

Lemma db_next_i64_extends (vm : VM) (iterator primary : Z) :
  onlyExtendsCache vm (snd (db_next_i64 iterator primary vm)).
Proof.
  unfold db_next_i64. destruct (iterator <? -1); [apply onlyExtendsCache_refl|].
  unfold kvCache_get, getTableById, kvCache_getEndIteratorByTableId.
  unfold bind at 1. unfold bind at 1. unfold gets at 1. unfold orThrow at 1.
  destruct (IteratorCache.get (kvCache vm) iterator) as [kv|];
    [|apply onlyExtendsCache_refl].
  unfold ret at 1. unfold bind at 1. unfold bind at 1. unfold gets at 1.
  unfold orThrow at 1.
  destruct (Store.getTableById _ _) as [tab|]; [|apply onlyExtendsCache_refl].
  unfold ret at 1.
  destruct (Table.next tab _) as [kvNext|].
  - apply onlyExtendsCache_write_add.
  - run. destruct (IteratorCache.getEndIteratorByTableId _ _);
      apply onlyExtendsCache_refl.
Qed.

Lemma db_previous_i64_extends (vm : VM) (iterator primary : Z) :
  onlyExtendsCache vm (snd (db_previous_i64 iterator primary vm)).
Proof.
  unfold db_previous_i64. destruct (iterator <? -1).
  - unfold getTableById.
    unfold bind at 1. unfold gets at 1.
    destruct (IteratorCache.findTableByEndIterator _ _) as [tabId|];
      [|apply onlyExtendsCache_refl].
    unfold bind at 1. unfold bind at 1. unfold gets at 1. unfold orThrow at 1.
    destruct (Store.getTableById _ _) as [tab|]; [|apply onlyExtendsCache_refl].
    unfold ret at 1.
    destruct (Table.penultimate tab) as [kv|];
      [apply onlyExtendsCache_write_add|apply onlyExtendsCache_refl].
  - unfold kvCache_get, getTableById.
    unfold bind at 1. unfold bind at 1. unfold gets at 1. unfold orThrow at 1.
    destruct (IteratorCache.get (kvCache vm) iterator) as [kv|];
      [|apply onlyExtendsCache_refl].
    unfold ret at 1. unfold bind at 1. unfold bind at 1. unfold gets at 1.
    unfold orThrow at 1.
    destruct (Store.getTableById _ _) as [tab|]; [|apply onlyExtendsCache_refl].
    unfold ret at 1.
    destruct (Table.prev tab _) as [kvPrev|];
      [apply onlyExtendsCache_write_add|apply onlyExtendsCache_refl].
Qed.

(** The shape shared by [db_find_i64], [db_lowerbound_i64] and
    [db_upperbound_i64]: the table is recorded in the cache and the row the
    query selects, if any, gets a handle. *)
Lemma lookup_shape_extends (vm : VM) (tab : Table.t)
    (found : option KeyValueObject.t) :
  onlyExtendsCache vm
    (snd ((ei <- kvCache_cacheTable tab ;;
           match found with
           | None => ret ei
           | Some kv => kvCache_add kv
           end) vm)).
Proof.
  unfold bind.
  pose proof (onlyExtendsCache_cacheTable vm tab) as H1.
  destruct (kvCache_cacheTable tab vm) as [[ei|e] vm1] eqn:Hc; simpl in H1.
  - destruct found as [kv|]; [|exact H1].
    eapply onlyExtendsCache_trans; [exact H1|]. apply onlyExtendsCache_add.
  - exact H1.
Qed.

Lemma db_find_i64_extends (vm : VM) (_code _scope _table _id : Z) :
  onlyExtendsCache vm (snd (db_find_i64 _code _scope _table _id vm)).
Proof.
  unfold db_find_i64, findTable. unfold bind at 1. unfold gets at 1.
  destruct (Store.findTable _ _ _ _) as [tab|]; [|apply onlyExtendsCache_refl].
  apply lookup_shape_extends.
Qed.

Lemma db_lowerbound_i64_extends (vm : VM) (_code _scope _table _id : Z) :
  onlyExtendsCache vm (snd (db_lowerbound_i64 _code _scope _table _id vm)).
Proof.
  unfold db_lowerbound_i64, findTable. unfold bind at 1. unfold gets at 1.
  destruct (Store.findTable _ _ _ _) as [tab|]; [|apply onlyExtendsCache_refl].
  apply lookup_shape_extends.
Qed.

Lemma db_upperbound_i64_extends (vm : VM) (_code _scope _table _id : Z) :
  onlyExtendsCache vm (snd (db_upperbound_i64 _code _scope _table _id vm)).
Proof.
  unfold db_upperbound_i64, findTable. unfold bind at 1. unfold gets at 1.
  destruct (Store.findTable _ _ _ _) as [tab|]; [|apply onlyExtendsCache_refl].
  apply lookup_shape_extends.
Qed.

Lemma db_end_i64_extends (vm : VM) (_code _scope _table : Z) :
  onlyExtendsCache vm (snd (db_end_i64 _code _scope _table vm)).
Proof.
  unfold db_end_i64, findTable. unfold bind at 1. unfold gets at 1.
  destruct (Store.findTable _ _ _ _) as [tab|]; [|apply onlyExtendsCache_refl].
  apply onlyExtendsCache_cacheTable.
Qed.

Lemma db_get_i64_extends (vm : VM) (iterator data len : Z) :
  onlyExtendsCache vm (snd (db_get_i64 iterator data len vm)).
Proof.
  unfold db_get_i64, kvCache_get, copyOut, memoryView, memoryStore. run.
  destruct (IteratorCache.get (kvCache vm) iterator) as [kv|];
    [|apply onlyExtendsCache_refl].
  simpl. destruct (len =? 0); [apply onlyExtendsCache_refl|]. simpl.
  destruct (Memory.view (memory vm) data len); [|apply onlyExtendsCache_refl].
  simpl. destruct (Memory.store _ _ _); simpl;
    [apply onlyExtendsCache_memory|apply onlyExtendsCache_refl].
Qed.

(** X4: the reading intrinsics of the primary index ([db_find_i64],
    [db_lowerbound_i64], [db_upperbound_i64], [db_end_i64], [db_next_i64],
    [db_previous_i64], [db_get_i64]), whatever their arguments and whether
    they return or throw, never change the chain state or the context,
    never invalidate or redirect a handle that resolved before, and never
    change the end iterator of a table. *)
Theorem primary_lookups_only_extend_cache (vm : VM) :
  (forall _code _scope _table _id,
      onlyExtendsCache vm (snd (db_find_i64 _code _scope _table _id vm))
      /\ onlyExtendsCache vm (snd (db_lowerbound_i64 _code _scope _table _id vm))
      /\ onlyExtendsCache vm (snd (db_upperbound_i64 _code _scope _table _id vm)))
  /\ (forall _code _scope _table,
        onlyExtendsCache vm (snd (db_end_i64 _code _scope _table vm)))
  /\ (forall iterator primary,
        onlyExtendsCache vm (snd (db_next_i64 iterator primary vm))
        /\ onlyExtendsCache vm (snd (db_previous_i64 iterator primary vm)))
  /\ (forall iterator data len,
        onlyExtendsCache vm (snd (db_get_i64 iterator data len vm))).
Proof.
  split; [|split; [|split]]; intros.
  - split; [apply db_find_i64_extends|].
    split; [apply db_lowerbound_i64_extends|apply db_upperbound_i64_extends].
  - apply db_end_i64_extends.
  - split; [apply db_next_i64_extends|apply db_previous_i64_extends].
  - apply db_get_i64_extends.
Qed.

(** ** What the lookups find *)

Lemma get_found (tab : Table.t) (key : Z) (kv : KeyValueObject.t) :
  Table.get tab key = Some kv ->
  kv ∈ Table.rows tab /\ KeyValueObject.primaryKey kv = key.
Proof.
  unfold Table.get. intros H. apply find_some in H as [Hin Hk].
  split; [apply list_elem_of_In; exact Hin|apply Z.eqb_eq; exact Hk].
Qed.

Lemma get_present (tab : Table.t) (r : KeyValueObject.t) :
  r ∈ Table.rows tab ->
  exists kv, Table.get tab (KeyValueObject.primaryKey r) = Some kv.
Proof.
  intros Hin. unfold Table.get.
  destruct (List.find _ (Table.rows tab)) as [kv|] eqn:Hf; [eauto|].
  apply list_elem_of_In in Hin.
  pose proof (find_none _ _ Hf r Hin) as Hp. simpl in Hp.
  rewrite Z.eqb_refl in Hp. discriminate.
Qed.

Lemma lookup_shape_run (vm : VM) (tab : Table.t) (found : option KeyValueObject.t) :
  let e := fst (IteratorCache.cacheTable (kvCache vm) (Table.id tab)) in
  let c := snd (IteratorCache.cacheTable (kvCache vm) (Table.id tab)) in
  (ei <- kvCache_cacheTable tab ;;
   match found with
   | None => ret ei
   | Some kv => kvCache_add kv
   end) vm
  = match found with
    | None => (Return e, set_kvCache c vm)
    | Some kv =>
        (Return (fst (IteratorCache.add c kv)),
         set_kvCache (snd (IteratorCache.add c kv)) (set_kvCache c vm))
    end.
Proof.
  intros e c. unfold bind. rewrite kvCache_cacheTable_run. fold e c.
  destruct found; reflexivity.
Qed.

(** X5: [db_find_i64] always returns; its value is a handle [>= 0] exactly
    when the table (code, scope, table) exists and holds a row under the
    key, and the handle then resolves to that row; otherwise the value is
    negative. *)
Theorem db_find_i64_handle_iff_row (vm : VM) (_code _scope _table _id : Z) :
  let found :=
    rowAt vm (convertToUnsigned _code) (convertToUnsigned _scope)
          (convertToUnsigned _table) (convertToUnsigned _id) in
  exists v vm',
    db_find_i64 _code _scope _table _id vm = (Return v, vm')
    /\ (0 <= v <-> exists kv, found = Some kv)
    /\ (v < 0 <-> found = None)
    /\ (forall kv, found = Some kv ->
          IteratorCache.get (kvCache vm') v = Some kv
          /\ KeyValueObject.primaryKey kv = convertToUnsigned _id).
Proof.
  intros found. subst found. unfold rowAt, db_find_i64, findTable.
  unfold bind at 1. unfold gets at 1.
  destruct (Store.findTable _ _ _ _) as [tab|]; simpl.
  - rewrite lookup_shape_run.
    destruct (Table.get tab (convertToUnsigned _id)) as [kv|] eqn:Hget.
    + eexists. eexists. split; [reflexivity|].
      rewrite add_handle.
      split; [split; [eauto|lia]|]. split; [split; [lia|discriminate]|].
      intros kv' [= <-]. split; [apply get_add|].
      apply get_found in Hget. tauto.
    + eexists. eexists. split; [reflexivity|].
      pose proof (proj1 (cacheTable_result (kvCache vm) (Table.id tab))) as Hlt.
      cbv zeta in Hlt.
      split; [split; [lia|intros [kv Hkv]; discriminate]|].
      split; [split; [reflexivity|lia]|]. discriminate.
  - exists (-1), vm. split; [reflexivity|].
    split; [split; [lia|intros [kv Hkv]; discriminate]|].
    split; [split; [reflexivity|lia]|]. discriminate.
Qed.

Lemma least_nonempty (l : list KeyValueObject.t) :
  l <> [] -> exists m, Table.least l = Some m.
Proof.
  destruct l as [|x l]; [contradiction|]. intros _. simpl.
  destruct (Table.least l); [destruct (_ <? _)|]; eauto.
Qed.

(** The first row of a table whose key satisfies [p], when [p] holds from
    some key upwards. *)
Lemma least_select (p : Z -> bool) (tab : Table.t) :
  (forall kv, Table.least (Table.select p tab) = Some kv ->
     kv ∈ Table.rows tab
     /\ p (KeyValueObject.primaryKey kv) = true
     /\ forall r, r ∈ Table.rows tab -> p (KeyValueObject.primaryKey r) = true ->
                  KeyValueObject.primaryKey kv <= KeyValueObject.primaryKey r)
  /\ (Table.least (Table.select p tab) = None <->
      forall r, r ∈ Table.rows tab -> p (KeyValueObject.primaryKey r) = false).
Proof.
  split.
  - intros kv Hl. destruct (least_is_min _ _ Hl) as [Hin Hmin].
    apply list_elem_of_In, select_In in Hin as [Hin Hp].
    split; [apply list_elem_of_In; exact Hin|]. split; [exact Hp|].
    intros r Hr Hpr. apply Hmin. apply list_elem_of_In, select_In.
    split; [apply list_elem_of_In; exact Hr|exact Hpr].
  - split.
    + intros Hn r Hr.
      destruct (p (KeyValueObject.primaryKey r)) eqn:Hp; [|reflexivity].
      assert (Hne : Table.select p tab <> []).
      { intros He. assert (Hin : In r (Table.select p tab)).
        { apply select_In. split; [apply list_elem_of_In; exact Hr|exact Hp]. }
        rewrite He in Hin. contradiction. }
      destruct (least_nonempty _ Hne) as [m Hm]. congruence.
    + intros Hall. rewrite (select_none p tab Hall). reflexivity.
Qed.

(** X6: on an existing table [db_lowerbound_i64] returns a handle of the
    row with the least primary key that is at least the given one, and
    [db_upperbound_i64] of the row with the least key strictly above it;
    each returns the negative end iterator exactly when the table has no
    such row. *)
Theorem db_bounds_find_first_row
    (vm : VM) (_code _scope _table _id : Z) (tab : Table.t) :
  Store.findTable (Blockchain.store (bc vm)) (convertToUnsigned _code)
    (convertToUnsigned _scope) (convertToUnsigned _table) = Some tab ->
  let id := convertToUnsigned _id in
  (exists v vm',
      db_lowerbound_i64 _code _scope _table _id vm = (Return v, vm')
      /\ (v < 0 <-> forall r, r ∈ Table.rows tab ->
                              KeyValueObject.primaryKey r < id)
      /\ (0 <= v ->
          exists kv,
            IteratorCache.get (kvCache vm') v = Some kv
            /\ kv ∈ Table.rows tab
            /\ id <= KeyValueObject.primaryKey kv
            /\ forall r, r ∈ Table.rows tab ->
                 id <= KeyValueObject.primaryKey r ->
                 KeyValueObject.primaryKey kv <= KeyValueObject.primaryKey r))
  /\ (exists v vm',
        db_upperbound_i64 _code _scope _table _id vm = (Return v, vm')
        /\ (v < 0 <-> forall r, r ∈ Table.rows tab ->
                                KeyValueObject.primaryKey r <= id)
        /\ (0 <= v ->
            exists kv,
              IteratorCache.get (kvCache vm') v = Some kv
              /\ kv ∈ Table.rows tab
              /\ id < KeyValueObject.primaryKey kv
              /\ forall r, r ∈ Table.rows tab ->
                   id < KeyValueObject.primaryKey r ->
                   KeyValueObject.primaryKey kv <= KeyValueObject.primaryKey r)).
Proof.
  intros Hsome id.
  pose proof (proj1 (cacheTable_result (kvCache vm) (Table.id tab))) as Hlt.
  cbv zeta in Hlt.
  split.
  - unfold db_lowerbound_i64, findTable. unfold bind at 1. unfold gets at 1.
    rewrite Hsome. rewrite lookup_shape_run. fold id. unfold Table.lowerbound.
    destruct (least_select (fun k => id <=? k) tab) as [Hsel Hnone].
    destruct (Table.least _) as [kv|] eqn:Hl.
    + destruct (Hsel kv eq_refl) as (Hin & Hp & Hmin).
      apply Z.leb_le in Hp.
      eexists. eexists. split; [reflexivity|]. rewrite add_handle. split.
      * split; [lia|]. intros Hall. specialize (Hall kv Hin). lia.
      * intros _. exists kv. split; [apply get_add|]. split; [exact Hin|].
        split; [exact Hp|]. intros r Hr Hle. apply Hmin; [exact Hr|].
        apply Z.leb_le. exact Hle.
    + eexists. eexists. split; [reflexivity|]. split; [|lia].
      split; [|intros _; lia]. intros _ r Hr.
      apply Z.leb_gt. apply (proj1 Hnone eq_refl). exact Hr.
  - unfold db_upperbound_i64, findTable. unfold bind at 1. unfold gets at 1.
    rewrite Hsome. rewrite lookup_shape_run. fold id. unfold Table.upperbound.
    destruct (least_select (fun k => id <? k) tab) as [Hsel Hnone].
    destruct (Table.least _) as [kv|] eqn:Hl.
    + destruct (Hsel kv eq_refl) as (Hin & Hp & Hmin).
      apply Z.ltb_lt in Hp.
      eexists. eexists. split; [reflexivity|]. rewrite add_handle. split.
      * split; [lia|]. intros Hall. specialize (Hall kv Hin). lia.
      * intros _. exists kv. split; [apply get_add|]. split; [exact Hin|].
        split; [exact Hp|]. intros r Hr Hle. apply Hmin; [exact Hr|].
        apply Z.ltb_lt. exact Hle.
    + eexists. eexists. split; [reflexivity|]. split; [|lia].
      split; [|intros _; lia]. intros _ r Hr.
      apply Z.ltb_ge. apply (proj1 Hnone eq_refl). exact Hr.
Qed.

Lemma db_bounds_find_first_row_witness :
  exists v vm',
    db_lowerbound_i64 alice scopeName tableName 4 storedVM = (Return v, vm')
    /\ (v < 0 <-> forall r, r ∈ Table.rows storedTable ->
                            KeyValueObject.primaryKey r < 4)
    /\ (0 <= v ->
        exists kv,
          IteratorCache.get (kvCache vm') v = Some kv
          /\ kv ∈ Table.rows storedTable
          /\ 4 <= KeyValueObject.primaryKey kv
          /\ forall r, r ∈ Table.rows storedTable ->
               4 <= KeyValueObject.primaryKey r ->
               KeyValueObject.primaryKey kv <= KeyValueObject.primaryKey r).
Proof.
  refine (proj1 (db_bounds_find_first_row
                   storedVM alice scopeName tableName 4 storedTable _)).
  vm_compute. reflexivity.
Defined.

(** ** Stepping forwards and back *)

Lemma greatest_select (p : Z -> bool) (tab : Table.t) (kv : KeyValueObject.t) :
  Table.greatest (Table.select p tab) = Some kv ->
  kv ∈ Table.rows tab
  /\ p (KeyValueObject.primaryKey kv) = true
  /\ forall r, r ∈ Table.rows tab -> p (KeyValueObject.primaryKey r) = true ->
               KeyValueObject.primaryKey r <= KeyValueObject.primaryKey kv.
Proof.
  intros Hg. destruct (greatest_is_max _ _ Hg) as [Hin Hmax].
  apply list_elem_of_In, select_In in Hin as [Hin Hp].
  split; [apply list_elem_of_In; exact Hin|]. split; [exact Hp|].
  intros r Hr Hpr. apply Hmax. apply list_elem_of_In, select_In.
  split; [apply list_elem_of_In; exact Hr|exact Hpr].
Qed.

(** The predecessor of the successor of a key of the table is that key. *)
Lemma prev_of_next (tab : Table.t) (key : Z) (kvNext : KeyValueObject.t) :
  (exists r, r ∈ Table.rows tab /\ KeyValueObject.primaryKey r = key) ->
  Table.next tab key = Some kvNext ->
  exists kvPrev,
    Table.prev tab (KeyValueObject.primaryKey kvNext) = Some kvPrev
    /\ KeyValueObject.primaryKey kvPrev = key
    /\ kvPrev ∈ Table.rows tab.
Proof.
  intros (r & Hr & Hkey) Hnext. unfold Table.next in Hnext.
  destruct (proj1 (least_select (fun k => key <? k) tab) kvNext Hnext)
    as (Hin & Hp & Hmin).
  apply Z.ltb_lt in Hp. unfold Table.prev.
  set (p := fun k => k <? KeyValueObject.primaryKey kvNext).
  assert (Hne : Table.select p tab <> []).
  { intros He. assert (Hi : In r (Table.select p tab)).
    { apply select_In. split; [apply list_elem_of_In; exact Hr|].
      unfold p. apply Z.ltb_lt. lia. }
    rewrite He in Hi. contradiction. }
  destruct (greatest_nonempty _ Hne) as [m Hm].
  destruct (greatest_select p tab m Hm) as (Hmin' & Hpm & Hmax).
  exists m. split; [exact Hm|]. split; [|exact Hmin'].
  unfold p in Hpm. apply Z.ltb_lt in Hpm.
  assert (Hge : key <= KeyValueObject.primaryKey m).
  { rewrite <- Hkey. apply Hmax; [exact Hr|]. unfold p. apply Z.ltb_lt. lia. }
  destruct (Z.eq_dec (KeyValueObject.primaryKey m) key) as [|Hne']; [assumption|].
  assert (Hgt : key < KeyValueObject.primaryKey m) by lia.
  specialize (Hmin m Hmin' (proj2 (Z.ltb_lt _ _) Hgt)). lia.
Qed.

(** X7: when the row of a handle is in its table and has a successor,
    [db_next_i64] returns a handle of the successor and writes its key to
    guest memory, and [db_previous_i64] on that handle leads back to a row
    with the primary key the walk started from. *)
Theorem db_previous_undoes_db_next
    (vm : VM) (h primary : Z) (kv : KeyValueObject.t) (tab : Table.t) :
  IteratorCache.get (kvCache vm) h = Some kv ->
  Store.getTableById (Blockchain.store (bc vm)) (KeyValueObject.tableId kv)
  = Some tab ->
  (exists r, r ∈ Table.rows tab
             /\ KeyValueObject.primaryKey r = KeyValueObject.primaryKey kv) ->
  (forall r, r ∈ Table.rows tab ->
             KeyValueObject.tableId r = KeyValueObject.tableId kv) ->
  ~ lastKey tab (KeyValueObject.primaryKey kv) ->
  Memory.inBounds (memory vm) primary 8 = true ->
  exists h1 vm1 kvNext h2 vm2 kvBack,
    db_next_i64 h primary vm = (Return h1, vm1)
    /\ IteratorCache.get (kvCache vm1) h1 = Some kvNext
    /\ KeyValueObject.primaryKey kv < KeyValueObject.primaryKey kvNext
    /\ Memory.view (memory vm1) primary 8
       = Some (Memory.uint64LE (KeyValueObject.primaryKey kvNext))
    /\ db_previous_i64 h1 primary vm1 = (Return h2, vm2)
    /\ IteratorCache.get (kvCache vm2) h2 = Some kvBack
    /\ KeyValueObject.primaryKey kvBack = KeyValueObject.primaryKey kv
    /\ Memory.view (memory vm2) primary 8
       = Some (Memory.uint64LE (KeyValueObject.primaryKey kv)).
Proof.
  intros Hget Htab Hrow Hids Hnotlast Hb.
  pose proof (get_handle_nonneg _ _ _ Hget) as Hh.
  (* a successor exists *)
  destruct (Table.next tab (KeyValueObject.primaryKey kv)) as [kvNext|] eqn:Hnext.
  2:{ exfalso. apply Hnotlast. split; [exact Hrow|].
      intros r Hr. apply Z.ltb_ge.
      apply (proj1 (proj2 (least_select _ tab)) Hnext). exact Hr. }
  destruct (proj1 (least_select _ tab) kvNext Hnext) as (HinN & HpN & _).
  apply Z.ltb_lt in HpN.
  destruct (prev_of_next tab _ kvNext Hrow Hnext) as (kvBack & Hprev & Hback & _).
  destruct (writeUInt64_in_bounds (memory vm) primary
              (KeyValueObject.primaryKey kvNext) Hb) as (m1 & Hw1 & Hv1).
  assert (Hb1 : Memory.inBounds m1 primary 8 = true).
  { unfold Memory.writeUInt64 in Hw1. apply inBounds_spec.
    rewrite (store_length _ _ _ _ Hw1). apply inBounds_spec. exact Hb. }
  destruct (writeUInt64_in_bounds m1 primary
              (KeyValueObject.primaryKey kvBack) Hb1) as (m2 & Hw2 & Hv2).
  set (vm1 := set_kvCache (snd (IteratorCache.add (kvCache vm) kvNext))
                (set_memory m1 vm)).
  set (h1 := fst (IteratorCache.add (kvCache vm) kvNext)).
  assert (Hrun1 : db_next_i64 h primary vm = (Return h1, vm1)).
  { unfold db_next_i64. rewrite (proj2 (Z.ltb_ge _ _)) by lia.
    unfold kvCache_get, getTableById, memoryWriteUInt64, kvCache_add. run.
    rewrite Hget. simpl. rewrite Htab. simpl. rewrite Hnext. rewrite Hw1.
    reflexivity. }
  assert (Hget1 : IteratorCache.get (kvCache vm1) h1 = Some kvNext)
    by apply get_add.
  exists h1, vm1, kvNext.
  exists (fst (IteratorCache.add (kvCache vm1) kvBack)).
  exists (set_kvCache (snd (IteratorCache.add (kvCache vm1) kvBack))
            (set_memory m2 vm1)).
  exists kvBack.
  split; [exact Hrun1|]. split; [exact Hget1|]. split; [exact HpN|].
  split; [exact Hv1|]. split.
  - unfold db_previous_i64.
    pose proof (get_handle_nonneg _ _ _ Hget1) as Hh1.
    rewrite (proj2 (Z.ltb_ge _ _)) by lia.
    unfold kvCache_get, getTableById, memoryWriteUInt64, kvCache_add. run.
    change (IteratorCache.get _ h1) with (IteratorCache.get (kvCache vm1) h1).
    rewrite Hget1. simpl.
    rewrite (Hids kvNext HinN). rewrite Htab. simpl. rewrite Hprev.
    match goal with
    | |- context [Memory.writeUInt64 ?m _ _] => change m with m1
    end.
    rewrite Hw2. reflexivity.
  - split; [apply get_add|]. split; [exact Hback|]. rewrite <- Hback. exact Hv2.
Qed.

Lemma db_previous_undoes_db_next_witness :
  exists h1 vm1 kvNext h2 vm2 kvBack,
    db_next_i64 1 0 storedVM = (Return h1, vm1)
    /\ IteratorCache.get (kvCache vm1) h1 = Some kvNext
    /\ 3 < KeyValueObject.primaryKey kvNext
    /\ Memory.view (memory vm1) 0 8
       = Some (Memory.uint64LE (KeyValueObject.primaryKey kvNext))
    /\ db_previous_i64 h1 0 vm1 = (Return h2, vm2)
    /\ IteratorCache.get (kvCache vm2) h2 = Some kvBack
    /\ KeyValueObject.primaryKey kvBack = 3
    /\ Memory.view (memory vm2) 0 8 = Some (Memory.uint64LE 3).
Proof.
  refine (db_previous_undoes_db_next storedVM 1 0 (storedRow 3) storedTable
            _ _ _ _ _ eq_refl).
  - vm_compute. reflexivity.
  - vm_compute. reflexivity.
  - exists (storedRow 3). split; [right; left|reflexivity].
  - intros r Hr. apply list_elem_of_In in Hr. simpl in Hr.
    destruct Hr as [<-|[<-|[<-|[]]]]; reflexivity.
  - intros [_ Hmax]. specialize (Hmax (storedRow 5) ltac:(left)).
    simpl in Hmax. lia.
Defined.
(** ** What update and remove change *)

Lemma find_filter_keeps {A} (p q : A -> bool) (l : list A) :
  (forall x, p x = true -> q x = true) ->
  List.find p (List.filter q l) = List.find p l.
Proof.
  intros Hpq. induction l as [|x l IH]; simpl; [reflexivity|].
  destruct (q x) eqn:Hq; simpl.
  - destruct (p x); [reflexivity|exact IH].
  - destruct (p x) eqn:Hp; [|exact IH].
    rewrite (Hpq x Hp) in Hq. discriminate.
Qed.

Lemma find_filter_drops {A} (p q : A -> bool) (l : list A) :
  (forall x, p x = true -> q x = false) ->
  List.find p (List.filter q l) = None.
Proof.
  intros Hpq. induction l as [|x l IH]; simpl; [reflexivity|].
  destruct (q x) eqn:Hq; simpl; [|exact IH].
  destruct (p x) eqn:Hp; [|exact IH].
  rewrite (Hpq x Hp) in Hq. discriminate.
Qed.

Lemma get_delete (tab : Table.t) (key : Z) :
  Table.get (Table.delete key tab) key = None.
Proof.
  unfold Table.get, Table.delete, Table.select. simpl.
  apply find_filter_drops. intros x Hx. rewrite Hx. reflexivity.
Qed.

Lemma get_delete_other (tab : Table.t) (key k : Z) :
  k <> key -> Table.get (Table.delete key tab) k = Table.get tab k.
Proof.
  intros Hne. unfold Table.get, Table.delete, Table.select. simpl.
  apply find_filter_keeps. intros x Hx. apply Z.eqb_eq in Hx.
  apply negb_true_iff, Z.eqb_neq. lia.
Qed.

Lemma get_set_other (tab : Table.t) (key k : Z) (kv : KeyValueObject.t) :
  KeyValueObject.primaryKey kv = key -> k <> key ->
  Table.get (Table.set key kv tab) k = Table.get tab k.
Proof.
  intros Hk Hne. unfold Table.get, Table.set, Table.select. simpl.
  rewrite Hk. rewrite (proj2 (Z.eqb_neq key k)) by lia.
  apply find_filter_keeps. intros x Hx. apply Z.eqb_eq in Hx.
  apply negb_true_iff, Z.eqb_neq. lia.
Qed.

Lemma getTableById_modifyTable (st : Store.t) (id id' : Z)
    (f : Table.t -> Table.t) :
  (forall tab, Table.id (f tab) = Table.id tab) ->
  Store.getTableById (Store.modifyTable id f st) id'
  = (fun tab => if Table.id tab =? id then f tab else tab)
      <$> Store.getTableById st id'.
Proof.
  intros Hf. unfold Store.getTableById, Store.modifyTable. simpl.
  apply find_map_preserved. intros x.
  destruct (Table.id x =? id); [rewrite Hf|]; reflexivity.
Qed.

Lemma findTable_modifyTable_any (st : Store.t) (id : Z)
    (f : Table.t -> Table.t) (code scope table : Z) :
  (forall tab, tableTriple (f tab) = tableTriple tab) ->
  Store.findTable (Store.modifyTable id f st) code scope table
  = (fun tab => if Table.id tab =? id then f tab else tab)
      <$> Store.findTable st code scope table.
Proof.
  intros Hf. unfold Store.findTable, Store.modifyTable. simpl.
  apply find_map_preserved. intros x.
  destruct (Table.id x =? id); [|reflexivity].
  specialize (Hf x). unfold tableTriple in Hf.
  injection Hf as -> -> ->. reflexivity.
Qed.

(** In a well-formed store the rows seen under the keys other than [key]
    of the table [tab] stay as they are when [f] changes that table only
    under [key]; under [key] the row is the one of [f tab]. *)
Lemma rowAt_modifyTable (vm vm' : VM) (tab : Table.t) (key : Z)
    (f : Table.t -> Table.t) :
  storeWellFormed (Blockchain.store (bc vm)) ->
  tab ∈ Store.tables (Blockchain.store (bc vm)) ->
  (forall t, tableTriple (f t) = tableTriple t) ->
  (forall t k, k <> key -> Table.get (f t) k = Table.get t k) ->
  Blockchain.store (bc vm')
  = Store.modifyTable (Table.id tab) f (Blockchain.store (bc vm)) ->
  rowAt vm' (Table.code tab) (Table.scope tab) (Table.table tab) key
  = Table.get (f tab) key
  /\ forall code scope table k,
       (code, scope, table, k)
       <> (Table.code tab, Table.scope tab, Table.table tab, key) ->
       rowAt vm' code scope table k = rowAt vm code scope table k.
Proof.
  intros Hwf Hin Htriple Hother Hst. unfold rowAt. rewrite Hst.
  destruct (wellFormed_lookup _ _ Hwf Hin) as [Hbyid Hbytriple]. split.
  - rewrite findTable_modifyTable_any by exact Htriple.
    rewrite Hbytriple. simpl. rewrite Z.eqb_refl. reflexivity.
  - intros code scope table k Hne.
    rewrite findTable_modifyTable_any by exact Htriple.
    destruct (Store.findTable _ code scope table) as [t|] eqn:Hf;
      [|reflexivity].
    simpl. destruct (Table.id t =? Table.id tab) eqn:Hid; [|reflexivity].
    apply Z.eqb_eq in Hid. apply findTable_In in Hf as [Hint Htr].
    assert (t = tab) as ->.
    { apply list_elem_of_In in Hint.
      destruct (wellFormed_lookup _ _ Hwf Hint) as [Ht _].
      rewrite Hid, Hbyid in Ht. congruence. }
    apply Hother. intros ->. apply Hne.
    unfold tableTriple in Htr. congruence.
Qed.

Lemma get_remove {T} (c : IteratorCache.t T) (h : Z) :
  IteratorCache.get (IteratorCache.remove c h) h = None.
Proof.
  unfold IteratorCache.get, IteratorCache.remove. simpl.
  destruct (h <? 0); [reflexivity|].
  destruct (decide (Z.to_nat h < length (IteratorCache.iteratorToObject c))%nat).
  - rewrite list_lookup_insert_eq by assumption. reflexivity.
  - rewrite list_insert_ge by lia.
    rewrite lookup_ge_None_2 by lia. reflexivity.
Qed.

Lemma get_insert_other {T} (c : IteratorCache.t T) (h h' : Z) (o : option T) :
  0 <= h -> h' <> h ->
  IteratorCache.get
    (IteratorCache.mk (IteratorCache.endIteratorToTable c)
       (<[Z.to_nat h := o]> (IteratorCache.iteratorToObject c))) h'
  = IteratorCache.get c h'.
Proof.
  intros Hh Hne. unfold IteratorCache.get. simpl.
  destruct (h' <? 0) eqn:Hneg; [reflexivity|]. apply Z.ltb_ge in Hneg.
  rewrite list_lookup_insert_ne by lia. reflexivity.
Qed.

Lemma get_set_handle {T} (c : IteratorCache.t T) (h : Z) (o obj : T) :
  IteratorCache.get c h = Some o ->
  IteratorCache.get (IteratorCache.set c h obj) h = Some obj.
Proof.
  unfold IteratorCache.get, IteratorCache.set. simpl.
  destruct (h <? 0); [discriminate|]. intros Hget.
  destruct (IteratorCache.iteratorToObject c !! Z.to_nat h) as [x|] eqn:Hl;
    [|discriminate].
  apply lookup_lt_Some in Hl.
  rewrite list_lookup_insert_eq by assumption. reflexivity.
Qed.

Lemma kvCache_getTable_run (vm : VM) (tableId e : Z) (tab : Table.t) :
  IteratorCache.getEndIteratorByTableId (kvCache vm) tableId = Some e ->
  Store.getTableById (Blockchain.store (bc vm)) tableId = Some tab ->
  kvCache_getTable tableId vm = (Return tab, vm).
Proof.
  intros He Ht. unfold kvCache_getTable, getTableById. run.
  rewrite He. simpl. rewrite Ht. reflexivity.
Qed.

Lemma kvCache_get_run (vm : VM) (h : Z) (kv : KeyValueObject.t) :
  IteratorCache.get (kvCache vm) h = Some kv ->
  kvCache_get h vm = (Return kv, vm).
Proof. intros Hg. unfold kvCache_get. run. rewrite Hg. reflexivity. Qed.

(** X8: when the store is well formed and the handle resolves to a row of a
    table of the receiver, [db_remove_i64] returns; afterwards the handle no
    longer resolves, the lookups see no row under that key of the table, and
    every other handle, every other row of every table, the guest memory and
    the context are as before. *)
Theorem db_remove_i64_erases_row
    (vm : VM) (h e : Z) (kv : KeyValueObject.t) (tab : Table.t) :
  storeWellFormed (Blockchain.store (bc vm)) ->
  IteratorCache.get (kvCache vm) h = Some kv ->
  IteratorCache.getEndIteratorByTableId (kvCache vm) (KeyValueObject.tableId kv)
  = Some e ->
  Store.getTableById (Blockchain.store (bc vm)) (KeyValueObject.tableId kv)
  = Some tab ->
  Table.code tab = Context.receiver (context vm) ->
  exists vm',
    db_remove_i64 h vm = (Return tt, vm')
    /\ IteratorCache.get (kvCache vm') h = None
    /\ (forall h', h' <> h ->
          IteratorCache.get (kvCache vm') h' = IteratorCache.get (kvCache vm) h')
    /\ rowAt vm' (Table.code tab) (Table.scope tab) (Table.table tab)
             (KeyValueObject.primaryKey kv) = None
    /\ (forall code scope table k,
          (code, scope, table, k)
          <> (Table.code tab, Table.scope tab, Table.table tab,
              KeyValueObject.primaryKey kv) ->
          rowAt vm' code scope table k = rowAt vm code scope table k)
    /\ memory vm' = memory vm
    /\ context vm' = context vm.
Proof.
  intros Hwf Hget Hend Htab Hcode.
  pose proof (get_handle_nonneg _ _ _ Hget) as Hh.
  destruct (getTableById_In _ _ _ Htab) as [Hin Hid].
  set (vm' := set_kvCache (IteratorCache.remove (kvCache vm) h)
                (set_store (Store.modifyTable (Table.id tab)
                              (Table.delete (KeyValueObject.primaryKey kv))
                              (Blockchain.store (bc vm))) vm)).
  exists vm'.
  destruct (rowAt_modifyTable vm vm' tab (KeyValueObject.primaryKey kv)
              (Table.delete (KeyValueObject.primaryKey kv)) Hwf
              ltac:(apply list_elem_of_In; exact Hin)
              ltac:(reflexivity)
              ltac:(intros t k Hk; apply get_delete_other; exact Hk)
              eq_refl) as [Hrow Hrows].
  split; [|split; [apply get_remove|split; [|split; [|split; [exact Hrows|]]]]].
  - unfold db_remove_i64. unfold bind at 1. rewrite (kvCache_get_run _ _ _ Hget).
    unfold bind at 1. rewrite (kvCache_getTable_run _ _ _ _ Hend Htab).
    run. rewrite Hcode, Z.eqb_refl. reflexivity.
  - intros h' Hne. apply get_insert_other; assumption.
  - rewrite Hrow. apply get_delete.
  - split; reflexivity.
Qed.

Lemma storedVM_wellFormed : storeWellFormed (Blockchain.store (bc storedVM)).
Proof.
  change (Blockchain.store (bc storedVM))
    with (Store.mk [storedTable] 1 [] [] [] []).
  split; [|split; [|split]]; simpl.
  - apply NoDup_singleton.
  - intros tab Hin. apply list_elem_of_singleton in Hin as ->. reflexivity.
  - apply NoDup_singleton.
  - intros tab Hin. apply list_elem_of_singleton in Hin as ->. split.
    + simpl. apply (bool_decide_unpack _). vm_compute. exact I.
    + intros r Hr. apply list_elem_of_In in Hr. simpl in Hr.
      destruct Hr as [<-|[<-|[<-|[]]]]; reflexivity.
Qed.

Lemma db_remove_i64_erases_row_witness :
  exists vm',
    db_remove_i64 1 storedVM = (Return tt, vm')
    /\ IteratorCache.get (kvCache vm') 1 = None
    /\ (forall h', h' <> 1 ->
          IteratorCache.get (kvCache vm') h'
          = IteratorCache.get (kvCache storedVM) h')
    /\ rowAt vm' alice scopeName tableName 3 = None
    /\ (forall code scope table k,
          (code, scope, table, k) <> (alice, scopeName, tableName, 3) ->
          rowAt vm' code scope table k = rowAt storedVM code scope table k)
    /\ memory vm' = memory storedVM
    /\ context vm' = context storedVM.
Proof.
  refine (db_remove_i64_erases_row storedVM 1 (-2) (storedRow 3) storedTable
            storedVM_wellFormed _ _ _ _).
  - vm_compute. reflexivity.
  - vm_compute. reflexivity.
  - vm_compute. reflexivity.
  - reflexivity.
Defined.

(** X9: when the store is well formed, the handle resolves to a row of a
    table of the receiver and the [len] bytes at [data] are in bounds,
    [db_update_i64] returns; afterwards the handle and the lookups under the
    key see a row with the same table id and primary key, the bytes at
    [data] as its value, and the payer given, or the former payer when the
    payer given is zero; every other handle, every other row of every table,
    the guest memory and the context are as before. *)
Theorem db_update_i64_replaces_row
    (vm : VM) (h e _payer data len : Z) (kvPrev : KeyValueObject.t)
    (tab : Table.t) (value : bytes) :
  storeWellFormed (Blockchain.store (bc vm)) ->
  IteratorCache.get (kvCache vm) h = Some kvPrev ->
  IteratorCache.getEndIteratorByTableId (kvCache vm)
    (KeyValueObject.tableId kvPrev) = Some e ->
  Store.getTableById (Blockchain.store (bc vm)) (KeyValueObject.tableId kvPrev)
  = Some tab ->
  Table.code tab = Context.receiver (context vm) ->
  Memory.view (memory vm) data len = Some value ->
  exists vm' kv,
    db_update_i64 h _payer data len vm = (Return tt, vm')
    /\ IteratorCache.get (kvCache vm') h = Some kv
    /\ rowAt vm' (Table.code tab) (Table.scope tab) (Table.table tab)
             (KeyValueObject.primaryKey kvPrev) = Some kv
    /\ KeyValueObject.tableId kv = KeyValueObject.tableId kvPrev
    /\ KeyValueObject.primaryKey kv = KeyValueObject.primaryKey kvPrev
    /\ KeyValueObject.value kv = value
    /\ KeyValueObject.payer kv
       = (if convertToUnsigned _payer =? 0 then KeyValueObject.payer kvPrev
          else convertToUnsigned _payer)
    /\ (forall h', h' <> h ->
          IteratorCache.get (kvCache vm') h' = IteratorCache.get (kvCache vm) h')
    /\ (forall code scope table k,
          (code, scope, table, k)
          <> (Table.code tab, Table.scope tab, Table.table tab,
              KeyValueObject.primaryKey kvPrev) ->
          rowAt vm' code scope table k = rowAt vm code scope table k)
    /\ memory vm' = memory vm
    /\ context vm' = context vm.
Proof.
  intros Hwf Hget Hend Htab Hcode Hview.
  pose proof (get_handle_nonneg _ _ _ Hget) as Hh.
  destruct (getTableById_In _ _ _ Htab) as [Hin Hid].
  set (kv := KeyValueObject.mk
               (KeyValueObject.tableId kvPrev)
               (KeyValueObject.primaryKey kvPrev)
               (if asUintN 64 _payer =? 0 then KeyValueObject.payer kvPrev
                else asUintN 64 _payer)
               value).
  set (vm' := set_kvCache (IteratorCache.set (kvCache vm) h kv)
                (set_store (Store.modifyTable (Table.id tab)
                              (Table.set (KeyValueObject.primaryKey kvPrev) kv)
                              (Blockchain.store (bc vm))) vm)).
  exists vm', kv.
  destruct (rowAt_modifyTable vm vm' tab (KeyValueObject.primaryKey kvPrev)
              (Table.set (KeyValueObject.primaryKey kvPrev) kv) Hwf
              ltac:(apply list_elem_of_In; exact Hin)
              ltac:(reflexivity)
              ltac:(intros t k Hk; apply get_set_other; [reflexivity|exact Hk])
              eq_refl) as [Hrow Hrows].
  split.
  { unfold db_update_i64. unfold bind at 1.
    rewrite (kvCache_get_run _ _ _ Hget).
    unfold bind at 1. rewrite (kvCache_getTable_run _ _ _ _ Hend Htab).
    unfold memoryView. run. rewrite Hcode, Z.eqb_refl. simpl.
    rewrite Hview. reflexivity. }
  split; [exact (get_set_handle _ _ _ _ Hget)|].
  split; [rewrite Hrow; apply get_set; reflexivity|].
  do 4 (split; [reflexivity|]).
  split; [intros h' Hne; apply get_insert_other; assumption|].
  split; [exact Hrows|]. split; reflexivity.
Qed.

Lemma db_update_i64_replaces_row_witness :
  exists vm' kv,
    db_update_i64 1 0 8 2 storedVM = (Return tt, vm')
    /\ IteratorCache.get (kvCache vm') 1 = Some kv
    /\ rowAt vm' alice scopeName tableName 3 = Some kv
    /\ KeyValueObject.tableId kv = 0
    /\ KeyValueObject.primaryKey kv = 3
    /\ KeyValueObject.value kv = [x00; x00]
    /\ KeyValueObject.payer kv = alice
    /\ (forall h', h' <> 1 ->
          IteratorCache.get (kvCache vm') h'
          = IteratorCache.get (kvCache storedVM) h')
    /\ (forall code scope table k,
          (code, scope, table, k) <> (alice, scopeName, tableName, 3) ->
          rowAt vm' code scope table k = rowAt storedVM code scope table k)
    /\ memory vm' = memory storedVM
    /\ context vm' = context storedVM.
Proof.
  refine (db_update_i64_replaces_row storedVM 1 (-2) 0 8 2 (storedRow 3)
            storedTable [x00; x00] storedVM_wellFormed _ _ _ _ _).
  - vm_compute. reflexivity.
  - vm_compute. reflexivity.
  - vm_compute. reflexivity.
  - reflexivity.
  - vm_compute. reflexivity.
Defined.

(** X10: [db_update_i64] and [db_remove_i64] change nothing when they
    throw, whatever the reason; and through a handle to a row of a table of
    another contract than the receiver both throw "db access violation". *)
Theorem db_update_remove_throw_without_change (vm : VM) :
  (forall iterator _payer data len err vm',
      db_update_i64 iterator _payer data len vm = (Throw err, vm') -> vm' = vm)
  /\ (forall iterator err vm',
        db_remove_i64 iterator vm = (Throw err, vm') -> vm' = vm)
  /\ (forall h e kv tab,
        IteratorCache.get (kvCache vm) h = Some kv ->
        IteratorCache.getEndIteratorByTableId (kvCache vm)
          (KeyValueObject.tableId kv) = Some e ->
        Store.getTableById (Blockchain.store (bc vm))
          (KeyValueObject.tableId kv) = Some tab ->
        Table.code tab <> Context.receiver (context vm) ->
        (forall _payer data len,
            db_update_i64 h _payer data len vm
            = (Throw (Error "db access violation"), vm))
        /\ db_remove_i64 h vm = (Throw (Error "db access violation"), vm)).
Proof.
  split; [|split].
  - intros iterator _payer data len err vm'.
    unfold db_update_i64, kvCache_get, kvCache_getTable, getTableById,
      memoryView. run.
    destruct (IteratorCache.get (kvCache vm) iterator) as [kvPrev|]; simpl;
      [|congruence].
    destruct (IteratorCache.getEndIteratorByTableId _ _); simpl; [|congruence].
    destruct (Store.getTableById _ _) as [tab|]; simpl; [|congruence].
    destruct (Table.code tab =? _); simpl; [|congruence].
    destruct (Memory.view (memory vm) data len); simpl; [discriminate|].
    congruence.
  - intros iterator err vm'.
    unfold db_remove_i64, kvCache_get, kvCache_getTable, getTableById. run.
    destruct (IteratorCache.get (kvCache vm) iterator) as [kv|]; simpl;
      [|congruence].
    destruct (IteratorCache.getEndIteratorByTableId _ _); simpl; [|congruence].
    destruct (Store.getTableById _ _) as [tab|]; simpl; [|congruence].
    destruct (Table.code tab =? _); simpl; [discriminate|congruence].
  - intros h e kv tab Hget Hend Htab Hcode. apply Z.eqb_neq in Hcode. split.
    + intros _payer data len. unfold db_update_i64. unfold bind at 1.
      rewrite (kvCache_get_run _ _ _ Hget).
      unfold bind at 1. rewrite (kvCache_getTable_run _ _ _ _ Hend Htab).
      run. rewrite Hcode. reflexivity.
    + unfold db_remove_i64. unfold bind at 1.
      rewrite (kvCache_get_run _ _ _ Hget).
      unfold bind at 1. rewrite (kvCache_getTable_run _ _ _ _ Hend Htab).
      run. rewrite Hcode. reflexivity.
Qed.
(** ** Storing in the idx256 index *)

(** X11: [db_idx256_store] does all or nothing.  It throws exactly when
    the 32 bytes at [data] are out of bounds (a [RangeError]) or the payer is
    zero, and then the whole machine, the tables of the store included, is
    as before: the payer is checked before the table is found or created.
    Otherwise it returns a handle [>= 0].  [data_len] plays no part. *)
Theorem db_idx256_store_all_or_nothing
    (vm : VM) (_scope _table _payer _id data data_len : Z) :
  match db_idx256_store _scope _table _payer _id data data_len vm with
  | (Return h, vm') =>
      Memory.inBounds (memory vm) data 32 = true
      /\ convertToUnsigned _payer <> 0
      /\ 0 <= h
  | (Throw err, vm') =>
      vm' = vm
      /\ ((Memory.inBounds (memory vm) data 32 = false /\ err = RangeError)
          \/ (Memory.inBounds (memory vm) data 32 = true
              /\ convertToUnsigned _payer = 0
              /\ err = Error
                         "must specify a valid account to pay for new record"))
  end.
Proof.
  destruct (Memory.view (memory vm) data 32) as [raw|] eqn:Hview.
  - pose proof (view_in_bounds _ _ _ _ Hview) as Hb.
    destruct (Z.eq_dec (convertToUnsigned _payer) 0) as [Hz|Hnz].
    + unfold db_idx256_store, Buffer_from_, genericIndex.store, memoryView.
      run. rewrite Hview. simpl. rewrite Hz. simpl.
      split; [reflexivity|]. right. auto.
    + destruct (findOrCreateTable_result vm (Context.receiver (context vm))
                  (convertToUnsigned _scope) (convertToUnsigned _table)
                  (convertToUnsigned _payer))
        as (tab & vm1 & Hfc & _ & _ & _ & Hmem & _ & _).
      rewrite (db_idx256_store_run vm _scope _table _payer _id data data_len
                 raw tab vm1 Hview Hnz Hfc Hmem).
      cbv zeta. rewrite add_handle. split; [exact Hb|]. split; [exact Hnz|].
      lia.
  - assert (Hb : Memory.inBounds (memory vm) data 32 = false).
    { unfold Memory.view in Hview.
      destruct (Memory.inBounds (memory vm) data 32); [discriminate|].
      reflexivity. }
    unfold db_idx256_store, Buffer_from_, memoryView. run.
    rewrite Hview. simpl. split; [reflexivity|]. left. auto.
Qed.
(** ** Authorization with a permission *)

Lemma hasAuth2Loop_authorizedAs (authorization : list PermissionLevel.t)
    (name permission : Z) :
  hasAuth2Loop authorization name permission = true
  <-> authorizedAs authorization name permission.
Proof.
  unfold authorizedAs. induction authorization as [|auth rest IH]; simpl.
  - split; [discriminate|]. intros (a & Hin & _). inversion Hin.
  - destruct (PermissionLevel.actor auth =? name) eqn:Hactor;
      [destruct (PermissionLevel.permission auth =? permission) eqn:Hperm|].
    + split; [intros _|reflexivity].
      exists auth. split; [left|]. lia.
    + rewrite IH. split; intros (a & Hin & Ha & Hp).
      * exists a. split; [right; assumption|]. tauto.
      * apply elem_of_cons in Hin as [->|Hin]; [lia|]. eauto.
    + rewrite IH. split; intros (a & Hin & Ha & Hp).
      * exists a. split; [right; assumption|]. tauto.
      * apply elem_of_cons in Hin as [->|Hin]; [lia|]. eauto.
Qed.

Lemma hasAuthLoop_active_or_owner (authorization : list PermissionLevel.t)
    (name : Z) :
  hasAuthLoop authorization name
  = hasAuth2Loop authorization name active
    || hasAuth2Loop authorization name owner.
Proof.
  induction authorization as [|auth rest IH]; simpl; [reflexivity|].
  destruct (PermissionLevel.actor auth =? name); [|exact IH].
  destruct (PermissionLevel.permission auth =? active); simpl; [reflexivity|].
  destruct (PermissionLevel.permission auth =? owner); simpl; [|exact IH].
  rewrite orb_true_r. reflexivity.
Qed.

Lemma convertToUnsigned_name (v : Z) : isName v -> convertToUnsigned v = v.
Proof. intros Hv. apply Z.mod_small. exact Hv. Qed.

Lemma active_owner_names : isName active /\ isName owner.
Proof. split; vm_compute; split; congruence. Qed.

(** X12: [require_auth2] returns exactly when some entry of the
    authorization list of the context has the actor and the permission
    given (both read as unsigned 64-bit names) and throws otherwise; it never
    changes the machine.  [require_auth] on a name returns exactly when
    [require_auth2] returns on that name with the permission active or with
    the permission owner. *)
Theorem require_auth2_exact_permission (vm : VM) (_name _permission : Z) :
  let name := convertToUnsigned _name in
  let permission := convertToUnsigned _permission in
  let authorization := Context.authorization (context vm) in
  (require_auth2 _name _permission vm = (Return tt, vm)
   <-> authorizedAs authorization name permission)
  /\ (~ authorizedAs authorization name permission ->
      require_auth2 _name _permission vm
      = (Throw (Error "missing required authority"), vm))
  /\ (require_auth _name vm = (Return tt, vm)
      <-> require_auth2 _name active vm = (Return tt, vm)
          \/ require_auth2 _name owner vm = (Return tt, vm)).
Proof.
  intros name permission authorization.
  pose proof (hasAuth2Loop_authorizedAs authorization name permission) as Hspec.
  split; [|split].
  - unfold require_auth2. run. fold name permission authorization.
    destruct (hasAuth2Loop authorization name permission); simpl.
    + tauto.
    + split; [discriminate|]. intros Ha. apply Hspec in Ha. discriminate.
  - intros Hno. unfold require_auth2. run. fold name permission authorization.
    destruct (hasAuth2Loop authorization name permission); simpl;
      [|reflexivity].
    exfalso. apply Hno, Hspec. reflexivity.
  - unfold require_auth, require_auth2. run.
    rewrite (convertToUnsigned_name active) by apply active_owner_names.
    rewrite (convertToUnsigned_name owner) by apply active_owner_names.
    fold name authorization. rewrite hasAuthLoop_active_or_owner.
    destruct (hasAuth2Loop authorization name active),
             (hasAuth2Loop authorization name owner); simpl;
      intuition discriminate.
Qed.

(** ** The receiver and the sender, read back *)

Lemma asIntN_range (v : Z) : - 2 ^ 63 <= asIntN 64 v < 2 ^ 63.
Proof.
  unfold asIntN. pose proof (Z.mod_pos_bound v (2 ^ 64) ltac:(lia)) as Hm.
  change (64 - 1) with 63.
  destruct (v mod 2 ^ 64 <? 2 ^ 63) eqn:Hlt.
  - apply Z.ltb_lt in Hlt. lia.
  - apply Z.ltb_ge in Hlt. lia.
Qed.

Lemma convertToUnsigned_asIntN (v : Z) :
  convertToUnsigned (asIntN 64 v) = v mod 2 ^ 64.
Proof.
  unfold convertToUnsigned, asUintN, asIntN.
  pose proof (Z.mod_pos_bound v (2 ^ 64) ltac:(lia)) as Hm.
  destruct (v mod 2 ^ 64 <? 2 ^ (64 - 1)).
  - apply Z.mod_small. exact Hm.
  - replace (v mod 2 ^ 64 - 2 ^ 64) with (v mod 2 ^ 64 + (-1) * 2 ^ 64) by lia.
    rewrite Z.mod_add by lia. apply Z.mod_small. exact Hm.
Qed.

Lemma asIntN_zero (v : Z) : isName v -> (asIntN 64 v = 0 <-> v = 0).
Proof.
  intros Hv. unfold asIntN. rewrite (Z.mod_small v) by exact Hv.
  change (64 - 1) with 63. unfold isName in Hv.
  destruct (v <? 2 ^ 63) eqn:Hlt; [tauto|]. apply Z.ltb_ge in Hlt. lia.
Qed.

(** X13: [current_receiver] and [get_sender] return, as signed 64-bit
    integers and without changing the machine, values that the intrinsics
    taking a name read back as the receiver and the sender of the context:
    [is_account] on the value of [current_receiver] tells whether the
    receiver has an account and [require_auth] on it has the outcome it has
    on the receiver; [get_sender] returns 0 exactly when the action is not
    inline. *)
Theorem current_receiver_and_sender_read_back (vm : VM) :
  isName (Context.receiver (context vm)) ->
  isName (Context.sender (context vm)) ->
  exists r s,
    current_receiver vm = (Return r, vm)
    /\ get_sender vm = (Return s, vm)
    /\ - 2 ^ 63 <= r < 2 ^ 63
    /\ - 2 ^ 63 <= s < 2 ^ 63
    /\ convertToUnsigned r = Context.receiver (context vm)
    /\ convertToUnsigned s = Context.sender (context vm)
    /\ (s = 0 <-> Context.isInline (context vm) = false)
    /\ is_account r vm
       = (Return (match Blockchain.accounts (bc vm)
                          !! Context.receiver (context vm) with
                  | Some _ => true
                  | None => false
                  end), vm)
    /\ require_auth r vm = require_auth (Context.receiver (context vm)) vm.
Proof.
  intros Hr Hs.
  exists (asIntN 64 (Context.receiver (context vm))),
         (asIntN 64 (Context.sender (context vm))).
  assert (Hback : convertToUnsigned (asIntN 64 (Context.receiver (context vm)))
                  = Context.receiver (context vm)).
  { rewrite convertToUnsigned_asIntN. apply Z.mod_small. exact Hr. }
  split; [reflexivity|]. split; [reflexivity|].
  split; [apply asIntN_range|]. split; [apply asIntN_range|].
  split; [exact Hback|].
  split; [rewrite convertToUnsigned_asIntN; apply Z.mod_small; exact Hs|].
  split.
  { rewrite (asIntN_zero _ Hs). unfold Context.isInline.
    rewrite negb_false_iff. symmetry. apply Z.eqb_eq. }
  split.
  - unfold is_account, getAccount, Blockchain.getAccount. run.
    rewrite Hback. reflexivity.
  - unfold require_auth. rewrite Hback.
    rewrite (convertToUnsigned_name _ Hr). reflexivity.
Qed.

Lemma current_receiver_and_sender_read_back_witness :
  exists r s,
    current_receiver sampleVM = (Return r, sampleVM)
    /\ get_sender sampleVM = (Return s, sampleVM)
    /\ - 2 ^ 63 <= r < 2 ^ 63
    /\ - 2 ^ 63 <= s < 2 ^ 63
    /\ convertToUnsigned r = alice
    /\ convertToUnsigned s = 0
    /\ (s = 0 <-> Context.isInline (context sampleVM) = false)
    /\ is_account r sampleVM
       = (Return (match Blockchain.accounts (bc sampleVM) !! alice with
                  | Some _ => true
                  | None => false
                  end), sampleVM)
    /\ require_auth r sampleVM = require_auth alice sampleVM.
Proof.
  refine (current_receiver_and_sender_read_back sampleVM _ _).
  - vm_compute. split; congruence.
  - vm_compute. split; congruence.
Defined.
(** ** Views of guest memory *)

Lemma set_memory_same (vm : VM) : set_memory (memory vm) vm = vm.
Proof. destruct vm. reflexivity. Qed.

Lemma Buffer_from__run (vm : VM) (ptr len : Z) :
  Buffer_from_ ptr len vm
  = if Memory.inBounds (memory vm) ptr len
    then (Return (mkView ptr len), vm)
    else (Throw RangeError, vm).
Proof.
  unfold Buffer_from_, memoryView, Memory.view. run.
  destruct (Memory.inBounds (memory vm) ptr len); reflexivity.
Qed.

Lemma viewBytes_run (vm : VM) (ptr len : Z) (b : bytes) :
  Memory.view (memory vm) ptr len = Some b ->
  viewBytes (mkView ptr len) vm = (Return b, vm).
Proof. intros Hv. unfold viewBytes, memoryView. run. rewrite Hv. reflexivity. Qed.

Lemma view_lookup (m : bytes) (ptr len i : Z) (b : bytes) :
  Memory.view m ptr len = Some b ->
  0 <= i < len ->
  b !! Z.to_nat i = m !! Z.to_nat (ptr + i).
Proof.
  unfold Memory.view. destruct (Memory.inBounds m ptr len) eqn:Hb; [|discriminate].
  intros [= <-] Hi. apply inBounds_spec in Hb.
  rewrite lookup_take_lt by lia. rewrite lookup_drop. f_equal. lia.
Qed.

Lemma store_inside (m m' : bytes) (ptr i : Z) (source : bytes) :
  Memory.store m ptr source = Some m' ->
  0 <= i < Z.of_nat (length source) ->
  m' !! Z.to_nat (ptr + i) = source !! Z.to_nat i.
Proof.
  unfold Memory.store.
  destruct (Memory.inBounds m ptr _) eqn:Hb; [|discriminate].
  intros [= <-] Hi. apply inBounds_spec in Hb.
  assert (Ht : length (take (Z.to_nat ptr) m) = Z.to_nat ptr).
  { rewrite length_take. lia. }
  rewrite lookup_app_r by (rewrite Ht; lia). rewrite Ht.
  rewrite lookup_app_l by lia. f_equal. lia.
Qed.

Lemma store_outside (m m' : bytes) (ptr p : Z) (source : bytes) :
  Memory.store m ptr source = Some m' ->
  0 <= p ->
  p < ptr \/ ptr + Z.of_nat (length source) <= p ->
  m' !! Z.to_nat p = m !! Z.to_nat p.
Proof.
  intros Hst Hp Hout. apply (store_other _ _ _ _ _ Hst).
  pose proof Hst as Hb. unfold Memory.store in Hb.
  destruct (Memory.inBounds m ptr _) eqn:Hin; [|discriminate].
  apply inBounds_spec in Hin. lia.
Qed.

(** Writing [source] through a view that is at least as long writes it at
    the start of the view. *)
Lemma view_set_run (vm : VM) (ptr len : Z) (source : bytes) :
  Memory.inBounds (memory vm) ptr len = true ->
  Z.of_nat (length source) <= len ->
  exists m',
    view_set (mkView ptr len) source vm = (Return tt, set_memory m' vm)
    /\ Memory.store (memory vm) ptr source = Some m'.
Proof.
  intros Hb Hlen. pose proof (proj1 (inBounds_spec _ _ _) Hb) as (Hp & Hl & He).
  assert (Hs : Memory.inBounds (memory vm) ptr (Z.of_nat (length source)) = true).
  { apply inBounds_spec. lia. }
  destruct (store_in_bounds _ _ _ Hs) as [m' Hst]. exists m'.
  split; [|exact Hst].
  unfold view_set, viewBytes, memoryView, memoryStore. run.
  unfold Memory.view. simpl. rewrite Hb. simpl.
  set (target := take (Z.to_nat len) (drop (Z.to_nat ptr) (memory vm))).
  assert (Htl : length target = Z.to_nat len).
  { unfold target. rewrite length_take, length_drop. lia. }
  unfold typed_set. rewrite decide_True by lia. simpl.
  assert (Hsame : Memory.store (memory vm) ptr
                    (source ++ drop (length source) target) = Some m').
  { rewrite <- Hst. unfold Memory.store. rewrite Hs.
    assert (Hb' : Memory.inBounds (memory vm) ptr
                    (Z.of_nat (length (source ++ drop (length source) target)))
                  = true).
    { apply inBounds_spec. rewrite length_app, length_drop. lia. }
    rewrite Hb'. f_equal. f_equal. rewrite <- app_assoc. f_equal.
    rewrite length_app, length_drop, Htl. unfold target.
    rewrite skipn_firstn_comm. rewrite drop_drop.
    replace (Z.to_nat ptr + (length source + (Z.to_nat len - length source)))%nat
      with (Z.to_nat ptr + length source + (Z.to_nat len - length source))%nat
      by lia.
    rewrite <- (drop_drop (memory vm) (Z.to_nat len - length source)).
    apply take_drop. }
  rewrite Hsame. reflexivity.
Qed.

Lemma view_set_too_long (vm : VM) (ptr len : Z) (source : bytes) :
  Memory.inBounds (memory vm) ptr len = true ->
  len < Z.of_nat (length source) ->
  view_set (mkView ptr len) source vm = (Throw RangeError, vm).
Proof.
  intros Hb Hlen. pose proof (proj1 (inBounds_spec _ _ _) Hb) as (Hp & Hl & He).
  unfold view_set, viewBytes, memoryView. run.
  unfold Memory.view. simpl. rewrite Hb. simpl.
  unfold typed_set. rewrite decide_False; [reflexivity|].
  rewrite length_take, length_drop. lia.
Qed.

(** The copy from one view to another of the same length, which [memmove],
    [memcpy] and every step of [cpy] make. *)
Lemma copy_views_run (vm : VM) (dest src count : Z) {A} (k : M A) :
  (destination <- Buffer_from_ dest count ;;
   source <- Buffer_from_ src count ;;
   sourceBytes <- viewBytes source ;;
   view_set destination sourceBytes ;;;
   k) vm
  = if Memory.inBounds (memory vm) dest count
       && Memory.inBounds (memory vm) src count
    then
      match Memory.view (memory vm) src count with
      | Some b =>
          match Memory.store (memory vm) dest b with
          | Some m' => k (set_memory m' vm)
          | None => (Throw RangeError, vm)
          end
      | None => (Throw RangeError, vm)
      end
    else (Throw RangeError, vm).
Proof.
  unfold bind at 1. rewrite Buffer_from__run.
  destruct (Memory.inBounds (memory vm) dest count) eqn:Hd; [|reflexivity].
  unfold bind at 1. rewrite Buffer_from__run.
  destruct (Memory.inBounds (memory vm) src count) eqn:Hs; [|reflexivity].
  simpl andb. cbv iota.
  destruct (in_bounds_view _ _ _ Hs) as [b Hv]. rewrite Hv.
  unfold bind at 1. rewrite (viewBytes_run _ _ _ _ Hv).
  pose proof (view_length _ _ _ _ Hv) as Hlen.
  pose proof (proj1 (inBounds_spec _ _ _) Hs) as (_ & Hc & _).
  destruct (view_set_run vm dest count b Hd ltac:(lia)) as (m' & Hrun & Hst).
  unfold bind at 1. rewrite Hrun, Hst. reflexivity.
Qed.

(** ** memmove and memset *)

(** X14: [memmove] returns [dest] when the two ranges of [count] bytes are
    inside guest memory; the bytes at [dest] are then the bytes that were at
    [src] before the call, also when the ranges overlap, and every byte
    outside the destination is as before.  When a range is outside guest
    memory, or [count] is negative, it throws a [RangeError] and changes
    nothing.  Only guest memory is ever changed. *)
Theorem memmove_copies_as_read (vm : VM) (dest src count : Z) :
  (Memory.inBounds (memory vm) dest count = true ->
   Memory.inBounds (memory vm) src count = true ->
   exists m',
     memmove dest src count vm = (Return dest, set_memory m' vm)
     /\ length m' = length (memory vm)
     /\ Memory.view m' dest count = Memory.view (memory vm) src count
     /\ forall p, 0 <= p -> p < dest \/ dest + count <= p ->
          m' !! Z.to_nat p = memory vm !! Z.to_nat p)
  /\ (Memory.inBounds (memory vm) dest count = false
      \/ Memory.inBounds (memory vm) src count = false ->
      memmove dest src count vm = (Throw RangeError, vm)).
Proof.
  unfold memmove. rewrite copy_views_run. split.
  - intros Hd Hs. rewrite Hd, Hs. simpl andb. cbv iota.
    destruct (in_bounds_view _ _ _ Hs) as [b Hv]. rewrite Hv.
    pose proof (view_length _ _ _ _ Hv) as Hlen.
    pose proof (proj1 (inBounds_spec _ _ _) Hs) as (_ & Hc & _).
    assert (Hb : Memory.inBounds (memory vm) dest (Z.of_nat (length b)) = true).
    { rewrite Hlen. replace (Z.of_nat (Z.to_nat count)) with count by lia.
      exact Hd. }
    destruct (store_in_bounds _ _ _ Hb) as [m' Hst]. rewrite Hst.
    exists m'. split; [reflexivity|].
    split; [exact (store_length _ _ _ _ Hst)|]. split.
    + pose proof (view_store _ _ _ _ Hst) as Hback. rewrite Hlen in Hback.
      replace (Z.of_nat (Z.to_nat count)) with count in Hback by lia.
      exact Hback.
    + intros p Hp Hout. apply (store_outside _ _ _ _ _ Hst Hp). lia.
  - intros [Hd|Hs].
    + rewrite Hd. reflexivity.
    + rewrite Hs, andb_false_r. reflexivity.
Qed.

(** X15: [memset] returns [dest] when the range of [count] bytes is inside
    guest memory; every byte of the range is then the low eight bits of
    [ch] and every byte outside it is as before.  When the range is outside
    guest memory, or [count] is negative, it throws a [RangeError] and
    changes nothing. *)
Theorem memset_fills_range (vm : VM) (dest ch count : Z) :
  (Memory.inBounds (memory vm) dest count = true ->
   exists m',
     memset dest ch count vm = (Return dest, set_memory m' vm)
     /\ length m' = length (memory vm)
     /\ Memory.view m' dest count
        = Some (replicate (Z.to_nat count) (Memory.byteOfZ (ch mod 256)))
     /\ forall p, 0 <= p -> p < dest \/ dest + count <= p ->
          m' !! Z.to_nat p = memory vm !! Z.to_nat p)
  /\ (Memory.inBounds (memory vm) dest count = false ->
      memset dest ch count vm = (Throw RangeError, vm)).
Proof.
  split.
  - intros Hd. unfold memset. unfold bind at 1. rewrite Buffer_from__run, Hd.
    pose proof (proj1 (inBounds_spec _ _ _) Hd) as (_ & Hc & _).
    assert (Hlen : length (Buffer_alloc count ch) = Z.to_nat count).
    { unfold Buffer_alloc. apply length_replicate. }
    destruct (view_set_run vm dest count (Buffer_alloc count ch) Hd
                ltac:(lia)) as (m' & Hrun & Hst).
    unfold bind at 1. rewrite Hrun. exists m'. split; [reflexivity|].
    split; [exact (store_length _ _ _ _ Hst)|]. split.
    + pose proof (view_store _ _ _ _ Hst) as Hback. rewrite Hlen in Hback.
      replace (Z.of_nat (Z.to_nat count)) with count in Hback by lia.
      rewrite Hback. unfold Buffer_alloc, Memory.byteOfZ.
      rewrite Z.mod_mod by lia. reflexivity.
    + intros p Hp Hout. apply (store_outside _ _ _ _ _ Hst Hp). lia.
  - intros Hd. unfold memset. unfold bind at 1. rewrite Buffer_from__run, Hd.
    reflexivity.
Qed.

(** ** memcpy *)

(** One step of [cpy]. *)
Lemma cpy_step (fuel : nat) (d s c : Z) (vm : VM) :
  0 < c ->
  cpy (S fuel) d s c vm
  = let size := Z.min (d - s) c in
    if Memory.inBounds (memory vm) d size && Memory.inBounds (memory vm) s size
    then
      match Memory.view (memory vm) s size with
      | Some b =>
          match Memory.store (memory vm) d b with
          | Some m' => cpy fuel (d + size) (s + size) (c - size)
                           (set_memory m' vm)
          | None => (Throw RangeError, vm)
          end
      | None => (Throw RangeError, vm)
      end
    else (Throw RangeError, vm).
Proof.
  intros Hc. simpl cpy. rewrite (proj2 (Z.leb_gt _ _)) by lia.
  cbv zeta. apply copy_views_run.
Qed.

(** With a source [k > 0] bytes below the destination, [cpy] repeats the
    [k] bytes at the source over the destination. *)
Lemma cpy_repeats (fuel : nat) :
  forall (vm : VM) (d s c : Z),
    0 < d - s -> 0 <= s -> 0 <= c ->
    d + c <= Z.of_nat (length (memory vm)) ->
    (Z.to_nat c < fuel)%nat ->
    exists m',
      cpy fuel d s c vm = (Return (Some tt), set_memory m' vm)
      /\ length m' = length (memory vm)
      /\ (forall i, 0 <= i < c ->
            m' !! Z.to_nat (d + i)
            = memory vm !! Z.to_nat (s + i mod (d - s)))
      /\ (forall p, 0 <= p -> p < d \/ d + c <= p ->
            m' !! Z.to_nat p = memory vm !! Z.to_nat p).
Proof.
  induction fuel as [|fuel IH]; intros vm d s c Hk Hs Hc Hend Hfuel; [lia|].
  destruct (Z.eq_dec c 0) as [->|Hne].
  { exists (memory vm). simpl. rewrite set_memory_same.
    split; [reflexivity|]. split; [reflexivity|]. split; [lia|]. reflexivity. }
  rewrite cpy_step by lia. cbv zeta.
  set (k := d - s) in *. set (size := Z.min k c).
  assert (Hsize : 0 < size <= k /\ size <= c) by (unfold size; lia).
  assert (Hbd : Memory.inBounds (memory vm) d size = true)
    by (apply inBounds_spec; lia).
  assert (Hbs : Memory.inBounds (memory vm) s size = true)
    by (apply inBounds_spec; lia).
  rewrite Hbd, Hbs. simpl andb. cbv iota.
  destruct (in_bounds_view _ _ _ Hbs) as [b Hv]. rewrite Hv.
  pose proof (view_length _ _ _ _ Hv) as Hlen.
  assert (Hb : Memory.inBounds (memory vm) d (Z.of_nat (length b)) = true).
  { rewrite Hlen. replace (Z.of_nat (Z.to_nat size)) with size by lia.
    exact Hbd. }
  destruct (store_in_bounds _ _ _ Hb) as [m1 Hst]. rewrite Hst.
  pose proof (store_length _ _ _ _ Hst) as Hlen1.
  destruct (IH (set_memory m1 vm) (d + size) (s + size) (c - size))
    as (m' & Hrun & Hlen' & Hin & Hout).
  { fold k. lia. }
  { lia. }
  { lia. }
  { simpl. rewrite Hlen1. lia. }
  { lia. }
  replace (d + size - (s + size)) with k in Hin by (unfold k; lia).
  simpl memory in Hlen', Hin, Hout.
  exists m'. split; [exact Hrun|]. split; [congruence|]. split.
  - intros i Hi. destruct (Z.lt_ge_cases i size) as [Hlow|Hhigh].
    + rewrite Hout by lia.
      rewrite (store_inside _ _ _ _ _ Hst) by lia.
      rewrite (view_lookup _ _ _ _ _ Hv) by lia.
      rewrite Z.mod_small by lia. reflexivity.
    + assert (Hsk : size = k) by (unfold size in *; lia).
      replace (d + i) with (d + size + (i - size)) by lia.
      rewrite Hin by lia.
      assert (Hmod : (i - size) mod k = i mod k).
      { rewrite Hsk. replace (i - k) with (i + (-1) * k) by lia.
        apply Z.mod_add. lia. }
      rewrite Hmod.
      pose proof (Z.mod_pos_bound i k ltac:(lia)) as Hr.
      replace (s + size + i mod k) with (d + i mod k) by (unfold k; lia).
      rewrite (store_inside _ _ _ _ _ Hst) by lia.
      rewrite (view_lookup _ _ _ _ _ Hv) by lia. reflexivity.
  - intros p Hp Hwhere. rewrite Hout by lia.
    apply (store_outside _ _ _ _ _ Hst Hp). lia.
Qed.

(** With the source at the destination, [cpy] copies chunks of no bytes
    and reaches every bound on its depth. *)
Lemma cpy_in_place (fuel : nat) (vm : VM) (p c : Z) :
  0 < c -> 0 <= p <= Z.of_nat (length (memory vm)) ->
  cpy fuel p p c vm = (Return None, vm).
Proof.
  intros Hc Hp. induction fuel as [|fuel IH]; [reflexivity|].
  rewrite cpy_step by lia. cbv zeta.
  replace (Z.min (p - p) c) with 0 by lia.
  assert (Hb : Memory.inBounds (memory vm) p 0 = true)
    by (apply inBounds_spec; lia).
  rewrite Hb. simpl andb. cbv iota.
  assert (Hv : Memory.view (memory vm) p 0 = Some []).
  { unfold Memory.view. rewrite Hb. reflexivity. }
  assert (Hst : Memory.store (memory vm) p [] = Some (memory vm)).
  { unfold Memory.store. change (Z.of_nat (length [])) with 0. rewrite Hb.
    simpl. rewrite Nat.add_0_r, take_drop. reflexivity. }
  rewrite Hv, Hst, set_memory_same.
  rewrite !Z.add_0_r, Z.sub_0_r. exact IH.
Qed.

(** X16: [memcpy] with a destination below the source, or at least
    [count] bytes above it, does what [memmove] does.  With a destination
    [k] bytes above the source, [0 < k < count], and both ranges inside guest
    memory, it returns [dest] once its recursion is allowed a depth above
    [count], and byte [i] of the destination is then byte [i mod k] of what
    was at the source: the first [k] bytes are repeated, as by a copy that
    goes forward byte by byte.  With the destination at the source and
    [count > 0] the recursion does not end by itself: it reaches every bound
    on its depth (a JavaScript engine reports the exhausted stack as a
    [RangeError]), and guest memory is as before. *)
Theorem memcpy_repeats_on_forward_overlap
    (vm : VM) (fuel : nat) (dest src count : Z) :
  (dest < src \/ count <= dest - src ->
   memcpy fuel dest src count vm
   = (match fst (memmove dest src count vm) with
      | Return d => Return (Some d)
      | Throw e => Throw e
      end, snd (memmove dest src count vm)))
  /\ (0 < dest - src < count -> 0 <= src ->
      dest + count <= Z.of_nat (length (memory vm)) ->
      (Z.to_nat count < fuel)%nat ->
      exists m',
        memcpy fuel dest src count vm = (Return (Some dest), set_memory m' vm)
        /\ length m' = length (memory vm)
        /\ (forall i, 0 <= i < count ->
              m' !! Z.to_nat (dest + i)
              = memory vm !! Z.to_nat (src + i mod (dest - src)))
        /\ (forall p, 0 <= p -> p < dest \/ dest + count <= p ->
              m' !! Z.to_nat p = memory vm !! Z.to_nat p))
  /\ (dest = src -> 0 < count ->
      0 <= dest <= Z.of_nat (length (memory vm)) ->
      memcpy fuel dest src count vm = (Return None, vm)).
Proof.
  split; [|split].
  - intros Hcase. unfold memcpy, memmove.
    assert (Htest : (dest - src <? count) && (0 <=? dest - src) = false).
    { apply andb_false_iff. rewrite Z.ltb_ge, Z.leb_gt. lia. }
    rewrite Htest. rewrite !copy_views_run.
    destruct (Memory.inBounds (memory vm) dest count
              && Memory.inBounds (memory vm) src count); [|reflexivity].
    destruct (Memory.view (memory vm) src count) as [b|]; [|reflexivity].
    destruct (Memory.store (memory vm) dest b); reflexivity.
  - intros Hk Hs Hend Hfuel. unfold memcpy.
    assert (Htest : (dest - src <? count) && (0 <=? dest - src) = true).
    { apply andb_true_iff. rewrite Z.ltb_lt, Z.leb_le. lia. }
    rewrite Htest.
    destruct (cpy_repeats fuel vm dest src count) as (m' & Hrun & Hrest);
      try lia.
    exists m'. split; [|exact Hrest].
    unfold bind. rewrite Hrun. reflexivity.
  - intros -> Hc Hp. unfold memcpy.
    assert (Htest : (src - src <? count) && (0 <=? src - src) = true).
    { apply andb_true_iff. rewrite Z.ltb_lt, Z.leb_le. lia. }
    rewrite Htest. unfold bind. rewrite cpy_in_place by lia. reflexivity.
Qed.

Lemma memcpy_repeats_on_forward_overlap_witness :
  exists m',
    memcpy 7 2 0 6 filledVM = (Return (Some 2), set_memory m' filledVM)
    /\ length m' = length (memory filledVM)
    /\ (forall i, 0 <= i < 6 ->
          m' !! Z.to_nat (2 + i)
          = memory filledVM !! Z.to_nat (0 + i mod (2 - 0)))
    /\ (forall p, 0 <= p -> p < 2 \/ 2 + 6 <= p ->
          m' !! Z.to_nat p = memory filledVM !! Z.to_nat p).
Proof.
  refine (proj1 (proj2 (memcpy_repeats_on_forward_overlap filledVM 7 2 0 6))
            _ _ _ _).
  - lia.
  - lia.
  - vm_compute. discriminate.
  - vm_compute. lia.
Defined.
(** ** Hashes *)

Lemma Buffer_compare_eq (a b : bytes) : Buffer_compare a b = 0 <-> a = b.
Proof.
  revert b. induction a as [|x a IH]; intros [|y b]; simpl;
    try (split; [discriminate|discriminate]); [tauto|].
  destruct (N.compare (Byte.to_N x) (Byte.to_N y)) eqn:Hc.
  - apply N.compare_eq in Hc.
    assert (x = y) as ->.
    { pose proof (Byte.of_to_N x) as Hx. rewrite Hc, Byte.of_to_N in Hx.
      congruence. }
    rewrite IH. split; congruence.
  - split; [discriminate|]. intros [= -> _].
    rewrite N.compare_refl in Hc. discriminate.
  - split; [discriminate|]. intros [= -> _].
    rewrite N.compare_refl in Hc. discriminate.
Qed.

Lemma assert_digest_run (digest : bytes -> bytes) (size : Z) (vm : VM)
    (data len hash : Z) (input expected : bytes) :
  Memory.view (memory vm) data len = Some input ->
  Memory.view (memory vm) hash size = Some expected ->
  assert_digest digest size data len hash vm
  = (if Buffer_compare (digest input) expected =? 0 then Return tt
     else Throw (Error "hash mismatch"), vm).
Proof.
  intros Hin Hex. unfold assert_digest.
  unfold bind at 1. rewrite Buffer_from__run, (view_in_bounds _ _ _ _ Hin).
  unfold bind at 1. rewrite (viewBytes_run _ _ _ _ Hin).
  unfold bind at 1. rewrite Buffer_from__run, (view_in_bounds _ _ _ _ Hex).
  unfold bind at 1. rewrite (viewBytes_run _ _ _ _ Hex).
  destruct (Buffer_compare (digest input) expected =? 0); reflexivity.
Qed.

(** X17: the four hash intrinsics and their checks ([sha256], [sha1],
    [sha512], [ripemd160] and the [assert_] forms, which differ in the digest
    and its size).  The check never changes the machine; with both ranges
    inside guest memory it returns when the [size] bytes at [hash] are the
    digest of the bytes at [data] and throws "hash mismatch" when they are
    not.  For a digest of [size] bytes and a result range that does not
    overlap the data, the intrinsic writes the digest of the data at [hash],
    changes no other byte, and the check that follows on the same arguments
    returns. *)
Theorem digest_written_then_asserted
    (digest : bytes -> bytes) (size : Z) (vm : VM) (data len hash : Z)
    (input : bytes) :
  (forall b, Z.of_nat (length (digest b)) = size) ->
  Memory.view (memory vm) data len = Some input ->
  Memory.inBounds (memory vm) hash size = true ->
  (forall expected,
      Memory.view (memory vm) hash size = Some expected ->
      assert_digest digest size data len hash vm
      = (if Buffer_compare (digest input) expected =? 0 then Return tt
         else Throw (Error "hash mismatch"), vm)
      /\ (Buffer_compare (digest input) expected = 0
          <-> digest input = expected))
  /\ (hash + size <= data \/ data + len <= hash ->
      exists m',
        write_digest digest size data len hash vm
        = (Return tt, set_memory m' vm)
        /\ Memory.view m' hash size = Some (digest input)
        /\ (forall p, 0 <= p -> p < hash \/ hash + size <= p ->
              m' !! Z.to_nat p = memory vm !! Z.to_nat p)
        /\ assert_digest digest size data len hash (set_memory m' vm)
           = (Return tt, set_memory m' vm)).
Proof.
  intros Hsize Hin Hb. split.
  - intros expected Hex. split; [|apply Buffer_compare_eq].
    apply assert_digest_run; assumption.
  - intros Hdisjoint.
    pose proof (view_in_bounds _ _ _ _ Hin) as Hbin.
    destruct (view_set_run vm hash size (digest input) Hb
                ltac:(rewrite Hsize; lia)) as (m' & Hrun & Hst).
    exists m'.
    assert (Hback : Memory.view m' hash size = Some (digest input)).
    { pose proof (view_store _ _ _ _ Hst) as Hv. rewrite Hsize in Hv.
      exact Hv. }
    assert (Hout : forall p, 0 <= p -> p < hash \/ hash + size <= p ->
                     m' !! Z.to_nat p = memory vm !! Z.to_nat p).
    { intros p Hp Hwhere. apply (store_outside _ _ _ _ _ Hst Hp).
      rewrite Hsize. exact Hwhere. }
    assert (Hin' : Memory.view m' data len = Some input).
    { rewrite <- Hin. unfold Memory.view.
      assert (Hbin' : Memory.inBounds m' data len = true).
      { apply inBounds_spec. rewrite (store_length _ _ _ _ Hst).
        apply inBounds_spec. exact Hbin. }
      rewrite Hbin, Hbin'. f_equal.
      apply inBounds_spec in Hbin. apply inBounds_spec in Hb.
      apply list_eq. intros i.
      destruct (decide (i < Z.to_nat len)%nat) as [Hi|Hi].
      - rewrite !lookup_take_lt by exact Hi. rewrite !lookup_drop.
        replace (Z.to_nat data + i)%nat
          with (Z.to_nat (data + Z.of_nat i)) by lia.
        apply Hout; lia.
      - rewrite !lookup_take_ge by lia. reflexivity. }
    split; [|split; [exact Hback|split; [exact Hout|]]].
    + unfold write_digest.
      unfold bind at 1. rewrite Buffer_from__run, Hb.
      unfold bind at 1. rewrite Buffer_from__run, Hbin.
      unfold bind at 1. rewrite (viewBytes_run _ _ _ _ Hin). exact Hrun.
    + rewrite (assert_digest_run digest size (set_memory m' vm) data len hash
                 input (digest input) Hin' Hback).
      rewrite (proj2 (Buffer_compare_eq _ _) eq_refl). reflexivity.
Qed.

Lemma digest_written_then_asserted_witness :
  let digest := fun b : bytes => take 32 (b ++ replicate 32 xff) in
  exists m',
    sha256 digest 0 4 32 filledVM = (Return tt, set_memory m' filledVM)
    /\ Memory.view m' 32 32 = Some (digest [x00; x01; x02; x03])
    /\ (forall p, 0 <= p -> p < 32 \/ 32 + 32 <= p ->
          m' !! Z.to_nat p = memory filledVM !! Z.to_nat p)
    /\ assert_sha256 digest 0 4 32 (set_memory m' filledVM)
       = (Return tt, set_memory m' filledVM).
Proof.
  intros digest.
  refine (proj2 (digest_written_then_asserted digest 32 filledVM 0 4 32
                   [x00; x01; x02; x03] _ eq_refl eq_refl) _).
  - intros b. unfold digest.
    rewrite length_take, length_app, length_replicate. lia.
  - right. lia.
Defined.

(** X18: [sha3] hashes with keccak256 when its flag is not zero and with
    sha3-256 otherwise.  With both ranges inside guest memory it writes the
    digest at [hash] when [hashlen] is at least the length of the digest,
    leaving what follows the digest as it was, and throws a [RangeError]
    without a change when [hashlen] is less. *)
Theorem sha3_needs_room_for_digest
    (sha3_256_digest keccak256_digest : bytes -> bytes) (vm : VM)
    (data datalen hash hashlen keccak : Z) (input : bytes) :
  Memory.view (memory vm) data datalen = Some input ->
  Memory.inBounds (memory vm) hash hashlen = true ->
  let result :=
    if keccak =? 0 then sha3_256_digest input else keccak256_digest input in
  (Z.of_nat (length result) <= hashlen ->
   exists m',
     sha3 sha3_256_digest keccak256_digest data datalen hash hashlen keccak vm
     = (Return tt, set_memory m' vm)
     /\ Memory.view m' hash (Z.of_nat (length result)) = Some result
     /\ (forall p, 0 <= p ->
           p < hash \/ hash + Z.of_nat (length result) <= p ->
           m' !! Z.to_nat p = memory vm !! Z.to_nat p))
  /\ (hashlen < Z.of_nat (length result) ->
      sha3 sha3_256_digest keccak256_digest data datalen hash hashlen keccak vm
      = (Throw RangeError, vm)).
Proof.
  intros Hin Hb result.
  pose proof (view_in_bounds _ _ _ _ Hin) as Hbin.
  assert (Hhead : forall k : M unit,
            (inputBuffer <- Buffer_from_ data datalen ;;
             target <- Buffer_from_ hash hashlen ;;
             inputBytes <- viewBytes inputBuffer ;;
             view_set target
               ((if keccak =? 0 then sha3_256_digest else keccak256_digest)
                  inputBytes)) vm
            = view_set (mkView hash hashlen) result vm).
  { intros _. unfold bind at 1. rewrite Buffer_from__run, Hbin.
    unfold bind at 1. rewrite Buffer_from__run, Hb.
    unfold bind at 1. rewrite (viewBytes_run _ _ _ _ Hin).
    unfold result. destruct (keccak =? 0); reflexivity. }
  unfold sha3. cbv zeta. rewrite (Hhead (ret tt)). split.
  - intros Hroom.
    destruct (view_set_run vm hash hashlen result Hb Hroom)
      as (m' & Hrun & Hst).
    exists m'. split; [exact Hrun|]. split; [exact (view_store _ _ _ _ Hst)|].
    intros p Hp Hwhere. exact (store_outside _ _ _ _ _ Hst Hp Hwhere).
  - intros Hshort. apply view_set_too_long; assumption.
Qed.

Lemma sha3_needs_room_for_digest_witness :
  let digest := fun b : bytes => take 32 (b ++ replicate 32 xff) in
  sha3 digest digest 0 4 32 31 1 filledVM = (Throw RangeError, filledVM).
Proof.
  intros digest.
  refine (proj2 (sha3_needs_room_for_digest digest digest filledVM 0 4 32 31 1
                   [x00; x01; x02; x03] eq_refl eq_refl) _).
  vm_compute. reflexivity.
Defined.
(** ** Little-endian integers *)

Lemma byteOfZ_value (z : Z) : Z.of_N (Byte.to_N (Memory.byteOfZ z)) = z mod 256.
Proof.
  unfold Memory.byteOfZ.
  pose proof (Z.mod_pos_bound z 256 ltac:(lia)) as Hm.
  destruct (Byte.of_N (Z.to_N (z mod 256))) as [b|] eqn:Hb.
  - apply Byte.to_of_N in Hb. rewrite Hb. lia.
  - apply Byte.of_N_None_iff in Hb. lia.
Qed.

(** The bytes of the shifts of [v] by [8 * k], [8 * (k + 1)], ... are the
    little-endian digits of [v / 2 ^ (8 * k)]. *)
Lemma littleEndian_shifts (v : Z) (n k : nat) :
  littleEndian
    (List.map (fun i => Memory.byteOfZ (Z.shiftr v (8 * i)))
              (List.map Z.of_nat (seq k n)))
  = (v / 2 ^ (8 * Z.of_nat k)) mod 2 ^ (8 * Z.of_nat n).
Proof.
  revert k. induction n as [|n IH]; intros k.
  - simpl. rewrite Z.mod_1_r. reflexivity.
  - simpl seq. simpl List.map. simpl littleEndian.
    rewrite byteOfZ_value, IH.
    rewrite Z.shiftr_div_pow2 by lia.
    replace (8 * Z.of_nat (S n)) with (8 + 8 * Z.of_nat n) by lia.
    rewrite Z.pow_add_r by lia. change (2 ^ 8) with 256.
    rewrite Z.rem_mul_r by lia.
    replace (8 * Z.of_nat (S k)) with (8 * Z.of_nat k + 8) by lia.
    rewrite Z.pow_add_r by lia. change (2 ^ 8) with 256.
    rewrite Z.div_div by lia. reflexivity.
Qed.

Lemma littleEndian_uint64LE (v : Z) :
  0 <= v < 2 ^ 64 -> littleEndian (Memory.uint64LE v) = v.
Proof.
  intros Hv.
  change (Memory.uint64LE v)
    with (List.map (fun i => Memory.byteOfZ (Z.shiftr v (8 * i)))
                   (List.map Z.of_nat (seq 0 8))).
  rewrite littleEndian_shifts. change (2 ^ (8 * Z.of_nat 0)) with 1.
  rewrite Z.div_1_r. apply Z.mod_small. exact Hv.
Qed.

Lemma uint64LE_length (v : Z) : length (Memory.uint64LE v) = 8%nat.
Proof. reflexivity. Qed.

Lemma lor_halves (low high : Z) :
  0 <= low < 2 ^ 64 -> 0 <= high ->
  Z.lor (Z.shiftl high 64) low = high * 2 ^ 64 + low.
Proof.
  intros Hl Hh. rewrite <- Z.shiftl_mul_pow2 by lia.
  symmetry. apply Z.add_nocarry_lor.
  apply Z.bits_inj'. intros n Hn. rewrite Z.land_spec, Z.bits_0.
  destruct (Z.lt_ge_cases n 64) as [Hlow|Hhigh].
  - rewrite Z.shiftl_spec_low by exact Hlow. reflexivity.
  - rewrite andb_false_iff. right.
    destruct (Z.eq_dec low 0) as [->|Hne]; [apply Z.bits_0|].
    apply Z.bits_above_log2; [lia|].
    apply Z.log2_lt_pow2; [lia|].
    apply Z.lt_le_trans with (2 ^ 64); [lia|].
    apply Z.pow_le_mono_r; lia.
Qed.

Lemma operand128_value (low high : Z) :
  0 <= low < 2 ^ 64 -> 0 <= high < 2 ^ 64 ->
  operand128 low high = high * 2 ^ 64 + low.
Proof.
  intros Hl Hh. unfold operand128, asUintN. cbv zeta.
  assert (Hpow : 2 ^ 128 = 2 ^ 64 * 2 ^ 64) by reflexivity.
  assert (Hs : Z.shiftl high 64 mod 2 ^ 128 = Z.shiftl high 64).
  { apply Z.mod_small. rewrite Z.shiftl_mul_pow2 by lia. nia. }
  rewrite Hs, lor_halves by lia. apply Z.mod_small. nia.
Qed.

Lemma uint128_from_halves (low high : Z) :
  0 <= low < 2 ^ 64 -> 0 <= high < 2 ^ 64 ->
  uint128.from (Memory.uint64LE low ++ Memory.uint64LE high)
  = Some (high * 2 ^ 64 + low).
Proof.
  intros Hl Hh.
  assert (Hlow : readBigUInt64LE
                   (Memory.uint64LE low ++ Memory.uint64LE high) 0 = Some low).
  { unfold readBigUInt64LE.
    rewrite decide_True by (rewrite length_app, !uint64LE_length; lia).
    rewrite drop_0, take_app_length' by reflexivity.
    rewrite littleEndian_uint64LE by assumption. reflexivity. }
  assert (Hhigh : readBigUInt64LE
                    (Memory.uint64LE low ++ Memory.uint64LE high) 8
                  = Some high).
  { unfold readBigUInt64LE.
    rewrite decide_True by (rewrite length_app, !uint64LE_length; lia).
    rewrite drop_app_length' by reflexivity.
    rewrite firstn_all2 by (rewrite uint64LE_length; lia).
    rewrite littleEndian_uint64LE by assumption. reflexivity. }
  unfold uint128.from. rewrite Hlow, Hhigh.
  cbn [mbind option_bind]. f_equal. apply lor_halves; lia.
Qed.

Lemma view_writeBigUInt64LE_run (vm : VM) (ptr len value : Z) (offset : nat)
    (content content' : bytes) (m' : Memory.t) :
  Memory.view (memory vm) ptr len = Some content ->
  writeBigUInt64LE content value offset = Some content' ->
  Memory.store (memory vm) ptr content' = Some m' ->
  view_writeBigUInt64LE (mkView ptr len) value offset vm
  = (Return tt, set_memory m' vm).
Proof.
  intros Hv Hw Hst.
  unfold view_writeBigUInt64LE.
  unfold bind at 1. rewrite (viewBytes_run _ _ _ _ Hv).
  rewrite Hw. unfold memoryStore. cbn [viewPtr].
  unfold bind, gets, orThrow, ret, modify. rewrite Hst. reflexivity.
Qed.

Lemma writeBigUInt64LE_in_range (content : bytes) (value : Z) (offset : nat) :
  0 <= value < 2 ^ 64 ->
  (offset + 8 <= length content)%nat ->
  writeBigUInt64LE content value offset
  = Some (take offset content ++ Memory.uint64LE value
          ++ drop (offset + 8) content).
Proof.
  intros Hv Hlen. unfold writeBigUInt64LE.
  rewrite (proj2 (Z.leb_le 0 value)) by lia.
  rewrite (proj2 (Z.ltb_lt value _)) by lia.
  cbn [andb]. rewrite decide_True by exact Hlen. reflexivity.
Qed.

(** What [uint128.to] writes through a view of 16 bytes. *)
Lemma uint128_to_run (vm : VM) (ret_ value : Z) :
  Memory.inBounds (memory vm) ret_ 16 = true ->
  0 <= value < 2 ^ 128 ->
  exists m',
    (retBuffer <- Buffer_from_ ret_ 16 ;; uint128.to retBuffer value) vm
    = (Return tt, set_memory m' vm)
    /\ (exists written,
          Memory.view m' ret_ 16 = Some written
          /\ uint128.from written = Some value)
    /\ (forall p, 0 <= p -> p < ret_ \/ ret_ + 16 <= p ->
          m' !! Z.to_nat p = memory vm !! Z.to_nat p).
Proof.
  intros Hb Hv.
  set (low := value mod 2 ^ 64). set (high := value / 2 ^ 64).
  assert (Hlow : 0 <= low < 2 ^ 64) by (apply Z.mod_pos_bound; lia).
  assert (Hhigh : 0 <= high < 2 ^ 64).
  { unfold high. split; [apply Z.div_pos; lia|].
    apply Z.div_lt_upper_bound; [lia|]. change (2 ^ 64 * 2 ^ 64) with (2 ^ 128).
    lia. }
  assert (Hvalue : value = high * 2 ^ 64 + low).
  { unfold high, low. pose proof (Z.div_mod value (2 ^ 64) ltac:(lia)). lia. }
  assert (Hland : Z.land value (asUintN 64 (-1)) = low).
  { change (asUintN 64 (-1)) with (Z.ones 64). apply Z.land_ones. lia. }
  assert (Hshift : Z.shiftr value 64 = high).
  { apply Z.shiftr_div_pow2. lia. }
  destruct (in_bounds_view _ _ _ Hb) as [c Hc].
  pose proof (view_length _ _ _ _ Hc) as Hclen.
  set (c1 := Memory.uint64LE low ++ drop 8 c).
  assert (Hc1len : length c1 = 16%nat).
  { unfold c1. rewrite length_app, uint64LE_length, length_drop, Hclen. lia. }
  assert (Hb1 : Memory.inBounds (memory vm) ret_ (Z.of_nat (length c1)) = true).
  { rewrite Hc1len. exact Hb. }
  destruct (store_in_bounds _ _ _ Hb1) as [m1 Hst1].
  pose proof (view_store _ _ _ _ Hst1) as Hv1. rewrite Hc1len in Hv1.
  set (c2 := Memory.uint64LE low ++ Memory.uint64LE high).
  assert (Hc2len : length c2 = 16%nat) by reflexivity.
  assert (Hb2 : Memory.inBounds m1 ret_ (Z.of_nat (length c2)) = true).
  { rewrite Hc2len. apply inBounds_spec. rewrite (store_length _ _ _ _ Hst1).
    apply inBounds_spec. exact Hb. }
  destruct (store_in_bounds _ _ _ Hb2) as [m2 Hst2].
  pose proof (view_store _ _ _ _ Hst2) as Hv2. rewrite Hc2len in Hv2.
  exists m2. split; [|split].
  - assert (Hw1 : writeBigUInt64LE c (Z.land value (asUintN 64 (-1))) 0
                  = Some c1).
    { rewrite Hland, writeBigUInt64LE_in_range by (rewrite ?Hclen; lia).
      rewrite take_0. reflexivity. }
    assert (Hw2 : writeBigUInt64LE c1 (Z.shiftr value 64) 8 = Some c2).
    { rewrite Hshift, writeBigUInt64LE_in_range by (rewrite ?Hc1len; lia).
      unfold c1, c2. rewrite take_app_length' by reflexivity.
      rewrite drop_ge
        by (rewrite length_app, uint64LE_length, length_drop; lia).
      rewrite app_nil_r. reflexivity. }
    unfold bind at 1. rewrite Buffer_from__run, Hb.
    unfold uint128.to. unfold bind at 1.
    rewrite (view_writeBigUInt64LE_run vm ret_ 16 _ 0 c c1 m1 Hc Hw1 Hst1).
    rewrite (view_writeBigUInt64LE_run (set_memory m1 vm) ret_ 16 _ 8 c1 c2 m2
               Hv1 Hw2 Hst2).
    reflexivity.
  - exists c2. split; [exact Hv2|]. rewrite Hvalue.
    apply uint128_from_halves; assumption.
  - intros p Hp Hout.
    etransitivity.
    + apply (store_outside _ _ _ _ _ Hst2 Hp). rewrite Hc2len. lia.
    + apply (store_outside _ _ _ _ _ Hst1 Hp). rewrite Hc1len. lia.
Qed.

(** X19: [__udivti3] and [__umodti3] take two unsigned 128-bit operands
    [a] and [b] as pairs of 64-bit halves (read as unsigned).  With 16 bytes
    at [ret] inside guest memory and [b] not zero they write, in the
    little-endian layout that [uint128.from] reads, the quotient and the
    remainder of the division of [a] by [b]: [a = q * b + r] with
    [0 <= r < b]; no byte outside the 16 is changed.  With [b] zero both
    throw a [RangeError] and change nothing. *)
Theorem udivti3_umodti3_divide (vm : VM) (ret_ _la _ha _lb _hb : Z) :
  let a := convertToUnsigned _ha * 2 ^ 64 + convertToUnsigned _la in
  let b := convertToUnsigned _hb * 2 ^ 64 + convertToUnsigned _lb in
  Memory.inBounds (memory vm) ret_ 16 = true ->
  (b <> 0 ->
   exists mq mr wq wr q r,
     __udivti3 ret_ _la _ha _lb _hb vm = (Return tt, set_memory mq vm)
     /\ __umodti3 ret_ _la _ha _lb _hb vm = (Return tt, set_memory mr vm)
     /\ Memory.view mq ret_ 16 = Some wq /\ uint128.from wq = Some q
     /\ Memory.view mr ret_ 16 = Some wr /\ uint128.from wr = Some r
     /\ a = q * b + r /\ 0 <= r < b
     /\ (forall p, 0 <= p -> p < ret_ \/ ret_ + 16 <= p ->
           mq !! Z.to_nat p = memory vm !! Z.to_nat p
           /\ mr !! Z.to_nat p = memory vm !! Z.to_nat p))
  /\ (b = 0 ->
      __udivti3 ret_ _la _ha _lb _hb vm = (Throw RangeError, vm)
      /\ __umodti3 ret_ _la _ha _lb _hb vm = (Throw RangeError, vm)).
Proof.
  intros a b Hb.
  assert (Hu : forall v, 0 <= convertToUnsigned v < 2 ^ 64).
  { intros v. apply Z.mod_pos_bound. lia. }
  pose proof (Hu _la) as Hla. pose proof (Hu _ha) as Hha.
  pose proof (Hu _lb) as Hlb. pose proof (Hu _hb) as Hhb.
  assert (Ha : operand128 (convertToUnsigned _la) (convertToUnsigned _ha) = a)
    by (apply operand128_value; assumption).
  assert (Hbv : operand128 (convertToUnsigned _lb) (convertToUnsigned _hb) = b)
    by (apply operand128_value; assumption).
  assert (Har : 0 <= a < 2 ^ 128).
  { unfold a. change (2 ^ 128) with (2 ^ 64 * 2 ^ 64). nia. }
  assert (Hbr : 0 <= b < 2 ^ 128).
  { unfold b. change (2 ^ 128) with (2 ^ 64 * 2 ^ 64). nia. }
  unfold __udivti3, __umodti3, bigint_div, bigint_rem. cbv zeta.
  rewrite Ha, Hbv. split.
  - intros Hnz. rewrite (proj2 (Z.eqb_neq b 0) Hnz).
    rewrite Z.quot_div_nonneg, Z.rem_mod_nonneg by lia.
    assert (Hq : 0 <= a / b <= a).
    { split; [apply Z.div_pos; lia|]. apply Z.div_le_upper_bound; nia. }
    pose proof (Z.mod_pos_bound a b ltac:(lia)) as Hr.
    assert (Hqs : asUintN 128 (a / b) = a / b) by (apply Z.mod_small; lia).
    assert (Hrs : asUintN 128 (a mod b) = a mod b) by (apply Z.mod_small; lia).
    destruct (uint128_to_run vm ret_ (a / b) Hb ltac:(lia))
      as (mq & Hrunq & (wq & Hvq & Hfq) & Houtq).
    destruct (uint128_to_run vm ret_ (a mod b) Hb ltac:(lia))
      as (mr & Hrunr & (wr & Hvr & Hfr) & Houtr).
    exists mq, mr, wq, wr, (a / b), (a mod b).
    split; [unfold bind at 1; unfold ret at 1; rewrite Hqs; exact Hrunq|].
    split; [unfold bind at 1; unfold ret at 1; rewrite Hrs; exact Hrunr|].
    do 4 (split; [assumption|]).
    split; [pose proof (Z.div_mod a b Hnz); lia|]. split; [exact Hr|].
    intros p Hp Hout. split; [apply Houtq|apply Houtr]; assumption.
  - intros Hz. rewrite Hz. split; reflexivity.
Qed.

Lemma udivti3_umodti3_divide_witness :
  exists mq mr wq wr q r,
    __udivti3 8 100 1 7 0 filledVM = (Return tt, set_memory mq filledVM)
    /\ __umodti3 8 100 1 7 0 filledVM = (Return tt, set_memory mr filledVM)
    /\ Memory.view mq 8 16 = Some wq /\ uint128.from wq = Some q
    /\ Memory.view mr 8 16 = Some wr /\ uint128.from wr = Some r
    /\ convertToUnsigned 1 * 2 ^ 64 + convertToUnsigned 100
       = q * (convertToUnsigned 0 * 2 ^ 64 + convertToUnsigned 7) + r
    /\ 0 <= r < convertToUnsigned 0 * 2 ^ 64 + convertToUnsigned 7
    /\ (forall p, 0 <= p -> p < 8 \/ 8 + 16 <= p ->
          mq !! Z.to_nat p = memory filledVM !! Z.to_nat p
          /\ mr !! Z.to_nat p = memory filledVM !! Z.to_nat p).
Proof.
  refine (proj1 (udivti3_umodti3_divide filledVM 8 100 1 7 0 eq_refl) _).
  vm_compute. discriminate.
Defined.
(** ** The authorization checks of apply *)

Lemma checkAuthorization_cases
    (isAuthoritySatisfied : Authority.t -> PermissionLevel.t -> bool)
    (authorization : list PermissionLevel.t) (vm : VM) :
  (Forall (entryPasses isAuthoritySatisfied vm) authorization
   /\ checkAuthorization isAuthoritySatisfied authorization vm = (Return tt, vm))
  \/ (~ Forall (entryPasses isAuthoritySatisfied vm) authorization
      /\ exists message,
           checkAuthorization isAuthoritySatisfied authorization vm
           = (Throw (Error message), vm)).
Proof.
  induction authorization as [|auth rest IH]; [left; split; [constructor|reflexivity]|].
  simpl. unfold getAccount. run.
  destruct (Blockchain.getAccount (bc vm) (PermissionLevel.actor auth))
    as [account|] eqn:Hacc.
  2:{ right. split; [|eauto].
      intros Hall. apply Forall_cons in Hall as [(a & p & Ha & _) _].
      congruence. }
  destruct (List.find _ (Account.permissions account)) as [perm|] eqn:Hperm.
  2:{ right. split; [|eauto].
      intros Hall. apply Forall_cons in Hall as [(a & p & Ha & Hp & _) _].
      congruence. }
  assert (Hiff : entryPasses isAuthoritySatisfied vm auth
                 <-> (Context.isInline (context vm) = true ->
                      isAuthoritySatisfied (Permission.required_auth perm)
                        (PermissionLevel.mk (Context.sender (context vm))
                                            (Name_from "eosio.code")) = true)).
  { split.
    - intros (a & p & Ha & Hp & Hs).
      rewrite Hacc in Ha. injection Ha as <-.
      rewrite Hperm in Hp. injection Hp as <-. exact Hs.
    - intros Hs. exists account, perm. auto. }
  destruct (Context.isInline (context vm)) eqn:Hinline.
  - destruct (isAuthoritySatisfied _ _) eqn:Hsat; simpl.
    + destruct IH as [[Hall Hrun]|[Hnot [msg Hrun]]].
      * left. rewrite Hrun.
        split; [constructor; [apply Hiff; auto|exact Hall]|reflexivity].
      * right. rewrite Hrun. split; [rewrite Forall_cons; tauto|eauto].
    + right. split; [|eauto].
      rewrite Forall_cons. intros [Hp _].
      pose proof (proj1 Hiff Hp eq_refl) as Hbad. discriminate.
  - simpl. destruct IH as [[Hall Hrun]|[Hnot [msg Hrun]]].
    + left. rewrite Hrun.
      split; [constructor; [apply Hiff; discriminate|exact Hall]|reflexivity].
    + right. rewrite Hrun. split; [rewrite Forall_cons; tauto|eauto].
Qed.

Lemma checkAuthorization_not_inline
    (sat sat' : Authority.t -> PermissionLevel.t -> bool)
    (authorization : list PermissionLevel.t) (vm : VM) :
  Context.isInline (context vm) = false ->
  checkAuthorization sat authorization vm
  = checkAuthorization sat' authorization vm.
Proof.
  intros Hinline. induction authorization as [|auth rest IH]; [reflexivity|].
  simpl. unfold getAccount. run.
  destruct (Blockchain.getAccount (bc vm) (PermissionLevel.actor auth));
    [|reflexivity].
  destruct (List.find _ _); [|reflexivity].
  rewrite Hinline. simpl. rewrite IH. reflexivity.
Qed.

(** X20: [apply] runs the guest exactly when every entry of the
    authorization list of the context names an account that exists and a
    permission that the account has, satisfied, for an inline action, by
    the sender's [eosio.code] permission; its outcome is then the guest's,
    in the state the guest reached with the caches made fresh.  Otherwise it
    throws before the guest runs, with the new context installed and nothing
    else changed.  For an action that is not inline the outcome does not
    depend on [isAuthoritySatisfied]. *)
Theorem apply_runs_guest_iff_authorized
    (isAuthoritySatisfied : Authority.t -> PermissionLevel.t -> bool)
    (exports_apply : Z -> Z -> Z -> M unit)
    (vm : VM) (ctx : Context.t) :
  let vm0 := set_context ctx vm in
  let guest := exports_apply (Context.receiver ctx) (Context.firstReceiver ctx)
                 (Context.action ctx) in
  (Forall (entryPasses isAuthoritySatisfied vm0) (Context.authorization ctx) ->
   apply isAuthoritySatisfied exports_apply ctx vm
   = (fst (guest vm0), finalize (snd (guest vm0))))
  /\ (~ Forall (entryPasses isAuthoritySatisfied vm0)
          (Context.authorization ctx) ->
      exists message,
        apply isAuthoritySatisfied exports_apply ctx vm
        = (Throw (Error message), vm0))
  /\ (Context.isInline ctx = false ->
      forall isAuthoritySatisfied',
        apply isAuthoritySatisfied exports_apply ctx vm
        = apply isAuthoritySatisfied' exports_apply ctx vm).
Proof.
  intros vm0 guest.
  assert (Happly : forall sat,
            apply sat exports_apply ctx vm
            = match checkAuthorization sat (Context.authorization ctx) vm0 with
              | (Return _, vm1) => tryFinally guest finalize vm1
              | (Throw e, vm1) => (Throw e, vm1)
              end).
  { intros sat. unfold apply. run. fold vm0.
    destruct (checkAuthorization sat (Context.authorization ctx) vm0)
      as [[[]|e] vm1]; reflexivity. }
  split; [|split].
  - intros Hall. rewrite Happly.
    destruct (checkAuthorization_cases isAuthoritySatisfied
                (Context.authorization ctx) vm0) as [[_ Hrun]|[Hnot _]];
      [|contradiction].
    rewrite Hrun. unfold tryFinally. destruct (guest vm0). reflexivity.
  - intros Hnot. rewrite Happly.
    destruct (checkAuthorization_cases isAuthoritySatisfied
                (Context.authorization ctx) vm0) as [[Hall _]|[_ [msg Hrun]]];
      [contradiction|].
    rewrite Hrun. eauto.
  - intros Hinline sat'. rewrite !Happly.
    rewrite (checkAuthorization_not_inline isAuthoritySatisfied sat')
      by exact Hinline.
    reflexivity.
Qed.
(** ** Update and remove in the idx256 index *)

Lemma cache_get_run (vm : VM) (h : Z) (obj : IndexObject.t bytes) :
  IteratorCache.get (idx256 vm) h = Some obj ->
  cache_get idx256Ref h vm = (Return obj, vm).
Proof. intros Hg. unfold cache_get. run. simpl. rewrite Hg. reflexivity. Qed.

Lemma cache_getTable_run (vm : VM) (tableId e : Z) (tab : Table.t) :
  IteratorCache.getEndIteratorByTableId (idx256 vm) tableId = Some e ->
  Store.getTableById (Blockchain.store (bc vm)) tableId = Some tab ->
  cache_getTable idx256Ref tableId vm = (Return tab, vm).
Proof.
  intros He Ht. unfold cache_getTable, getTableById. run. simpl.
  rewrite He. simpl. rewrite Ht. reflexivity.
Qed.

Lemma secondary_get_delete {K} (index : SecondaryKeyStore.t K)
    (obj : IndexObject.t K) :
  SecondaryKeyStore.get (SecondaryKeyStore.delete obj index)
    (IndexObject.tableId obj) (IndexObject.primaryKey obj) = None.
Proof.
  unfold SecondaryKeyStore.get, SecondaryKeyStore.delete.
  apply find_filter_drops. intros x Hx. rewrite Hx. reflexivity.
Qed.

Lemma cacheTable_known {T} (c : IteratorCache.t T) (tableId e : Z) :
  IteratorCache.getEndIteratorByTableId c tableId = Some e ->
  IteratorCache.cacheTable c tableId = (e, c).
Proof. intros He. unfold IteratorCache.cacheTable. rewrite He. reflexivity. Qed.

Lemma set_idx256_same (vm : VM) : set_idx256 (idx256 vm) vm = vm.
Proof. destruct vm. reflexivity. Qed.

Lemma db_idx256_find_primary_absent
    (vm : VM) (_code _scope _table out out_len _primary e : Z) (tab : Table.t) :
  Store.findTable (Blockchain.store (bc vm)) (convertToUnsigned _code)
    (convertToUnsigned _scope) (convertToUnsigned _table) = Some tab ->
  IteratorCache.getEndIteratorByTableId (idx256 vm) (Table.id tab) = Some e ->
  Memory.inBounds (memory vm) out 32 = true ->
  SecondaryKeyStore.get (Store.idx256 (Blockchain.store (bc vm)))
    (Table.id tab) (convertToUnsigned _primary) = None ->
  db_idx256_find_primary _code _scope _table out out_len _primary vm
  = (Return e, vm).
Proof.
  intros Hfind Hend Hout Hnone.
  unfold db_idx256_find_primary, genericIndex.find_primary, findTable.
  unfold bind at 1. rewrite Buffer_from__run, Hout.
  unfold bind at 1. unfold gets at 1. rewrite Hfind.
  unfold bind at 1. unfold cache_cacheTable at 1. cbn [getCache idx256Ref].
  rewrite (cacheTable_known _ _ _ Hend). cbn [setCache idx256Ref].
  rewrite set_idx256_same.
  unfold bind at 1. unfold gets at 1. cbn [getIndex idx256Ref].
  rewrite Hnone. reflexivity.
Qed.

Lemma db_idx256_find_primary_present
    (vm : VM) (_code _scope _table out out_len _primary e : Z) (tab : Table.t)
    (obj : IndexObject.t bytes) (buffer raw : bytes) (m' : Memory.t) :
  Store.findTable (Blockchain.store (bc vm)) (convertToUnsigned _code)
    (convertToUnsigned _scope) (convertToUnsigned _table) = Some tab ->
  IteratorCache.getEndIteratorByTableId (idx256 vm) (Table.id tab) = Some e ->
  Memory.view (memory vm) out 32 = Some buffer ->
  SecondaryKeyStore.get (Store.idx256 (Blockchain.store (bc vm)))
    (Table.id tab) (convertToUnsigned _primary) = Some obj ->
  SecondaryKeyConverter.checksum256.to buffer (IndexObject.secondaryKey obj)
  = Some raw ->
  Memory.store (memory vm) out raw = Some m' ->
  db_idx256_find_primary _code _scope _table out out_len _primary vm
  = (Return (fst (IteratorCache.add (idx256 vm) obj)),
     set_idx256 (snd (IteratorCache.add (idx256 vm) obj)) (set_memory m' vm)).
Proof.
  intros Hfind Hend Hbuf Hsome Hto Hst.
  unfold db_idx256_find_primary, genericIndex.find_primary, findTable.
  unfold bind at 1. rewrite Buffer_from__run, (view_in_bounds _ _ _ _ Hbuf).
  unfold bind at 1. unfold gets at 1. rewrite Hfind.
  unfold bind at 1. unfold cache_cacheTable at 1. cbn [getCache idx256Ref].
  rewrite (cacheTable_known _ _ _ Hend). cbn [setCache idx256Ref].
  rewrite set_idx256_same.
  unfold bind at 1. unfold gets at 1. cbn [getIndex idx256Ref].
  rewrite Hsome.
  unfold convTo. unfold bind at 1. unfold bind at 1.
  rewrite (viewBytes_run _ _ _ _ Hbuf).
  cbn [conv_to checksum256]. rewrite Hto.
  unfold memoryStore, cache_add. cbn [viewPtr getCache setCache idx256Ref].
  unfold bind, gets, orThrow, ret, modify. rewrite Hst. reflexivity.
Qed.

(** X21: when the handle resolves to an entry of a table of the receiver
    that the idx256 cache has recorded, [db_idx256_remove] returns;
    afterwards the handle no longer resolves, and [db_idx256_find_primary]
    for the primary key of the entry returns the end iterator of the table
    and writes nothing.  The tables of the store and guest memory are as
    before. *)
Theorem db_idx256_remove_then_find_primary
    (vm : VM) (h e _code _scope _table out out_len _primary : Z)
    (obj : IndexObject.t bytes) (tab : Table.t) :
  IteratorCache.get (idx256 vm) h = Some obj ->
  IteratorCache.getEndIteratorByTableId (idx256 vm) (IndexObject.tableId obj)
  = Some e ->
  Store.getTableById (Blockchain.store (bc vm)) (IndexObject.tableId obj)
  = Some tab ->
  Store.findTable (Blockchain.store (bc vm)) (convertToUnsigned _code)
    (convertToUnsigned _scope) (convertToUnsigned _table) = Some tab ->
  Table.code tab = Context.receiver (context vm) ->
  convertToUnsigned _primary = IndexObject.primaryKey obj ->
  Memory.inBounds (memory vm) out 32 = true ->
  exists vm1,
    db_idx256_remove h vm = (Return tt, vm1)
    /\ IteratorCache.get (idx256 vm1) h = None
    /\ Store.tables (Blockchain.store (bc vm1))
       = Store.tables (Blockchain.store (bc vm))
    /\ memory vm1 = memory vm
    /\ e < -1
    /\ db_idx256_find_primary _code _scope _table out out_len _primary vm1
       = (Return e, vm1).
Proof.
  intros Hget Hend Htab Hfind Hcode Hprimary Hout.
  destruct (getTableById_In _ _ _ Htab) as [_ Hid].
  set (vm1 := set_idx256 (IteratorCache.remove (idx256 vm) h)
                (set_store (Store.with_idx256
                              (SecondaryKeyStore.delete obj
                                 (Store.idx256 (Blockchain.store (bc vm))))
                              (Blockchain.store (bc vm))) vm)).
  exists vm1. split; [|split; [apply get_remove|split; [reflexivity|
    split; [reflexivity|split; [exact (endIterator_below_minus_1 _ _ _ Hend)|]]]]].
  - unfold db_idx256_remove, genericIndex.remove.
    unfold bind at 1. rewrite (cache_get_run _ _ _ Hget).
    unfold bind at 1. rewrite (cache_getTable_run _ _ _ _ Hend Htab).
    run. rewrite Hcode, Z.eqb_refl. reflexivity.
  - apply (db_idx256_find_primary_absent vm1 _code _scope _table out out_len
             _primary e tab).
    + exact Hfind.
    + rewrite Hid. exact Hend.
    + exact Hout.
    + rewrite Hprimary, Hid. apply secondary_get_delete.
Qed.

Lemma db_idx256_remove_then_find_primary_witness :
  let vm := snd (db_idx256_store scopeName tableName alice 7 0 32 filledVM) in
  exists vm1,
    db_idx256_remove 0 vm = (Return tt, vm1)
    /\ IteratorCache.get (idx256 vm1) 0 = None
    /\ Store.tables (Blockchain.store (bc vm1))
       = Store.tables (Blockchain.store (bc vm))
    /\ memory vm1 = memory vm
    /\ -2 < -1
    /\ db_idx256_find_primary alice scopeName tableName 32 32 7 vm1
       = (Return (-2), vm1).
Proof.
  intros vm.
  refine (db_idx256_remove_then_find_primary vm 0 (-2) alice scopeName
            tableName 32 32 7
            (IndexObject.mk 0 7
               (SecondaryKeyConverter.checksum256.from raw_0_to_31) alice)
            (Table.mk 0 alice scopeName tableName alice [])
            _ _ _ _ _ _ _).
  - vm_compute. reflexivity.
  - vm_compute. reflexivity.
  - vm_compute. reflexivity.
  - vm_compute. reflexivity.
  - reflexivity.
  - vm_compute. reflexivity.
  - vm_compute. reflexivity.
Defined.

(** X22: when the handle resolves to an entry of a table of the receiver
    that the idx256 cache has recorded and the 32 bytes at [data] are inside
    guest memory, [db_idx256_update] returns; afterwards the handle resolves
    to an entry with the same table and primary key, the converted bytes as
    its key and the payer given, or the former payer when the payer given
    is zero, and [db_idx256_find_primary] for that primary key writes the
    32 bytes given back to its buffer. *)
Theorem db_idx256_update_then_find_primary
    (vm : VM) (h e _payer data data_len : Z)
    (_code _scope _table out out_len _primary : Z)
    (obj : IndexObject.t bytes) (tab : Table.t) (raw : bytes) :
  IteratorCache.get (idx256 vm) h = Some obj ->
  IteratorCache.getEndIteratorByTableId (idx256 vm) (IndexObject.tableId obj)
  = Some e ->
  Store.getTableById (Blockchain.store (bc vm)) (IndexObject.tableId obj)
  = Some tab ->
  Store.findTable (Blockchain.store (bc vm)) (convertToUnsigned _code)
    (convertToUnsigned _scope) (convertToUnsigned _table) = Some tab ->
  Table.code tab = Context.receiver (context vm) ->
  convertToUnsigned _primary = IndexObject.primaryKey obj ->
  Memory.view (memory vm) data 32 = Some raw ->
  Memory.inBounds (memory vm) out 32 = true ->
  exists vm1 newObj,
    db_idx256_update h _payer data data_len vm = (Return tt, vm1)
    /\ IteratorCache.get (idx256 vm1) h = Some newObj
    /\ IndexObject.tableId newObj = IndexObject.tableId obj
    /\ IndexObject.primaryKey newObj = IndexObject.primaryKey obj
    /\ IndexObject.secondaryKey newObj
       = SecondaryKeyConverter.checksum256.from raw
    /\ IndexObject.payer newObj
       = (if convertToUnsigned _payer =? 0 then IndexObject.payer obj
          else convertToUnsigned _payer)
    /\ memory vm1 = memory vm
    /\ exists h' vm2,
         db_idx256_find_primary _code _scope _table out out_len _primary vm1
         = (Return h', vm2)
         /\ IteratorCache.get (idx256 vm2) h' = Some newObj
         /\ Memory.view (memory vm2) out 32 = Some raw.
Proof.
  intros Hget Hend Htab Hfind Hcode Hprimary Hview Hout.
  destruct (getTableById_In _ _ _ Htab) as [_ Hid].
  pose proof (view_length _ _ _ _ Hview) as Hraw.
  set (newObj := IndexObject.mk (IndexObject.tableId obj)
                   (IndexObject.primaryKey obj)
                   (SecondaryKeyConverter.checksum256.from raw)
                   (if asUintN 64 _payer =? 0 then IndexObject.payer obj
                    else asUintN 64 _payer)).
  set (vm1 := set_idx256 (IteratorCache.set (idx256 vm) h newObj)
                (set_store (Store.with_idx256
                              (SecondaryKeyStore.set (Some obj) newObj
                                 (Store.idx256 (Blockchain.store (bc vm))))
                              (Blockchain.store (bc vm))) vm)).
  exists vm1, newObj.
  split.
  { unfold db_idx256_update, genericIndex.update.
    unfold bind at 1. rewrite Buffer_from__run, (view_in_bounds _ _ _ _ Hview).
    unfold bind at 1. rewrite (cache_get_run _ _ _ Hget).
    unfold bind at 1. rewrite (cache_getTable_run _ _ _ _ Hend Htab).
    unfold viewBytes, memoryView. run. rewrite Hcode, Z.eqb_refl. simpl.
    rewrite Hview. reflexivity. }
  split; [exact (get_set_handle _ _ _ _ Hget)|].
  do 4 (split; [reflexivity|]). split; [reflexivity|].
  (* the key is read back *)
  destruct (in_bounds_view _ _ _ Hout) as [buffer Hbuf].
  assert (Hbuffer : length buffer = 32%nat).
  { apply view_length in Hbuf. exact Hbuf. }
  destruct (checksum256_converter raw buffer Hraw Hbuffer) as (_ & _ & Hto).
  assert (Hst : exists m', Memory.store (memory vm) out raw = Some m').
  { apply store_in_bounds. rewrite Hraw. exact Hout. }
  destruct Hst as [m' Hst].
  pose proof (view_store _ _ _ _ Hst) as Hback. rewrite Hraw in Hback.
  assert (Hsome : SecondaryKeyStore.get
                    (Store.idx256 (Blockchain.store (bc vm1)))
                    (Table.id tab) (convertToUnsigned _primary) = Some newObj).
  { rewrite Hprimary, Hid. apply (secondary_get_set _ (Some obj) newObj). }
  rewrite (db_idx256_find_primary_present vm1 _code _scope _table out out_len
             _primary e tab newObj buffer raw m' Hfind
             ltac:(rewrite Hid; exact Hend) Hbuf Hsome Hto Hst).
  eexists. eexists. split; [reflexivity|]. split; [apply get_add|exact Hback].
Qed.

Lemma db_idx256_update_then_find_primary_witness :
  let vm := snd (db_idx256_store scopeName tableName alice 7 0 32 filledVM) in
  exists vm1 newObj,
    db_idx256_update 0 0 16 32 vm = (Return tt, vm1)
    /\ IteratorCache.get (idx256 vm1) 0 = Some newObj
    /\ IndexObject.tableId newObj = 0
    /\ IndexObject.primaryKey newObj = 7
    /\ IndexObject.secondaryKey newObj
       = SecondaryKeyConverter.checksum256.from
           (drop 16 raw_0_to_31 ++ replicate 16 x00)
    /\ IndexObject.payer newObj = alice
    /\ memory vm1 = memory vm
    /\ exists h' vm2,
         db_idx256_find_primary alice scopeName tableName 32 32 7 vm1
         = (Return h', vm2)
         /\ IteratorCache.get (idx256 vm2) h' = Some newObj
         /\ Memory.view (memory vm2) 32 32
            = Some (drop 16 raw_0_to_31 ++ replicate 16 x00).
Proof.
  intros vm.
  refine (db_idx256_update_then_find_primary vm 0 (-2) 0 16 32 alice scopeName
            tableName 32 32 7
            (IndexObject.mk 0 7
               (SecondaryKeyConverter.checksum256.from raw_0_to_31) alice)
            (Table.mk 0 alice scopeName tableName alice [])
            (drop 16 raw_0_to_31 ++ replicate 16 x00)
            _ _ _ _ _ _ _ _).
  - vm_compute. reflexivity.
  - vm_compute. reflexivity.
  - vm_compute. reflexivity.
  - vm_compute. reflexivity.
  - reflexivity.
  - vm_compute. reflexivity.
  - vm_compute. reflexivity.
  - vm_compute. reflexivity.
Defined.
(** ** Key recovery *)

Lemma slice_to_take (b : bytes) (stop : Z) :
  0 <= stop -> slice_to b stop = take (Z.to_nat stop) b.
Proof.
  intros Hs. unfold slice_to. cbv zeta.
  rewrite (proj2 (Z.ltb_ge _ _)) by lia.
  destruct (Z.le_gt_cases stop (Z.of_nat (length b))) as [Hle|Hgt].
  - rewrite Z.min_l by lia. reflexivity.
  - rewrite Z.min_r by lia. rewrite Nat2Z.id.
    rewrite firstn_all. symmetry. apply take_ge. lia.
Qed.


Lemma view_set_at_run (vm : VM) (ptr len : Z) (source : bytes) (offset : nat) :
  Memory.inBounds (memory vm) ptr len = true ->
  Z.of_nat offset + Z.of_nat (length source) <= len ->
  exists m',
    view_set_at (mkView ptr len) source offset vm = (Return tt, set_memory m' vm)
    /\ Memory.store (memory vm) (ptr + Z.of_nat offset) source = Some m'.
Proof.
  intros Hb Hlen. pose proof (proj1 (inBounds_spec _ _ _) Hb) as (Hp & Hl & He).
  assert (Hs : Memory.inBounds (memory vm) (ptr + Z.of_nat offset)
                 (Z.of_nat (length source)) = true).
  { apply inBounds_spec. lia. }
  destruct (store_in_bounds _ _ _ Hs) as [m' Hst]. exists m'.
  split; [|exact Hst].
  destruct (in_bounds_view _ _ _ Hb) as [target Hv].
  pose proof (view_length _ _ _ _ Hv) as Htl.
  unfold view_set_at. unfold bind at 1. rewrite (viewBytes_run _ _ _ _ Hv).
  unfold typed_set_at. rewrite decide_True by lia.
  unfold memoryStore. cbn [viewPtr]. unfold bind, gets, orThrow, ret, modify.
  assert (Hsame : Memory.store (memory vm) ptr
                    (take offset target ++ source
                     ++ drop (offset + length source) target) = Some m').
  { rewrite <- Hst. unfold Memory.store. rewrite Hs.
    assert (Hb' : Memory.inBounds (memory vm) ptr
                    (Z.of_nat (length (take offset target ++ source
                                  ++ drop (offset + length source) target)))
                  = true).
    { apply inBounds_spec.
      rewrite !length_app, length_take, length_drop. lia. }
    rewrite Hb'. f_equal.
    assert (Htarget : target = take (Z.to_nat len) (drop (Z.to_nat ptr) (memory vm))).
    { unfold Memory.view in Hv. rewrite Hb in Hv. congruence. }
    rewrite !length_app, length_take, length_drop, Htl.
    rewrite Htarget.
    rewrite take_take. rewrite Nat.min_l by lia.
    rewrite skipn_firstn_comm. rewrite drop_drop.
    rewrite !app_assoc. rewrite take_take_drop.
    replace (Z.to_nat (ptr + Z.of_nat offset)) with (Z.to_nat ptr + offset)%nat
      by lia.
    rewrite <- !app_assoc. f_equal. f_equal.
    set (k := (Z.to_nat len - (offset + length source))%nat).
    replace (Z.to_nat ptr + (offset + (length source + k)))%nat
      with (Z.to_nat ptr + (offset + length source) + k)%nat by lia.
    replace (Z.to_nat ptr + offset + length source)%nat
      with (Z.to_nat ptr + (offset + length source))%nat by lia.
    rewrite <- (drop_drop (memory vm) k).
    apply take_drop. }
  rewrite Hsame. reflexivity.
Qed.

Lemma view_set_at_no_room (vm : VM) (ptr len : Z) (source : bytes)
    (offset : nat) :
  Memory.inBounds (memory vm) ptr len = true ->
  len < Z.of_nat offset + Z.of_nat (length source) ->
  view_set_at (mkView ptr len) source offset vm = (Throw RangeError, vm).
Proof.
  intros Hb Hlen. pose proof (proj1 (inBounds_spec _ _ _) Hb) as (Hp & Hl & He).
  destruct (in_bounds_view _ _ _ Hb) as [target Hv].
  pose proof (view_length _ _ _ _ Hv) as Htl.
  unfold view_set_at. unfold bind at 1. rewrite (viewBytes_run _ _ _ _ Hv).
  unfold typed_set_at. rewrite decide_False by lia. reflexivity.
Qed.

(** X25: [recover_key] on a signature range inside guest memory.  A
    signature whose first byte is not 0, or that is empty, ends in
    "unsupported signature type" with the machine as before.  Once the key
    is recovered and the result range is inside guest memory, the value
    returned is [min(length of the key + 1, publen)], one more than the
    number of bytes of the key written; they are written from [pub + 1] on,
    and the byte at [pub], like every other byte, is left as it was.  With
    [publen] zero it throws a [RangeError] and changes nothing. *)
Theorem recover_key_leaves_first_byte
    (Signature : Type)
    (Signature_from : Z -> bytes -> bytes -> Outcome Signature)
    (recoverDigest : Signature -> bytes -> Outcome bytes)
    (vm : VM) (digest sig siglen pub publen : Z) (signatureBytes : bytes) :
  Memory.view (memory vm) sig siglen = Some signatureBytes ->
  let run := recover_key Signature Signature_from recoverDigest
               digest sig siglen pub publen vm in
  ((forall b, signatureBytes !! 0%nat = Some b -> byteToZ b <> 0) ->
   run = (Throw (Error "unsupported signature type"), vm))
  /\ (forall parsed digestBytes publicKey,
        signatureBytes !! 0%nat = Some x00 ->
        Signature_from (recidOf (signatureBytes !! 1%nat))
          (slice signatureBytes 2 34) (slice signatureBytes 34 66)
        = Return parsed ->
        Memory.view (memory vm) digest 32 = Some digestBytes ->
        recoverDigest parsed digestBytes = Return publicKey ->
        Memory.inBounds (memory vm) pub publen = true ->
        (publen = 0 -> run = (Throw RangeError, vm))
        /\ (0 < publen ->
            let size := Z.min (Z.of_nat (length publicKey) + 1) publen in
            exists m',
              run = (Return size, set_memory m' vm)
              /\ Memory.view m' (pub + 1) (size - 1)
                 = Some (take (Z.to_nat (size - 1)) publicKey)
              /\ forall p, 0 <= p -> p < pub + 1 \/ pub + size <= p ->
                   m' !! Z.to_nat p = memory vm !! Z.to_nat p)).
Proof.
  intros Hsv run0. subst run0.
  pose proof (view_in_bounds _ _ _ _ Hsv) as Hsig.
  assert (Hhead : forall k : M Z,
            (signature <- Buffer_from_ sig siglen ;;
             signatureBytes <- viewBytes signature ;;
             k) vm = k vm).
  { intros k. unfold bind at 1. rewrite Buffer_from__run, Hsig.
    unfold bind at 1. rewrite (viewBytes_run _ _ _ _ Hsv). reflexivity. }
  split.
  - intros Htype. unfold recover_key.
    unfold bind at 1. rewrite Buffer_from__run, Hsig.
    unfold bind at 1. rewrite (viewBytes_run _ _ _ _ Hsv).
    unfold bind at 1.
    destruct (signatureBytes !! 0%nat) as [b|] eqn:Hb; [|reflexivity].
    rewrite (proj2 (Z.eqb_neq _ _) (Htype b eq_refl)). reflexivity.
  - intros parsed digestBytes publicKey Hb Hfrom Hdv Hrec Hpub.
    pose proof (view_in_bounds _ _ _ _ Hdv) as Hdig.
    pose proof (proj1 (inBounds_spec _ _ _) Hpub) as (Hp & Hl & He).
    assert (Hrun : recover_key Signature Signature_from recoverDigest
                     digest sig siglen pub publen vm
                   = (view_set_at (mkView pub publen)
                        (slice_to publicKey
                           (Z.min (Z.of_nat (length publicKey) + 1) publen - 1))
                        1 ;;;
                      ret (Z.min (Z.of_nat (length publicKey) + 1) publen)) vm).
    { unfold recover_key.
      unfold bind at 1. rewrite Buffer_from__run, Hsig.
      unfold bind at 1. rewrite (viewBytes_run _ _ _ _ Hsv).
      unfold bind at 1. rewrite Hb. change (byteToZ x00 =? 0) with true.
      unfold assert at 1. unfold ret at 1.
      unfold bind at 1. unfold liftOutcome at 1. rewrite Hfrom.
      unfold bind at 1. rewrite Buffer_from__run, Hdig.
      unfold bind at 1. rewrite (viewBytes_run _ _ _ _ Hdv).
      unfold bind at 1. unfold liftOutcome at 1. rewrite Hrec.
      cbv zeta. unfold bind at 1. rewrite Buffer_from__run, Hpub.
      reflexivity. }
    rewrite Hrun. split.
    + intros ->. unfold bind.
      rewrite view_set_at_no_room; [reflexivity|exact Hpub|].
      change (Z.of_nat 1) with 1. lia.
    + intros Hpos size.
      assert (Hsz : 0 <= size - 1 <= Z.of_nat (length publicKey)
                    /\ size <= publen) by (unfold size; lia).
      fold size. rewrite slice_to_take by lia.
      assert (Hlen : length (take (Z.to_nat (size - 1)) publicKey)
                     = Z.to_nat (size - 1)).
      { rewrite length_take. lia. }
      destruct (view_set_at_run vm pub publen
                  (take (Z.to_nat (size - 1)) publicKey) 1 Hpub)
        as (m' & Hset & Hst).
      { rewrite Hlen. change (Z.of_nat 1) with 1. lia. }
      change (Z.of_nat 1) with 1 in Hst.
      exists m'. split; [unfold bind; rewrite Hset; reflexivity|]. split.
      * pose proof (view_store _ _ _ _ Hst) as Hback. rewrite Hlen in Hback.
        replace (Z.of_nat (Z.to_nat (size - 1))) with (size - 1) in Hback
          by lia.
        exact Hback.
      * intros p Hp0 Hwhere. apply (store_outside _ _ _ _ _ Hst Hp0).
        rewrite Hlen. lia.
Qed.

Lemma recover_key_leaves_first_byte_witness :
  let from := fun (recid : Z) (r s : bytes) => Return (recid, r, s) in
  let recover := fun (_ : Z * bytes * bytes) (d : bytes) => Return d in
  let vm := blankVM (blankContext alice) 128 in
  exists m',
    recover_key (Z * bytes * bytes) from recover 66 0 66 100 20 vm
    = (Return 20, set_memory m' vm)
    /\ Memory.view m' (100 + 1) (20 - 1) = Some (replicate 19 x00)
    /\ forall p, 0 <= p -> p < 100 + 1 \/ 100 + 20 <= p ->
         m' !! Z.to_nat p = memory vm !! Z.to_nat p.
Proof.
  intros from recover vm.
  refine (proj2 (proj2 (recover_key_leaves_first_byte
                   (Z * bytes * bytes) from recover vm 66 0 66 100 20
                   (replicate 66 x00) eq_refl)
                   (1, replicate 32 x00, replicate 32 x00)
                   (replicate 32 x00) (replicate 32 x00)
                   eq_refl eq_refl eq_refl eq_refl eq_refl) _).
  lia.
Defined.

(** ** What is enqueued *)

Lemma notificationContext_firstReceiver (accountName : Z) (ctx : Context.t) :
  Context.firstReceiver (notificationContext accountName ctx)
  = Context.firstReceiver ctx.
Proof.
  unfold notificationContext. simpl. unfold Context.isNotification.
  destruct (Context.receiver ctx =? Context.firstReceiver ctx) eqn:He;
    [|reflexivity].
  simpl. apply Z.eqb_eq. exact He.
Qed.

(** X23: [require_recipient] and [send_inline] change nothing of the
    machine but a queue of the context, to which they append at most one
    context, whatever their arguments and whether they return or throw.
    The context that [require_recipient] appends has the recipient as its
    receiver, which is not the current receiver, the first receiver, the
    action, the data and the action ordinal of the current context, no
    authorization and no sender; it is a notification exactly when the
    recipient is not that first receiver.  The context that [send_inline]
    appends is never a notification; its sender is the current receiver. *)
Theorem enqueued_contexts_shape
    (decode : bytes -> Outcome Action.t)
    (decodeData : Action.t -> string -> Outcome DecodedData)
    (vm : VM) :
  (forall name,
      snd (require_recipient name vm) = vm
      \/ exists n,
           require_recipient name vm
           = (Return tt,
              set_context (Context.push_notification n (context vm)) vm)
           /\ Context.receiver n = convertToUnsigned name
           /\ Context.receiver n <> Context.receiver (context vm)
           /\ Context.firstReceiver n = Context.firstReceiver (context vm)
           /\ Context.action n = Context.action (context vm)
           /\ Context.data n = Context.data (context vm)
           /\ Context.actionOrdinal n = Context.actionOrdinal (context vm)
           /\ Context.authorization n = []
           /\ Context.isInline n = false
           /\ (Context.isNotification n = true
               <-> convertToUnsigned name
                   <> Context.firstReceiver (context vm)))
  /\ (forall action size,
        snd (send_inline decode decodeData action size vm) = vm
        \/ exists child,
             send_inline decode decodeData action size vm
             = (Return tt,
                set_context (Context.push_action child (context vm)) vm)
             /\ Context.isNotification child = false
             /\ Context.sender child = Context.receiver (context vm)
             /\ Context.actionOrdinal child = None).
Proof.
  split.
  - intros name. unfold require_recipient, getAccount. run.
    destruct (Blockchain.getAccount (bc vm) (convertToUnsigned name))
      as [account|]; [|left; reflexivity].
    destruct (List.find _ _); [left; reflexivity|].
    destruct (Account.isContract account); simpl; [|left; reflexivity].
    destruct (convertToUnsigned name =? Context.receiver (context vm)) eqn:Hself;
      [left; reflexivity|].
    right. apply Z.eqb_neq in Hself.
    exists (notificationContext (convertToUnsigned name) (context vm)).
    split; [reflexivity|]. split; [reflexivity|]. split; [exact Hself|].
    split; [apply notificationContext_firstReceiver|].
    do 5 (split; [reflexivity|]).
    unfold Context.isNotification at 1.
    rewrite notificationContext_firstReceiver.
    change (Context.receiver (notificationContext _ _))
      with (convertToUnsigned name).
    rewrite negb_true_iff. apply Z.eqb_neq.
  - intros action size. unfold send_inline, memoryView, getAccount. run.
    destruct (Memory.view (memory vm) action size) as [inlineBuffer|];
      [|left; reflexivity].
    simpl. destruct (decode inlineBuffer) as [decodedAction|e];
      [|left; reflexivity].
    destruct (Blockchain.getAccount (bc vm) (Action.account decodedAction))
      as [contract|]; [|left; reflexivity].
    destruct (Account.isContract contract); simpl; [|left; reflexivity].
    destruct (bool_decide _); [|left; reflexivity].
    destruct (decodeData decodedAction (Account.abi contract))
      as [decodedData|e]; [|left; reflexivity].
    right. exists (inlineContext (context vm) decodedAction decodedData).
    split; [reflexivity|]. split; [|split; reflexivity].
    unfold Context.isNotification, inlineContext. simpl.
    rewrite Z.eqb_refl. reflexivity.
Qed.
(** ** The idx64 index *)

Lemma littleEndian_bound (b : bytes) :
  0 <= littleEndian b < 256 ^ Z.of_nat (length b).
Proof.
  induction b as [|x b IH]; [simpl; lia|].
  cbn [littleEndian length]. rewrite Nat2Z.inj_succ, Z.pow_succ_r by lia.
  pose proof (Byte.to_N_bounded x) as Hx. lia.
Qed.

Lemma littleEndian_inj (a b : bytes) :
  length a = length b -> littleEndian a = littleEndian b -> a = b.
Proof.
  revert b. induction a as [|x a IH]; intros [|y b] Hlen Heq;
    try discriminate; [reflexivity|].
  cbn [littleEndian] in Heq. injection Hlen as Hlen.
  pose proof (Byte.to_N_bounded x) as Hx.
  pose proof (Byte.to_N_bounded y) as Hy.
  assert (Hxy : Byte.to_N x = Byte.to_N y) by lia.
  assert (x = y) as ->.
  { pose proof (Byte.of_to_N x) as H1. rewrite Hxy, Byte.of_to_N in H1.
    congruence. }
  f_equal. apply IH; [exact Hlen|lia].
Qed.

Lemma uint64LE_littleEndian (raw : bytes) :
  length raw = 8%nat -> Memory.uint64LE (littleEndian raw) = raw.
Proof.
  intros Hlen. apply littleEndian_inj; [rewrite Hlen; reflexivity|].
  apply littleEndian_uint64LE.
  pose proof (littleEndian_bound raw) as Hb. rewrite Hlen in Hb.
  change (256 ^ Z.of_nat 8) with (2 ^ 64) in Hb. exact Hb.
Qed.

Lemma uint64_converter (raw buffer : bytes) :
  length raw = 8%nat -> length buffer = 8%nat ->
  conv_from uint64 raw = littleEndian raw
  /\ 0 <= littleEndian raw < 2 ^ 64
  /\ conv_to uint64 buffer (littleEndian raw) = Some raw.
Proof.
  intros Hraw Hbuffer.
  assert (Hb : 0 <= littleEndian raw < 2 ^ 64).
  { pose proof (littleEndian_bound raw) as Hb. rewrite Hraw in Hb.
    change (256 ^ Z.of_nat 8) with (2 ^ 64) in Hb. exact Hb. }
  split; [|split; [exact Hb|]].
  - cbn [conv_from uint64]. unfold uint64.from, readBigUInt64LE.
    rewrite decide_True by lia. cbn [default].
    rewrite drop_0, firstn_all2 by lia. reflexivity.
  - cbn [conv_to uint64]. unfold uint64.to.
    rewrite writeBigUInt64LE_in_range by (rewrite ?Hbuffer; lia).
    rewrite take_0, uint64LE_littleEndian by exact Hraw.
    rewrite drop_ge by lia. rewrite app_nil_r. reflexivity.
Qed.

Lemma set_idx64_same (vm : VM) : set_idx64 (idx64 vm) vm = vm.
Proof. destruct vm. reflexivity. Qed.

Lemma db_idx64_store_run (vm : VM) (_scope _table _payer _id secondary : Z)
    (raw : bytes) (tab : Table.t) (vm1 : VM) :
  let scope := convertToUnsigned _scope in
  let table := convertToUnsigned _table in
  let payer := convertToUnsigned _payer in
  let id := convertToUnsigned _id in
  Memory.view (memory vm) secondary 8 = Some raw ->
  payer <> 0 ->
  findOrCreateTable (Context.receiver (context vm)) scope table payer vm
  = (Return tab, vm1) ->
  memory vm1 = memory vm ->
  let obj := IndexObject.mk (Table.id tab) id (conv_from uint64 raw) payer in
  let vm2 := set_store (with_idx64
                          (SecondaryKeyStore.set None obj
                             (Store.idx64 (Blockchain.store (bc vm1))))
                          (Blockchain.store (bc vm1))) vm1 in
  let c := snd (IteratorCache.cacheTable (idx64 vm2) (Table.id tab)) in
  db_idx64_store _scope _table _payer _id secondary vm
  = (Return (fst (IteratorCache.add c obj)),
     set_idx64 (snd (IteratorCache.add c obj)) (set_idx64 c vm2)).
Proof.
  intros scope table payer id Hview Hp Hfc Hmem obj vm2 c.
  unfold db_idx64_store. fold scope table payer id.
  unfold bind at 1. rewrite Buffer_from__run, (view_in_bounds _ _ _ _ Hview).
  unfold genericIndex.store.
  rewrite (proj2 (Z.eqb_neq _ _) Hp). cbn [negb].
  unfold assert at 1. unfold bind at 1. unfold ret at 1.
  unfold bind at 1. unfold gets at 1.
  rewrite (bind_Return _ _ _ _ _ Hfc).
  assert (Hview1 : Memory.view (memory vm1) secondary 8 = Some raw)
    by (rewrite Hmem; exact Hview).
  unfold bind at 1. rewrite (viewBytes_run _ _ _ _ Hview1).
  fold obj.
  unfold bind at 1. unfold modify at 1. cbn [setIndex getIndex idx64Ref].
  fold vm2.
  unfold bind at 1. unfold cache_cacheTable at 1. cbn [getCache idx64Ref].
  subst c.
  destruct (IteratorCache.cacheTable (idx64 vm2) (Table.id tab)) as [ei c0].
  cbn [setCache idx64Ref snd]. unfold cache_add. cbn [getCache idx64Ref].
  reflexivity.
Qed.

Lemma db_idx64_find_primary_present
    (vm : VM) (_code _scope _table out _primary e : Z) (tab : Table.t)
    (obj : IndexObject.t Z) (buffer raw : bytes) (m' : Memory.t) :
  Store.findTable (Blockchain.store (bc vm)) (convertToUnsigned _code)
    (convertToUnsigned _scope) (convertToUnsigned _table) = Some tab ->
  IteratorCache.getEndIteratorByTableId (idx64 vm) (Table.id tab) = Some e ->
  Memory.view (memory vm) out 8 = Some buffer ->
  SecondaryKeyStore.get (Store.idx64 (Blockchain.store (bc vm)))
    (Table.id tab) (convertToUnsigned _primary) = Some obj ->
  conv_to uint64 buffer (IndexObject.secondaryKey obj) = Some raw ->
  Memory.store (memory vm) out raw = Some m' ->
  db_idx64_find_primary _code _scope _table out _primary vm
  = (Return (fst (IteratorCache.add (idx64 vm) obj)),
     set_idx64 (snd (IteratorCache.add (idx64 vm) obj)) (set_memory m' vm)).
Proof.
  intros Hfind Hend Hbuf Hsome Hto Hst.
  unfold db_idx64_find_primary, genericIndex.find_primary, findTable.
  unfold bind at 1. rewrite Buffer_from__run, (view_in_bounds _ _ _ _ Hbuf).
  unfold bind at 1. unfold gets at 1. rewrite Hfind.
  unfold bind at 1. unfold cache_cacheTable at 1. cbn [getCache idx64Ref].
  rewrite (cacheTable_known _ _ _ Hend). cbn [setCache idx64Ref].
  rewrite set_idx64_same.
  unfold bind at 1. unfold gets at 1. cbn [getIndex idx64Ref].
  rewrite Hsome.
  unfold convTo. unfold bind at 1. unfold bind at 1.
  rewrite (viewBytes_run _ _ _ _ Hbuf). rewrite Hto.
  unfold memoryStore, cache_add. cbn [viewPtr getCache setCache idx64Ref].
  unfold bind, gets, orThrow, ret, modify. rewrite Hst. reflexivity.
Qed.

(** X26: a secondary key stored through [db_idx64_store] is kept in the
    index as the unsigned 64-bit integer that the 8 bytes at [secondary]
    are in little-endian order, and [db_idx64_find_primary] for the primary
    key writes these 8 bytes back to its buffer: the converter [uint64]
    loses nothing. *)
Theorem db_idx64_store_then_find_primary
    (vm : VM) (_code _scope _table _payer _id secondary out : Z) (raw : bytes) :
  Memory.view (memory vm) secondary 8 = Some raw ->
  convertToUnsigned _payer <> 0 ->
  convertToUnsigned _code = Context.receiver (context vm) ->
  Memory.inBounds (memory vm) out 8 = true ->
  exists h vm1 obj,
    db_idx64_store _scope _table _payer _id secondary vm = (Return h, vm1)
    /\ IteratorCache.get (idx64 vm1) h = Some obj
    /\ IndexObject.primaryKey obj = convertToUnsigned _id
    /\ IndexObject.secondaryKey obj = littleEndian raw
    /\ 0 <= IndexObject.secondaryKey obj < 2 ^ 64
    /\ memory vm1 = memory vm
    /\ exists h' vm2,
         db_idx64_find_primary _code _scope _table out _id vm1
         = (Return h', vm2)
         /\ IteratorCache.get (idx64 vm2) h' = Some obj
         /\ Memory.view (memory vm2) out 8 = Some raw.
Proof.
  intros Hview Hp Hcode Hout.
  pose proof (view_length _ _ _ _ Hview) as Hraw.
  destruct (in_bounds_view _ _ _ Hout) as [buffer Hbuf].
  pose proof (view_length _ _ _ _ Hbuf) as Hbuffer.
  destruct (uint64_converter raw buffer Hraw Hbuffer) as (Hfrom & Hrange & Hto).
  destruct (findOrCreateTable_result vm (Context.receiver (context vm))
              (convertToUnsigned _scope) (convertToUnsigned _table)
              (convertToUnsigned _payer))
    as (tab & vm1 & Hfc & Hfound & Hctx & Hcache & Hmem & _ & _).
  pose proof (db_idx64_store_run vm _scope _table _payer _id secondary
                raw tab vm1 Hview Hp Hfc Hmem) as Hrun.
  cbv zeta in Hrun. rewrite Hfrom in Hrun.
  set (obj := IndexObject.mk (Table.id tab) (convertToUnsigned _id)
                (littleEndian raw) (convertToUnsigned _payer)) in *.
  set (vm2 := set_store _ vm1) in Hrun.
  set (c := snd (IteratorCache.cacheTable (idx64 vm2) (Table.id tab))) in Hrun.
  set (vm3 := set_idx64 (snd (IteratorCache.add c obj)) (set_idx64 c vm2)) in Hrun.
  exists (fst (IteratorCache.add c obj)), vm3, obj.
  split; [exact Hrun|].
  split; [apply (get_add c obj)|].
  split; [reflexivity|]. split; [reflexivity|]. split; [exact Hrange|].
  split; [exact Hmem|].
  assert (Hst : exists m', Memory.store (memory vm3) out raw = Some m').
  { apply store_in_bounds. rewrite Hraw. change (memory vm3) with (memory vm1).
    rewrite Hmem. exact Hout. }
  destruct Hst as [m' Hst].
  pose proof (view_store _ _ _ _ Hst) as Hback. rewrite Hraw in Hback.
  destruct (cacheTable_result (idx64 vm2) (Table.id tab)) as (_ & Hend & _ & _).
  cbv zeta in Hend. fold c in Hend.
  rewrite (db_idx64_find_primary_present vm3 _code _scope _table out _id
             (fst (IteratorCache.cacheTable (idx64 vm2) (Table.id tab)))
             tab obj buffer raw m').
  - eexists. eexists. split; [reflexivity|].
    split; [apply get_add|exact Hback].
  - rewrite Hcode. exact Hfound.
  - exact Hend.
  - change (memory vm3) with (memory vm1). rewrite Hmem. exact Hbuf.
  - apply (secondary_get_set _ None obj).
  - exact Hto.
  - exact Hst.
Qed.

Lemma db_idx64_store_then_find_primary_witness :
  exists h vm1 obj,
    db_idx64_store scopeName tableName alice 7 0 filledVM = (Return h, vm1)
    /\ IteratorCache.get (idx64 vm1) h = Some obj
    /\ IndexObject.primaryKey obj = convertToUnsigned 7
    /\ IndexObject.secondaryKey obj
       = littleEndian [x00; x01; x02; x03; x04; x05; x06; x07]
    /\ 0 <= IndexObject.secondaryKey obj < 2 ^ 64
    /\ memory vm1 = memory filledVM
    /\ exists h' vm2,
         db_idx64_find_primary alice scopeName tableName 40 7 vm1
         = (Return h', vm2)
         /\ IteratorCache.get (idx64 vm2) h' = Some obj
         /\ Memory.view (memory vm2) 40 8
            = Some [x00; x01; x02; x03; x04; x05; x06; x07].
Proof.
  refine (db_idx64_store_then_find_primary filledVM alice scopeName tableName
            alice 7 0 40 [x00; x01; x02; x03; x04; x05; x06; x07]
            eq_refl _ eq_refl eq_refl).
  vm_compute. discriminate.
Defined.
